(** * dockerfile_ai: the resilient inference-client core

    A shallow embedding of [src/dockerfile_ai/resilience.py] (delay policy,
    retry executors, circuit breaker, model-availability check) together with
    the two text transforms of the client ([query_ollama]'s stream decoding and
    [extract_dockerfile_content]), and of the code around it: the connection
    check of [resilience.py], the configuration sources of [config.py]
    ([load_env_config], [merge_configs] and the merge of [load_configuration]),
    the handlers of [logging.py] and the tool and prompt tables of
    [mcp_server.py].

    Conventions of the embedding.
    - A Python [float] is an IEEE binary64 value: Rocq's primitive [float].
      [*] and [+] are the primitive operations; [**] follows CPython's
      [float_pow], which turns an out-of-range result into [OverflowError].
    - A Python [int] is a [Z]; an attempt number produced by [range] is an [N].
    - A call that may raise returns a [result]; the raised object is a value
      of [exception].
    - The wrapped operation, [random.random()] and [time.time()] are the
      environment: each is given by the sequence of values its successive
      calls produce, and the [world] counts how many have been consumed.
    - [time.time()] readings are only subtracted and compared; they are
      modelled as exact rationals.
    - [time.sleep] refuses the delays CPython refuses (NaN, negative, beyond
      64-bit nanoseconds), the operating system may refuse one of its own,
      and [asyncio.sleep] refuses none; a wait that is accepted is recorded
      in the world with its delay when it has ended.
    - [str(e)] of a failure of the operation, which the warning of a retried
      attempt renders, is the environment's: it gives a string or raises.
    - Log calls change neither results nor state and are left out, with one
      exception: formatting a message that reads [func.__name__] raises
      [AttributeError] for a callable that has no such attribute.
    - A dict is an association list with distinct keys, in insertion order.
    - The environment variables and the builtins [int] and [float] on strings
      are parameters of the configuration code.
    - Of the [logging] library the model has the handlers of the
      ["dockerfile_ai"] logger, their levels and formatters; handlers of the
      root logger are outside it.

    The file has two parts: the definitions (the embedding, then the notions
    and inputs the statements use), and the facts, grouped by component. *)

From Stdlib Require Import ZArith NArith QArith Qminmax Bool List String Ascii Lia Lqa.
From Stdlib Require Import Floats DecimalString.
Import ListNotations.

Set Implicit Arguments.
Set Warnings "-register-all".

(* ================================================================== *)
(** * Python values *)
(* ================================================================== *)

(** Exceptions raised by the interpreter itself. *)
Inductive builtin_exception : Type :=
| OverflowError (msg : string)
| TypeError (msg : string)
| AttributeError (msg : string)
| ValueError (msg : string).

(** What a call can raise.  [E] is the type of the [Exception] instances the
    wrapped operation raises, [B] the type of the [BaseException] instances
    that are not [Exception]s (they pass through every [except Exception]). *)
Inductive exception (E B : Type) : Type :=
| OperationFailure (e : E)
| OperationBaseException (b : B)
| Builtin (x : builtin_exception)
| OllamaConnectionError (msg : string)
| OllamaResponseError (msg : string).

Arguments OperationFailure {E B} e.
Arguments OperationBaseException {E B} b.
Arguments Builtin {E B} x.
Arguments OllamaConnectionError {E B} msg.
Arguments OllamaResponseError {E B} msg.

Inductive result (A X : Type) : Type :=
| Ok (a : A)
| Raise (x : X).

Arguments Ok {A X} a.
Arguments Raise {A X} x.

(** One invocation of the wrapped operation. *)
Inductive outcome (T E B : Type) : Type :=
| Returned (v : T)
| Raised (e : E)
| Escaped (b : B).

Arguments Returned {T E B} v.
Arguments Raised {T E B} e.
Arguments Escaped {T E B} b.

(* ================================================================== *)
(** * Float arithmetic as Python performs it *)
(* ================================================================== *)

(** [float(n)] for a non-negative [int] ([PyLong_AsDouble]): round to nearest
    even; [None] stands for [OverflowError: int too large to convert to
    float]. *)
Definition float_of_int (n : N) : option float :=
  let f := SF2Prim (binary_normalize prec emax (Z.of_N n) 0 false) in
  if is_infinity f then None else Some f.

(** The integer a non-negative, integer-valued float denotes. *)
Definition int_of_float (f : float) : Z :=
  match Prim2SF f with
  | S754_finite _ m e =>
      if (0 <=? e)%Z then (Zpos m * 2 ^ e)%Z else (Zpos m / 2 ^ (- e))%Z
  | _ => 0%Z
  end.

(** libm's [pow] on a finite positive base and a positive integer exponent:
    the exact power, rounded to nearest even (a libm may be off by one unit
    in the last place; whether the power leaves the range does not depend on
    that).  The result is [infinity] when the power exceeds the binary64
    range. *)
Definition c_pow (iv : float) (k : Z) : float :=
  match Prim2SF iv with
  | S754_finite _ m e =>
      SF2Prim (binary_normalize prec emax (Zpos m ^ k) (e * k) false)
  | _ => iv
  end.

Definition range_error : string := "(34, 'Numerical result out of range')".

(** [x ** n] for a float [x] and a non-negative int [n] (CPython's
    [float_pow]; the cases on an infinite or NaN exponent cannot arise from an
    int and are omitted). *)
Definition py_float_pow (x : float) (n : N) : result float builtin_exception :=
  match float_of_int n with
  | None => Raise (OverflowError "int too large to convert to float")
  | Some iw =>
      let k := int_of_float iw in
      if (iw =? 0)%float then Ok 1%float
      else if is_nan x then Ok x
      else if is_infinity x then Ok (if Z.odd k then x else abs x)
      else if (x =? 0)%float then Ok (if Z.odd k then x else 0%float)
      else
        let negate_result := (x <? 0)%float && Z.odd k in
        let iv := abs x in
        if (iv =? 1)%float then Ok (if negate_result then (-1)%float else 1%float)
        else
          let ix := c_pow iv k in
          if is_infinity ix then Raise (OverflowError range_error)
          else Ok (if negate_result then (- ix)%float else ix)
  end.

(** The builtin [min(a, b)]: the first argument unless the second is
    strictly smaller. *)
Definition py_min (a b : float) : float :=
  if (b <? a)%float then b else a.

(* ================================================================== *)
(** * RetryConfig *)
(* ================================================================== *)

Record RetryConfig : Type := {
  max_retries : Z;
  initial_delay : float;
  max_delay : float;
  exponential_base : float;
  jitter : bool
}.

(** [RetryConfig()] with the defaults of [__init__]. *)
Definition RetryConfig_default : RetryConfig :=
  {| max_retries := 3;
     initial_delay := 1%float;
     max_delay := 32%float;
     exponential_base := 2%float;
     jitter := true |}.

(** [RetryConfig.get_delay].  [rnd] is the value [random.random()] returns if
    it is called; it is called only when [jitter] is set, after the capped
    delay has been computed. *)
Definition get_delay (self : RetryConfig) (attempt : N) (rnd : float)
  : result float builtin_exception :=
  match py_float_pow (exponential_base self) attempt with
  | Raise x => Raise x
  | Ok p =>
      let delay := py_min (initial_delay self * p)%float (max_delay self) in
      if jitter self then Ok (delay * (0.5 + rnd))%float else Ok delay
  end.

(* ================================================================== *)
(** * Environment and world *)
(* ================================================================== *)

Inductive wait_event : Type :=
| AsyncioSleep (delay : float)   (* await asyncio.sleep(delay) *)
| TimeSleep (delay : float).     (* time.sleep(delay) *)

Record world : Type := {
  calls : nat;               (* invocations of the wrapped operation so far *)
  draws : nat;               (* calls of random.random() so far *)
  clock_reads : nat;         (* calls of time.time() so far *)
  waits : list wait_event    (* sleeps performed, oldest first *)
}.

Definition world0 : world :=
  {| calls := 0; draws := 0; clock_reads := 0; waits := [] |}.

(** [time.sleep(delay)] up to the wait itself, as CPython 3.11 converts its
    argument: NaN is refused; the delay is turned into nanoseconds, which
    must fit a signed 64-bit integer; a negative delay is refused (the
    conversion of [2^63] itself wraps to a negative number).  A delay that
    passes is handed to the operating system. *)
Definition time_sleep (delay : float) : result unit builtin_exception :=
  if is_nan delay then Raise (ValueError "Invalid value NaN (not a number)")
  else
    let ns := (delay * 1e9)%float in
    if ((ns <? - 0x1p63) || (0x1p63 <? ns))%float
    then Raise (OverflowError "timestamp too large to convert to C _PyTime_t")
    else if ((delay <? 0) || (ns =? 0x1p63))%float
         then Raise (ValueError "sleep length must be non-negative")
         else Ok tt.

(** [await asyncio.sleep(delay)], as CPython 3.11 has it, refuses no delay:
    one that is not positive gives way to the event loop once and returns,
    any other is waited for (an infinite one, or NaN, without end; the facts
    that assert a result are about delays that [time.sleep] accepts, which
    are finite numbers). *)
Definition asyncio_sleep (delay : float) : result unit builtin_exception :=
  Ok tt.

Section Environment.
Variables T E B : Type.

Record env : Type := {
  func_name : result string string;  (* func.__name__, or its AttributeError *)
  outcomes : nat -> outcome T E B;   (* outcome of the i-th invocation *)
  failure_str : E -> option (exception E B);
                                     (* what str(e) raises, when it raises *)
  os_wait : float -> option (exception E B);
                                     (* what the operating system's wait
                                        raises, when it refuses the delay *)
  random_random : nat -> float;      (* value of the i-th draw *)
  time_time : nat -> Q               (* value of the i-th clock reading *)
}.

Definition invoke (en : env) (w : world) : outcome T E B * world :=
  (outcomes en (calls w),
   {| calls := S (calls w); draws := draws w;
      clock_reads := clock_reads w; waits := waits w |}).

Definition read_clock (en : env) (w : world) : Q * world :=
  (time_time en (clock_reads w),
   {| calls := calls w; draws := draws w;
      clock_reads := S (clock_reads w); waits := waits w |}).

(** The world after a wait that has come to its end. *)
Definition record_wait (ev : wait_event) (w : world) : world :=
  {| calls := calls w; draws := draws w;
     clock_reads := clock_reads w; waits := waits w ++ [ev] |}.

(** [time.sleep(delay)]: the conversion of the argument, then the wait of
    the operating system, which can refuse a delay of its own (Linux answers
    [OSError: Invalid argument] to a deadline beyond the range of its
    clock). *)
Definition time_sleep_in (en : env) (delay : float) : result unit (exception E B) :=
  match time_sleep delay with
  | Raise y => Raise (Builtin y)
  | Ok _ =>
      match os_wait en delay with
      | Some z => Raise z
      | None => Ok tt
      end
  end.

(** [str(e)] in the warning of an attempt that is retried: what it raises,
    if it raises.  The exceptions of the interpreter render without fail;
    the [__str__] of a failure of the operation is the environment's. *)
Definition str_raises (en : env) (x : exception E B) : option (exception E B) :=
  match x with
  | OperationFailure e => failure_str en e
  | _ => None
  end.

(** [config.get_delay(attempt)] in a world: the draw is consumed only when
    the delay computation reaches [random.random()]. *)
Definition get_delay_in (cfg : RetryConfig) (en : env) (attempt : N) (w : world)
  : result float builtin_exception * world :=
  match get_delay cfg attempt (random_random en (draws w)) with
  | Raise x => (Raise x, w)
  | Ok d =>
      (Ok d,
       if jitter cfg
       then {| calls := calls w; draws := S (draws w);
               clock_reads := clock_reads w; waits := waits w |}
       else w)
  end.

(** [range(n)] *)
Definition py_range (n : Z) : list N :=
  map N.of_nat (seq 0 (Z.to_nat n)).

(** [raise last_exception] after the loop. *)
Definition raise_last (last_exception : option (exception E B)) : exception E B :=
  match last_exception with
  | Some x => x
  | None => Builtin (TypeError "exceptions must derive from BaseException")
  end.

(** What the [try] block of one attempt comes to. *)
Inductive try_result : Type :=
| TryReturn (v : T)                 (* return [await] func(...) *)
| TryCaught (x : exception E B)     (* an [Exception], bound by [except] *)
| TryEscaped (b : B).               (* not an [Exception]: passes through *)

(** The [try] block: the debug message is formatted first, which reads
    [func.__name__]; then the operation is invoked. *)
Definition try_body (en : env) (w : world) : try_result * world :=
  match func_name en with
  | Raise msg => (TryCaught (Builtin (AttributeError msg)), w)
  | Ok _ =>
      match invoke en w with
      | (Returned v, w1) => (TryReturn v, w1)
      | (Raised e, w1) => (TryCaught (OperationFailure e), w1)
      | (Escaped b, w1) => (TryEscaped b, w1)
      end
  end.

(** The [for attempt in range(config.max_retries + 1)] loop of
    [retry_async], started with the remaining attempt numbers.  An attempt
    that is retried computes the delay, formats the warning, which renders
    [str(e)], and waits; each of the three can raise, inside the [except]
    block, and what it raises leaves the function.  On the last attempt the
    error message is formatted, which reads [func.__name__] again. *)
Fixpoint retry_async_loop (cfg : RetryConfig) (en : env) (attempts : list N)
         (last_exception : option (exception E B)) (w : world)
  : result T (exception E B) * world :=
  match attempts with
  | [] => (Raise (raise_last last_exception), w)
  | attempt :: rest =>
      match try_body en w with
      | (TryReturn v, w1) => (Ok v, w1)
      | (TryEscaped b, w1) => (Raise (OperationBaseException b), w1)
      | (TryCaught x, w1) =>
          if (Z.of_N attempt <? max_retries cfg)%Z then
            match get_delay_in cfg en attempt w1 with
            | (Raise y, w2) => (Raise (Builtin y), w2)
            | (Ok delay, w2) =>
                match str_raises en x with
                | Some z => (Raise z, w2)
                | None =>
                    match asyncio_sleep delay with
                    | Raise y => (Raise (Builtin y), w2)
                    | Ok _ =>
                        retry_async_loop cfg en rest (Some x)
                                         (record_wait (AsyncioSleep delay) w2)
                    end
                end
            end
          else
            match func_name en with
            | Raise msg => (Raise (Builtin (AttributeError msg)), w1)
            | Ok _ => retry_async_loop cfg en rest (Some x) w1
            end
      end
  end.

Definition retry_async (cfg : RetryConfig) (en : env) (w : world)
  : result T (exception E B) * world :=
  retry_async_loop cfg en (py_range (max_retries cfg + 1)) None w.

(** The same loop of [retry_sync], which waits with [time.sleep]. *)
Fixpoint retry_sync_loop (cfg : RetryConfig) (en : env) (attempts : list N)
         (last_exception : option (exception E B)) (w : world)
  : result T (exception E B) * world :=
  match attempts with
  | [] => (Raise (raise_last last_exception), w)
  | attempt :: rest =>
      match try_body en w with
      | (TryReturn v, w1) => (Ok v, w1)
      | (TryEscaped b, w1) => (Raise (OperationBaseException b), w1)
      | (TryCaught x, w1) =>
          if (Z.of_N attempt <? max_retries cfg)%Z then
            match get_delay_in cfg en attempt w1 with
            | (Raise y, w2) => (Raise (Builtin y), w2)
            | (Ok delay, w2) =>
                match str_raises en x with
                | Some z => (Raise z, w2)
                | None =>
                    match time_sleep_in en delay with
                    | Raise z => (Raise z, w2)
                    | Ok _ =>
                        retry_sync_loop cfg en rest (Some x)
                                        (record_wait (TimeSleep delay) w2)
                    end
                end
            end
          else
            match func_name en with
            | Raise msg => (Raise (Builtin (AttributeError msg)), w1)
            | Ok _ => retry_sync_loop cfg en rest (Some x) w1
            end
      end
  end.

Definition retry_sync (cfg : RetryConfig) (en : env) (w : world)
  : result T (exception E B) * world :=
  retry_sync_loop cfg en (py_range (max_retries cfg + 1)) None w.

End Environment.

Arguments func_name {T E B} e.
Arguments outcomes {T E B} e _.
Arguments failure_str {T E B} e _.
Arguments os_wait {T E B} e _.
Arguments TryReturn {T E B} v.
Arguments TryCaught {T E B} x.
Arguments TryEscaped {T E B} b.
Arguments random_random {T E B} e _.
Arguments time_time {T E B} e _.

(* ================================================================== *)
(** * CircuitBreaker *)
(* ================================================================== *)

Record CircuitBreaker : Type := {
  failure_threshold : Z;
  recovery_timeout : Q;
  name : string;
  failure_count : Z;
  last_failure_time : option Q;
  is_open : bool
}.

(** [CircuitBreaker.__init__] *)
Definition CircuitBreaker_init (threshold : Z) (timeout : Q) (nm : string)
  : CircuitBreaker :=
  {| failure_threshold := threshold;
     recovery_timeout := timeout;
     name := nm;
     failure_count := 0;
     last_failure_time := None;
     is_open := false |}.

Definition record_success (self : CircuitBreaker) : CircuitBreaker :=
  {| failure_threshold := failure_threshold self;
     recovery_timeout := recovery_timeout self;
     name := name self;
     failure_count := 0;
     last_failure_time := last_failure_time self;
     is_open := false |}.

(** [record_failure]; [now] is the value of its [time.time()] call. *)
Definition record_failure (now : Q) (self : CircuitBreaker) : CircuitBreaker :=
  let count := (failure_count self + 1)%Z in
  {| failure_threshold := failure_threshold self;
     recovery_timeout := recovery_timeout self;
     name := name self;
     failure_count := count;
     last_failure_time := Some now;
     is_open := if (failure_threshold self <=? count)%Z then true else is_open self |}.

(** The four ways through [should_attempt], in the order of its [return]s. *)
Inductive attempt_branch : Type :=
| BranchClosed              (* not self.is_open *)
| BranchNoFailureTime       (* open, last_failure_time is None *)
| BranchRecovery            (* open, elapsed > recovery_timeout *)
| BranchRejected.           (* open, still within the timeout *)

(** [now] is read by [time.time()] only on the last two branches. *)
Definition should_attempt_branch (now : Q) (self : CircuitBreaker) : attempt_branch :=
  if negb (is_open self) then BranchClosed
  else
    match last_failure_time self with
    | None => BranchNoFailureTime
    | Some t =>
        let elapsed := (now - t)%Q in
        if Qlt_le_dec (recovery_timeout self) elapsed then BranchRecovery
        else BranchRejected
    end.

Definition should_attempt (now : Q) (self : CircuitBreaker) : bool * CircuitBreaker :=
  match should_attempt_branch now self with
  | BranchClosed => (true, self)
  | BranchNoFailureTime => (true, self)
  | BranchRecovery =>
      (true,
       {| failure_threshold := failure_threshold self;
          recovery_timeout := recovery_timeout self;
          name := name self;
          failure_count := 0;
          last_failure_time := last_failure_time self;
          is_open := false |})
  | BranchRejected => (false, self)
  end.

Definition breaker_open_message (self : CircuitBreaker) : string :=
  "Circuit breaker " ++ name self ++ " is open. Service appears to be unavailable.".

Section BreakerCall.
Variables T E B : Type.

(** [self.should_attempt()] in a world: [time.time()] is called only when the
    breaker is open and a failure time is recorded. *)
Definition should_attempt_in (en : env T E B) (self : CircuitBreaker) (w : world)
  : bool * CircuitBreaker * world :=
  if negb (is_open self) then (true, self, w)
  else
    match last_failure_time self with
    | None => (true, self, w)
    | Some _ =>
        let (now, w1) := read_clock en w in
        (should_attempt now self, w1)
    end.

(** [self.record_failure()] in a world. *)
Definition record_failure_in (en : env T E B) (self : CircuitBreaker) (w : world)
  : CircuitBreaker * world :=
  let (now, w1) := read_clock en w in
  (record_failure now self, w1).

(** [CircuitBreaker.call_async] *)
Definition call_async (en : env T E B) (self : CircuitBreaker) (w : world)
  : result T (exception E B) * CircuitBreaker * world :=
  match should_attempt_in en self w with
  | (false, cb, w1) =>
      (Raise (OllamaConnectionError (breaker_open_message cb)), cb, w1)
  | (true, cb, w1) =>
      match invoke en w1 with
      | (Returned v, w2) => (Ok v, record_success cb, w2)
      | (Raised e, w2) =>
          let (cb', w3) := record_failure_in en cb w2 in
          (Raise (OperationFailure e), cb', w3)
      | (Escaped b, w2) => (Raise (OperationBaseException b), cb, w2)
      end
  end.

End BreakerCall.

(** The public calls that change or read a breaker, each with the clock value
    it would read. *)
Inductive breaker_call : Type :=
| CallRecordSuccess
| CallRecordFailure (now : Q)
| CallShouldAttempt (now : Q).

Definition apply_call (self : CircuitBreaker) (c : breaker_call) : CircuitBreaker :=
  match c with
  | CallRecordSuccess => record_success self
  | CallRecordFailure now => record_failure now self
  | CallShouldAttempt now => snd (should_attempt now self)
  end.

Definition run_calls (self : CircuitBreaker) (cs : list breaker_call) : CircuitBreaker :=
  fold_left apply_call cs self.

(** The number of [record_failure] calls in a sequence of calls. *)
Fixpoint failures_in (cs : list breaker_call) : nat :=
  match cs with
  | [] => 0
  | CallRecordFailure _ :: rest => S (failures_in rest)
  | _ :: rest => failures_in rest
  end.

(** No [record_success] occurs in a sequence of calls. *)
Fixpoint no_success (cs : list breaker_call) : bool :=
  match cs with
  | [] => true
  | CallRecordSuccess :: _ => false
  | _ :: rest => no_success rest
  end.

(** [record_failure] called once per clock value of [times], in order. *)
Definition record_failures (times : list Q) (self : CircuitBreaker) : CircuitBreaker :=
  fold_left (fun cb now => record_failure now cb) times self.

(* ================================================================== *)
(** * Strings *)
(* ================================================================== *)

Local Open Scope string_scope.

(** [needle in hay] on two [str]s: [needle] occurs as a contiguous run. *)
Fixpoint str_contains (needle hay : string) : bool :=
  if String.prefix needle hay then true
  else
    match hay with
    | EmptyString => false
    | String _ rest => str_contains needle rest
    end.

(** [str(n)] for an [int]. *)
Definition py_str_int (n : Z) : string :=
  NilZero.string_of_int (Z.to_int n).

Definition LF : ascii := "010"%char.

(** [s.split("\n")] *)
Fixpoint split_lines (s : string) : list string :=
  match s with
  | EmptyString => [EmptyString]
  | String c rest =>
      if Ascii.eqb c LF then EmptyString :: split_lines rest
      else
        match split_lines rest with
        | l :: ls => String c l :: ls
        | [] => [String c EmptyString]
        end
  end.

(** ["\n".join(lines)] *)
Fixpoint join_lines (lines : list string) : string :=
  match lines with
  | [] => EmptyString
  | [l] => l
  | l :: rest => l ++ String LF (join_lines rest)
  end.

(* ================================================================== *)
(** * JSON-shaped Python values *)
(* ================================================================== *)

Inductive pyval : Type :=
| PNone
| PBool (b : bool)
| PInt (n : Z)
| PFloat (lit : string)
| PStr (s : string)
| PList (items : list pyval)
| PDict (entries : list (string * pyval)).   (* keys are distinct *)

Definition type_name (v : pyval) : string :=
  match v with
  | PNone => "NoneType"
  | PBool _ => "bool"
  | PInt _ => "int"
  | PFloat _ => "float"
  | PStr _ => "str"
  | PList _ => "list"
  | PDict _ => "dict"
  end.

Fixpoint dict_lookup (key : string) (entries : list (string * pyval)) : option pyval :=
  match entries with
  | [] => None
  | (k, v) :: rest => if String.eqb k key then Some v else dict_lookup key rest
  end.

(** [d[key] = v]: the value of an existing key is replaced in place. *)
Fixpoint dict_set (key : string) (v : pyval) (entries : list (string * pyval))
  : list (string * pyval) :=
  match entries with
  | [] => [(key, v)]
  | (k, x) :: rest =>
      if String.eqb k key then (k, v) :: rest else (k, x) :: dict_set key v rest
  end.

(** [v.get(key, default)] *)
Definition py_get (v : pyval) (key : string) (default : pyval)
  : result pyval builtin_exception :=
  match v with
  | PDict entries =>
      Ok (match dict_lookup key entries with Some x => x | None => default end)
  | _ => Raise (AttributeError ("'" ++ type_name v ++ "' object has no attribute 'get'"))
  end.

(** The items [for m in v] goes through. *)
Definition py_iter (v : pyval) : result (list pyval) builtin_exception :=
  match v with
  | PList items => Ok items
  | PStr s => Ok (map (fun c => PStr (String c EmptyString)) (list_ascii_of_string s))
  | PDict entries => Ok (map (fun kv => PStr (fst kv)) entries)
  | _ => Raise (TypeError ("'" ++ type_name v ++ "' object is not iterable"))
  end.

(** [model in m] for a [str] [model]. *)
Definition py_contains (model : string) (m : pyval) : result bool builtin_exception :=
  match m with
  | PStr s => Ok (str_contains model s)
  | PList items =>
      Ok (existsb (fun x => match x with PStr s => String.eqb s model | _ => false end) items)
  | PDict entries => Ok (existsb (fun kv => String.eqb (fst kv) model) entries)
  | _ => Raise (TypeError ("argument of type '" ++ type_name m ++ "' is not iterable"))
  end.

(** [[m.get("name", empty) for m in ms]], [empty] being the empty string. *)
Fixpoint names_of (ms : list pyval) : result (list pyval) builtin_exception :=
  match ms with
  | [] => Ok []
  | m :: rest =>
      match py_get m "name" (PStr EmptyString) with
      | Raise x => Raise x
      | Ok n =>
          match names_of rest with
          | Raise x => Raise x
          | Ok ns => Ok (n :: ns)
          end
      end
  end.

(** [any(model in m for m in models)]: stops at the first [True]. *)
Fixpoint any_contains (model : string) (models : list pyval)
  : result bool builtin_exception :=
  match models with
  | [] => Ok false
  | m :: rest =>
      match py_contains model m with
      | Raise x => Raise x
      | Ok true => Ok true
      | Ok false => any_contains model rest
      end
  end.

(** [sep.join(items)], the items counted from [i]. *)
Fixpoint py_join_from (i : nat) (sep : string) (items : list pyval)
  : result string builtin_exception :=
  match items with
  | [] => Ok EmptyString
  | PStr s :: rest =>
      match py_join_from (S i) sep rest with
      | Raise x => Raise x
      | Ok t => Ok (match rest with [] => s | _ :: _ => s ++ sep ++ t end)
      end
  | v :: _ =>
      Raise (TypeError ("sequence item " ++ py_str_int (Z.of_nat i)
                        ++ ": expected str instance, " ++ type_name v ++ " found"))
  end.

Definition py_join (sep : string) (items : list pyval) : result string builtin_exception :=
  py_join_from 0 sep items.

Definition builtin_message (x : builtin_exception) : string :=
  match x with
  | OverflowError m => m
  | TypeError m => m
  | AttributeError m => m
  | ValueError m => m
  end.

(* ================================================================== *)
(** * check_model_available *)
(* ================================================================== *)

(** What [client.get(url, timeout=timeout)] followed by [raise_for_status()]
    and [json()] comes to. *)
Inductive http_exchange : Type :=
| GetRaisesHTTPError (msg : string)     (* httpx.HTTPError: connect, timeout, ... *)
| GetRaisesException (msg : string)     (* any other Exception from the request *)
| GotResponse (status_error : option string)           (* raise_for_status() *)
              (json : result pyval string).            (* response.json() *)

(** The body of the [try] once [data] is at hand. *)
Definition model_listed (model : string) (data : pyval) : result bool builtin_exception :=
  match py_get data "models" (PList []) with
  | Raise x => Raise x
  | Ok listing =>
      match py_iter listing with
      | Raise x => Raise x
      | Ok ms =>
          match names_of ms with
          | Raise x => Raise x
          | Ok models =>
              match any_contains model models with
              | Raise x => Raise x
              | Ok true => Ok true
              | Ok false =>
                  (* the warning formats ', '.join(models) *)
                  match py_join ", " models with
                  | Raise x => Raise x
                  | Ok _ => Ok false
                  end
              end
          end
      end
  end.

Section ModelCheck.
Variables E B : Type.
(** The transport: the exchange a GET of [url] with [timeout] results in. *)
Variable http_get : string -> Z -> http_exchange.

Definition tags_url (host : string) (port : Z) : string :=
  "http://" ++ host ++ ":" ++ py_str_int port ++ "/api/tags".

Definition check_model_available (model host : string) (port timeout : Z)
  : result bool (exception E B) :=
  let url := tags_url host port in
  match http_get url timeout with
  | GetRaisesHTTPError msg =>
      Raise (OllamaConnectionError ("Error checking model availability: " ++ msg))
  | GetRaisesException msg =>
      Raise (OllamaConnectionError ("Unexpected error checking model: " ++ msg))
  | GotResponse (Some msg) _ =>
      Raise (OllamaConnectionError ("Error checking model availability: " ++ msg))
  | GotResponse None (Raise msg) =>
      Raise (OllamaConnectionError ("Unexpected error checking model: " ++ msg))
  | GotResponse None (Ok data) =>
      match model_listed model data with
      | Ok available => Ok available
      | Raise x =>
          Raise (OllamaConnectionError
                   ("Unexpected error checking model: " ++ builtin_message x))
      end
  end.
End ModelCheck.

(** The names a well-formed listing registers: [data] is an object whose
    ["models"] entry, when present, is a list of objects, each with a string
    ["name"] or none (read as the empty name). *)
Fixpoint descriptor_names (ms : list pyval) : option (list string) :=
  match ms with
  | [] => Some []
  | PDict entries :: rest =>
      match dict_lookup "name" entries, descriptor_names rest with
      | Some (PStr n), Some ns => Some (n :: ns)
      | None, Some ns => Some (EmptyString :: ns)
      | _, _ => None
      end
  | _ :: _ => None
  end.

Definition registered_names (data : pyval) : option (list string) :=
  match data with
  | PDict entries =>
      match dict_lookup "models" entries with
      | None => Some []
      | Some (PList ms) => descriptor_names ms
      | Some _ => None
      end
  | _ => None
  end.

(* ================================================================== *)
(** * JSON text *)
(* ================================================================== *)

Definition DQUOTE : ascii := "034"%char.
Definition BACKSLASH : ascii := "092"%char.
Definition BACKTICK : ascii := "096"%char.

Definition is_json_ws (c : ascii) : bool :=
  Ascii.eqb c " " || Ascii.eqb c "009" || Ascii.eqb c LF || Ascii.eqb c "013".

Fixpoint skip_ws (s : string) : string :=
  match s with
  | String c rest => if is_json_ws c then skip_ws rest else s
  | EmptyString => EmptyString
  end.

Definition is_digit (c : ascii) : bool :=
  let n := nat_of_ascii c in (48 <=? n)%nat && (n <=? 57)%nat.

Definition hex_value (c : ascii) : option N :=
  let n := N_of_ascii c in
  if ((48 <=? n) && (n <=? 57))%N then Some (n - 48)%N
  else if ((97 <=? n) && (n <=? 102))%N then Some (n - 87)%N
  else if ((65 <=? n) && (n <=? 70))%N then Some (n - 55)%N
  else None.

(** Four hexadecimal digits: a UTF-16 code unit. *)
Definition hex4 (s : string) : option (N * string) :=
  match s with
  | String a (String b (String c (String d rest))) =>
      match hex_value a, hex_value b, hex_value c, hex_value d with
      | Some x, Some y, Some z, Some t => Some (((x * 16 + y) * 16 + z) * 16 + t, rest)%N
      | _, _, _, _ => None
      end
  | _ => None
  end.

Definition byte_string (n : N) : string := String (ascii_of_N n) EmptyString.

(** The UTF-8 bytes of a code point. *)
Definition utf8_encode (cp : N) : string :=
  if (cp <? 128)%N then byte_string cp
  else if (cp <? 2048)%N then
    byte_string (192 + cp / 64) ++ byte_string (128 + cp mod 64)
  else if (cp <? 65536)%N then
    byte_string (224 + cp / 4096) ++ byte_string (128 + (cp / 64) mod 64)
    ++ byte_string (128 + cp mod 64)
  else
    byte_string (240 + cp / 262144) ++ byte_string (128 + (cp / 4096) mod 64)
    ++ byte_string (128 + (cp / 64) mod 64) ++ byte_string (128 + cp mod 64).

Definition is_high_surrogate (u : N) : bool := ((55296 <=? u) && (u <? 56320))%N.
Definition is_low_surrogate (u : N) : bool := ((56320 <=? u) && (u <? 57344))%N.

(** What follows [\u]: one code unit, or a surrogate pair; a lone surrogate
    has no UTF-8 form and is refused. *)
Definition unicode_escape (s : string) : option (string * string) :=
  match hex4 s with
  | None => None
  | Some (u, rest) =>
      if is_high_surrogate u then
        match rest with
        | String b (String c rest1) =>
            if Ascii.eqb b BACKSLASH && Ascii.eqb c "u" then
              match hex4 rest1 with
              | Some (l, rest2) =>
                  if is_low_surrogate l
                  then Some (utf8_encode (65536 + (u - 55296) * 1024 + (l - 56320)), rest2)
                  else None
              | None => None
              end
            else None
        | _ => None
        end
      else if is_low_surrogate u then None
      else Some (utf8_encode u, rest)
  end.

Definition simple_escape (c : ascii) : option ascii :=
  if Ascii.eqb c DQUOTE then Some DQUOTE
  else if Ascii.eqb c BACKSLASH then Some BACKSLASH
  else if Ascii.eqb c "/" then Some "/"%char
  else if Ascii.eqb c "b" then Some "008"%char
  else if Ascii.eqb c "f" then Some "012"%char
  else if Ascii.eqb c "n" then Some LF
  else if Ascii.eqb c "r" then Some "013"%char
  else if Ascii.eqb c "t" then Some "009"%char
  else None.

(** The characters of a string literal after its opening quote, up to the
    closing one. *)
Fixpoint parse_chars (fuel : nat) (s : string) : option (string * string) :=
  match fuel with
  | O => None
  | S fuel' =>
      match s with
      | EmptyString => None
      | String c rest =>
          if Ascii.eqb c DQUOTE then Some (EmptyString, rest)
          else if Ascii.eqb c BACKSLASH then
            match rest with
            | EmptyString => None
            | String e rest1 =>
                if Ascii.eqb e "u" then
                  match unicode_escape rest1 with
                  | None => None
                  | Some (bytes, rest2) =>
                      match parse_chars fuel' rest2 with
                      | Some (t, rest3) => Some (bytes ++ t, rest3)
                      | None => None
                      end
                  end
                else
                  match simple_escape e with
                  | None => None
                  | Some ch =>
                      match parse_chars fuel' rest1 with
                      | Some (t, rest3) => Some (String ch t, rest3)
                      | None => None
                      end
                  end
            end
          else if (nat_of_ascii c <? 32)%nat then None
          else
            match parse_chars fuel' rest with
            | Some (t, rest3) => Some (String c t, rest3)
            | None => None
            end
      end
  end.

Fixpoint take_digits (s : string) : string * string :=
  match s with
  | String c rest =>
      if is_digit c then let (ds, r) := take_digits rest in (String c ds, r)
      else (EmptyString, s)
  | EmptyString => (EmptyString, EmptyString)
  end.

Fixpoint digits_value (acc : Z) (ds : string) : Z :=
  match ds with
  | EmptyString => acc
  | String c rest => digits_value (10 * acc + Z.of_nat (nat_of_ascii c - 48)) rest
  end.

(** A number literal: an [int] when it has neither fraction nor exponent. *)
Definition parse_number (s : string) : option (pyval * string) :=
  let (sign, s1) :=
    match s with
    | String "-" r => ("-", r)
    | _ => (EmptyString, s)
    end in
  let (ds, s2) := take_digits s1 in
  match ds with
  | EmptyString => None
  | String "0" (String _ _) => None
  | _ =>
      let frac :=
        match s2 with
        | String "." r =>
            let (fs, r') := take_digits r in
            match fs with
            | EmptyString => None
            | _ => Some ("." ++ fs, r')
            end
        | _ => Some (EmptyString, s2)
        end in
      match frac with
      | None => None
      | Some (fl, s3) =>
          let expo :=
            match s3 with
            | String c r =>
                if Ascii.eqb c "e" || Ascii.eqb c "E" then
                  let (sg, r1) :=
                    match r with
                    | String "+" r' => ("+", r')
                    | String "-" r' => ("-", r')
                    | _ => (EmptyString, r)
                    end in
                  let (es, r2) := take_digits r1 in
                  match es with
                  | EmptyString => None
                  | _ => Some (String c (sg ++ es), r2)
                  end
                else Some (EmptyString, s3)
            | EmptyString => Some (EmptyString, s3)
            end in
          match expo with
          | None => None
          | Some (el, s4) =>
              match fl, el with
              | EmptyString, EmptyString =>
                  let v := digits_value 0 ds in
                  Some (PInt (match sign with EmptyString => v | _ => - v end), s4)
              | _, _ => Some (PFloat (sign ++ ds ++ fl ++ el), s4)
              end
          end
      end
  end.

(** [s] without its prefix [p]; [None] when [s] does not start with [p]. *)
Fixpoint strip_prefix (p s : string) : option string :=
  match p with
  | EmptyString => Some s
  | String a p' =>
      match s with
      | EmptyString => None
      | String b s' => if Ascii.eqb a b then strip_prefix p' s' else None
      end
  end.

(** One JSON value at the head of [s], with what follows it. *)
Fixpoint parse_value (fuel : nat) (s : string) : option (pyval * string) :=
  match fuel with
  | O => None
  | S fuel' =>
      match skip_ws s with
      | EmptyString => None
      | String c rest =>
          if Ascii.eqb c "{" then
            match skip_ws rest with
            | String "}" r => Some (PDict [], r)
            | _ => parse_members fuel' rest []
            end
          else if Ascii.eqb c "[" then
            match skip_ws rest with
            | String "]" r => Some (PList [], r)
            | _ => parse_elements fuel' rest []
            end
          else if Ascii.eqb c DQUOTE then
            match parse_chars (String.length rest) rest with
            | Some (t, r) => Some (PStr t, r)
            | None => None
            end
          else
            match strip_prefix "true" (String c rest),
                  strip_prefix "false" (String c rest),
                  strip_prefix "null" (String c rest) with
            | Some r, _, _ => Some (PBool true, r)
            | _, Some r, _ => Some (PBool false, r)
            | _, _, Some r => Some (PNone, r)
            | None, None, None => parse_number (String c rest)
            end
      end
  end

with parse_elements (fuel : nat) (s : string) (acc : list pyval)
  : option (pyval * string) :=
  match fuel with
  | O => None
  | S fuel' =>
      match parse_value fuel' s with
      | None => None
      | Some (v, r) =>
          match skip_ws r with
          | String "," r' => parse_elements fuel' r' (v :: acc)
          | String "]" r' => Some (PList (rev (v :: acc)), r')
          | _ => None
          end
      end
  end

with parse_members (fuel : nat) (s : string) (acc : list (string * pyval))
  : option (pyval * string) :=
  match fuel with
  | O => None
  | S fuel' =>
      match skip_ws s with
      | String c rest =>
          if Ascii.eqb c DQUOTE then
            match parse_chars (String.length rest) rest with
            | None => None
            | Some (k, r) =>
                match skip_ws r with
                | String ":" r1 =>
                    match parse_value fuel' r1 with
                    | None => None
                    | Some (v, r2) =>
                        match skip_ws r2 with
                        | String "," r3 => parse_members fuel' r3 (dict_set k v acc)
                        | String "}" r3 => Some (PDict (dict_set k v acc), r3)
                        | _ => None
                        end
                    end
                | _ => None
                end
            end
          else None
      | EmptyString => None
      end
  end.

(** [json.loads(s)]; [None] stands for [JSONDecodeError]. *)
Definition json_loads (s : string) : option pyval :=
  match parse_value (2 * String.length s + 2) s with
  | Some (v, rest) =>
      match skip_ws rest with
      | EmptyString => Some v
      | String _ _ => None
      end
  | None => None
  end.

(** [requote s] is [s] with every apostrophe turned into a double quote: JSON
    texts are written with apostrophes below. *)
Fixpoint requote (s : string) : string :=
  match s with
  | EmptyString => EmptyString
  | String c rest => String (if Ascii.eqb c "'" then DQUOTE else c) (requote rest)
  end.

(* ================================================================== *)
(** * Streaming response decoder *)
(* ================================================================== *)

Record StreamFragment : Type := {
  text : string;
  is_final : bool
}.

(** Modelled from the spec: the per-line decoding of [cli.query_ollama]
    ([cli.py] is not among the sources).  A line is a fragment when it is a
    JSON object with a string [response] and a boolean [done]; any other line
    is malformed. *)
Definition parse_fragment (line : string) : option StreamFragment :=
  match json_loads line with
  | Some (PDict entries) =>
      match dict_lookup "response" entries, dict_lookup "done" entries with
      | Some (PStr t), Some (PBool d) => Some {| text := t; is_final := d |}
      | _, _ => None
      end
  | _ => None
  end.

(** Modelled from the spec: the accumulation loop of [cli.query_ollama].
    Every line is parsed; a malformed line is skipped; the [response] of a
    parsed line is appended unless a final fragment has been seen.  [parsed]
    counts the lines that parsed. *)
Fixpoint decode_lines (lines : list string) (acc : string) (parsed : nat)
         (finished : bool) : string * nat :=
  match lines with
  | [] => (acc, parsed)
  | line :: rest =>
      match parse_fragment line with
      | None => decode_lines rest acc parsed finished
      | Some f =>
          if finished then decode_lines rest acc (S parsed) true
          else decode_lines rest (acc ++ text f) (S parsed) (is_final f)
      end
  end.

(** Modelled from the spec: the decoding of a response body by
    [cli.query_ollama]: a body without a parseable line is refused with the
    response-validity error, and so is a body whose fragments carry no text:
    an empty analysis is never a valid success. *)
Definition decode_stream (E B : Type) (body : string) : result string (exception E B) :=
  match decode_lines (split_lines body) EmptyString 0 false with
  | (_, O) => Raise (OllamaResponseError "Empty response from Ollama")
  | (EmptyString, S _) => Raise (OllamaResponseError "Empty response from Ollama")
  | (analysis, S _) => Ok analysis
  end.

(** The fragments of a body, in line order. *)
Fixpoint fragments_of (lines : list string) : list StreamFragment :=
  match lines with
  | [] => []
  | line :: rest =>
      match parse_fragment line with
      | Some f => f :: fragments_of rest
      | None => fragments_of rest
      end
  end.

(** The fragments up to and including the first final one. *)
Fixpoint through_final (fs : list StreamFragment) : list StreamFragment :=
  match fs with
  | [] => []
  | f :: rest => if is_final f then [f] else f :: through_final rest
  end.

Definition concat_text (fs : list StreamFragment) : string :=
  fold_right (fun f t => text f ++ t) EmptyString fs.

(** A body of the given lines, each ended by a newline. *)
Definition body_of_lines (lines : list string) : string :=
  fold_right (fun l t => l ++ String LF t) EmptyString lines.

Fixpoint has_newline (s : string) : bool :=
  match s with
  | EmptyString => false
  | String c rest => Ascii.eqb c LF || has_newline rest
  end.

(* ================================================================== *)
(** * Dockerfile block extractor *)
(* ================================================================== *)

Definition fence : string := String BACKTICK (String BACKTICK (String BACKTICK EmptyString)).

(** The text before the first fence and the text after it. *)
Fixpoint split_at_fence (s : string) : option (string * string) :=
  match s with
  | EmptyString => None
  | String c rest =>
      match strip_prefix fence s with
      | Some after => Some (EmptyString, after)
      | None =>
          match split_at_fence rest with
          | Some (before, after) => Some (String c before, after)
          | None => None
          end
      end
  end.

Definition is_space (c : ascii) : bool :=
  Ascii.eqb c " " || Ascii.eqb c "009" || Ascii.eqb c "011"
  || Ascii.eqb c "012" || Ascii.eqb c "013".

Fixpoint is_blank (line : string) : bool :=
  match line with
  | EmptyString => true
  | String c rest => is_space c && is_blank rest
  end.

Fixpoint drop_blank (lines : list string) : list string :=
  match lines with
  | l :: rest => if is_blank l then drop_blank rest else lines
  | [] => []
  end.

(** Leading and trailing blank lines removed. *)
Definition trim_blank_lines (lines : list string) : list string :=
  rev (drop_blank (rev (drop_blank lines))).

(** Modelled from the spec: the acceptance test of
    [cli.extract_dockerfile_content]: a trimmed block is a Dockerfile when its
    first line begins with [FROM]. *)
Definition accept_block (block : list string) : option string :=
  match block with
  | [] => None
  | first :: _ =>
      if String.prefix "FROM" first then Some (join_lines block) else None
  end.

(** Modelled from the spec: [cli.extract_dockerfile_content] ([cli.py] is not
    among the sources).  The first fenced block runs from the first fence to
    the next one; what follows the opening fence on its line is the language
    label; the lines after it are the block.  The block is returned, blank
    lines trimmed, when its first line begins with [FROM]; [None] is the
    absent result. *)
Definition extract_dockerfile_content (s : string) : option string :=
  match split_at_fence s with
  | None => None
  | Some (_, opened) =>
      match split_at_fence opened with
      | None => None
      | Some (inner, _) =>
          accept_block (trim_blank_lines (tl (split_lines inner)))
      end
  end.

(* ================================================================== *)
(** * validate_ollama_connection *)
(* ================================================================== *)

(** What [client.get(url, timeout=timeout)] followed by [raise_for_status()]
    comes to, by the [except] clause that handles it. *)
Inductive request_outcome : Type :=
| RaisesConnectError (msg : string)     (* httpx.ConnectError *)
| RaisesTimeout (msg : string)          (* httpx.TimeoutException *)
| RaisesHTTPError (msg : string)        (* any other httpx.HTTPError of the GET *)
| RaisesOther (msg : string)            (* any other Exception *)
| Responds (status_error : option string).   (* raise_for_status(): HTTPStatusError *)

Section ConnectionCheck.
Variables E B : Type.
(** The transport: what a GET of [url] with [timeout] results in. *)
Variable http_request : string -> Z -> request_outcome.

Definition validate_ollama_connection (host : string) (port timeout : Z)
  : result bool (exception E B) :=
  let url := "http://" ++ host ++ ":" ++ py_str_int port ++ "/api/tags" in
  match http_request url timeout with
  | Responds None => Ok true
  | RaisesConnectError msg =>
      Raise (OllamaConnectionError
               ("Cannot connect to Ollama at " ++ host ++ ":" ++ py_str_int port
                ++ ". Is Ollama running? Error: " ++ msg))
  | RaisesTimeout msg =>
      Raise (OllamaConnectionError
               ("Connection to Ollama at " ++ host ++ ":" ++ py_str_int port
                ++ " timed out. Error: " ++ msg))
  | RaisesHTTPError msg =>
      Raise (OllamaConnectionError ("HTTP error connecting to Ollama: " ++ msg))
  | Responds (Some msg) =>
      Raise (OllamaConnectionError ("HTTP error connecting to Ollama: " ++ msg))
  | RaisesOther msg =>
      Raise (OllamaConnectionError
               ("Unexpected error validating Ollama connection: " ++ msg))
  end.

End ConnectionCheck.

(** The [except] clause of [validate_ollama_connection] an outcome ends in. *)
Inductive failure_cause : Type :=
| CauseNone
| CauseConnect
| CauseTimeout
| CauseHTTP
| CauseUnexpected.

Definition cause_of (r : request_outcome) : failure_cause :=
  match r with
  | Responds None => CauseNone
  | RaisesConnectError _ => CauseConnect
  | RaisesTimeout _ => CauseTimeout
  | RaisesHTTPError _ => CauseHTTP
  | Responds (Some _) => CauseHTTP
  | RaisesOther _ => CauseUnexpected
  end.

(** The same request as [check_model_available] sees it, [json] being what
    [response.json()] gives: [ConnectError] and [TimeoutException] are
    [HTTPError]s. *)
Definition as_exchange (r : request_outcome) (json : result pyval string)
  : http_exchange :=
  match r with
  | RaisesConnectError msg => GetRaisesHTTPError msg
  | RaisesTimeout msg => GetRaisesHTTPError msg
  | RaisesHTTPError msg => GetRaisesHTTPError msg
  | RaisesOther msg => GetRaisesException msg
  | Responds status => GotResponse status json
  end.

(* ================================================================== *)
(** * config.py: merging configuration dictionaries *)
(* ================================================================== *)

Definition py_dict : Type := list (string * pyval).

(** The dict display that unpacks [a] and then [b]: the entries of [a],
    updated with those of [b] in order. *)
Definition dict_update (a b : py_dict) : py_dict :=
  fold_left (fun acc kv => dict_set (fst kv) (snd kv) acc) b a.

(** The body of the inner loop of [merge_configs] for one item of a config. *)
Definition merge_item (acc : py_dict) (kv : string * pyval)
  : result py_dict builtin_exception :=
  let (key, value) := kv in
  match value, dict_lookup key acc with
  | PDict entries, Some (PDict old) => Ok (dict_set key (PDict (dict_update old entries)) acc)
  | PDict _, Some other =>
      Raise (TypeError ("'" ++ type_name other ++ "' object is not a mapping"))
  | _, _ => Ok (dict_set key value acc)
  end.

(** [for key, value in config.items(): ...] *)
Fixpoint merge_items (acc : py_dict) (items : py_dict)
  : result py_dict builtin_exception :=
  match items with
  | [] => Ok acc
  | kv :: rest =>
      match merge_item acc kv with
      | Raise x => Raise x
      | Ok acc' => merge_items acc' rest
      end
  end.

(** [for config in configs: ...] *)
Fixpoint merge_into (acc : py_dict) (configs : list py_dict)
  : result py_dict builtin_exception :=
  match configs with
  | [] => Ok acc
  | config :: rest =>
      match merge_items acc config with
      | Raise x => Raise x
      | Ok acc' => merge_into acc' rest
      end
  end.

(** [merge_configs], applied to the configs in order. *)
Definition merge_configs (configs : list py_dict) : result py_dict builtin_exception :=
  merge_into [] configs.

(** [merge_configs] on arguments that need not be dicts: [config.items()] of
    a value that is no dict raises AttributeError when its turn comes. *)
Definition py_items (config : pyval) : result py_dict builtin_exception :=
  match config with
  | PDict entries => Ok entries
  | other =>
      Raise (AttributeError
               ("'" ++ type_name other ++ "' object has no attribute 'items'"))
  end.

Fixpoint merge_values_into (acc : py_dict) (configs : list pyval)
  : result py_dict builtin_exception :=
  match configs with
  | nil => Ok acc
  | config :: rest =>
      match py_items config with
      | Ok items =>
          match merge_items acc items with
          | Ok acc' => merge_values_into acc' rest
          | Raise e => Raise e
          end
      | Raise e => Raise e
      end
  end.

Definition merge_config_values (configs : list pyval)
  : result py_dict builtin_exception :=
  merge_values_into nil configs.

(* ================================================================== *)
(** * Configuration from the environment ([config.py]) *)
(* ================================================================== *)

(** [str.lower] on the ASCII letters.  No other character lower-cases to a
    letter of ["true"], so the comparison with ["true"] is that of
    [str.lower]. *)
Definition lower_ascii (c : ascii) : ascii :=
  let n := nat_of_ascii c in
  if andb (Nat.leb 65 n) (Nat.leb n 90) then ascii_of_nat (n + 32) else c.

Fixpoint py_lower (s : string) : string :=
  match s with
  | EmptyString => EmptyString
  | String c rest => String (lower_ascii c) (py_lower rest)
  end.

(** [config.setdefault(section, {})[field] = v]. *)
Definition set_in_section (section field : string) (v : pyval) (config : py_dict)
  : result py_dict builtin_exception :=
  match dict_lookup section config with
  | None => Ok (dict_set section (PDict ((field, v) :: nil)) config)
  | Some (PDict d) => Ok (dict_set section (PDict (dict_set field v d)) config)
  | Some (PList _) =>
      Raise (TypeError "list indices must be integers or slices, not str")
  | Some other =>
      Raise (TypeError
               ("'" ++ type_name other ++ "' object does not support item assignment"))
  end.

(** How the value of a variable is converted. *)
Inductive env_kind : Type := AsStr | AsInt | AsFloat | AsBool.

Record env_entry : Type := {
  var_name : string;
  var_kind : env_kind;
  var_section : string;
  var_field : string
}.

(** The variables [load_env_config] reads, in the order of its statements. *)
Definition env_table : list env_entry :=
  ( Build_env_entry "OLLAMA_HOST" AsStr "ollama" "host"
  :: Build_env_entry "OLLAMA_PORT" AsInt "ollama" "port"
  :: Build_env_entry "OLLAMA_MODEL" AsStr "ollama" "model"
  :: Build_env_entry "OLLAMA_TIMEOUT" AsInt "ollama" "timeout"
  :: Build_env_entry "OLLAMA_TEMPERATURE" AsFloat "ollama" "temperature"
  :: Build_env_entry "DOCKERFILE_AI_SAVE_ANALYSIS" AsBool "output" "save_analysis"
  :: Build_env_entry "DOCKERFILE_AI_COPY_MODE" AsBool "output" "copy_mode"
  :: Build_env_entry "DOCKERFILE_AI_OUTPUT_DIR" AsStr "output" "output_dir"
  :: Build_env_entry "DOCKERFILE_AI_LOG_LEVEL" AsStr "logging" "level"
  :: Build_env_entry "DOCKERFILE_AI_LOG_FILE" AsStr "logging" "log_file"
  :: nil )%list.

Section EnvConfig.

(** The environment, and the builtins [int] and [float] on strings ([float]
    gives the literal of the number). *)
Variable getenv : string -> option string.
Variable py_int : string -> result Z builtin_exception.
Variable py_float : string -> result string builtin_exception.

(** [os.getenv(name)] when it is truthy: set, and not empty. *)
Definition env_value (name : string) : option string :=
  match getenv name with
  | Some (String c rest) => Some (String c rest)
  | _ => None
  end.

Definition convert (kind : env_kind) (s : string) : result pyval builtin_exception :=
  match kind with
  | AsStr => Ok (PStr s)
  | AsInt =>
      match py_int s with
      | Ok n => Ok (PInt n)
      | Raise x => Raise x
      end
  | AsFloat =>
      match py_float s with
      | Ok lit => Ok (PFloat lit)
      | Raise x => Raise x
      end
  | AsBool => Ok (PBool (String.eqb (py_lower s) "true"))
  end.

(** One [if os.getenv(name): ...] statement: the right-hand side is evaluated
    before the target. *)
Definition read_variable (entry : env_entry) (config : py_dict)
  : result py_dict builtin_exception :=
  match env_value (var_name entry) with
  | None => Ok config
  | Some s =>
      match convert (var_kind entry) s with
      | Ok v => set_in_section (var_section entry) (var_field entry) v config
      | Raise x => Raise x
      end
  end.

Fixpoint read_variables (entries : list env_entry) (config : py_dict)
  : result py_dict builtin_exception :=
  match entries with
  | nil => Ok config
  | entry :: rest =>
      match read_variable entry config with
      | Ok config' => read_variables rest config'
      | Raise x => Raise x
      end
  end.

Definition load_env_config : result py_dict builtin_exception :=
  read_variables env_table nil.

(** [load_configuration] up to [merged]: [file_config] is what
    [load_config_file] returned, [override or {}] is the override. *)
Definition merged_configuration (file_config : pyval) (override : option py_dict)
  : result py_dict builtin_exception :=
  match load_env_config with
  | Ok env_config =>
      let override_config :=
        match override with
        | Some o => o
        | None => nil
        end in
      merge_config_values
        (file_config :: PDict env_config :: PDict override_config :: nil)
  | Raise x => Raise x
  end.

End EnvConfig.

(* ================================================================== *)
(** * Logging ([logging.py]) *)
(* ================================================================== *)

Module Logging.

(** A [LogRecord] without exception or stack information: [message] is what
    [getMessage] gives, [asctime] what [formatTime] gives. *)
Record LogRecord : Type := {
  name : string;
  levelno : Z;
  levelname : string;
  funcName : string;
  lineno : Z;
  message : string;
  asctime : string
}.

(** The fields a format string refers to, and a format string as its
    literal parts and its fields. *)
Inductive field : Type :=
| f_asctime | f_name | f_levelname | f_funcName | f_lineno | f_message.

Inductive piece : Type :=
| Lit (text : string)
| Fld (f : field).

Definition field_text (f : field) (record : LogRecord) : string :=
  match f with
  | f_asctime => asctime record
  | f_name => name record
  | f_levelname => levelname record
  | f_funcName => funcName record
  | f_lineno => py_str_int (lineno record)
  | f_message => message record
  end.

(** [logging.Formatter.format]: the format string filled from the record. *)
Fixpoint Formatter_format (fmt : list piece) (record : LogRecord) : string :=
  match fmt with
  | nil => EmptyString
  | Lit text :: rest => text ++ Formatter_format rest record
  | Fld f :: rest => field_text f record ++ Formatter_format rest record
  end.

Definition ESC : string := String (ascii_of_nat 27) EmptyString.

Definition COLORS : list (string * string) :=
  ("DEBUG", ESC ++ "[36m")
  :: ("INFO", ESC ++ "[32m")
  :: ("WARNING", ESC ++ "[33m")
  :: ("ERROR", ESC ++ "[31m")
  :: ("CRITICAL", ESC ++ "[35m")
  :: nil.

Definition RESET : string := ESC ++ "[0m".

Fixpoint color_of (level : string) (colors : list (string * string)) : option string :=
  match colors with
  | nil => None
  | (k, c) :: rest => if String.eqb k level then Some c else color_of level rest
  end.

(** [ColoredFormatter.format]: the text, and the record as the call leaves
    it. *)
Definition ColoredFormatter_format (fmt : list piece) (record : LogRecord)
  : string * LogRecord :=
  let record' :=
    match color_of (levelname record) COLORS with
    | Some color =>
        {| name := name record;
           levelno := levelno record;
           levelname := color ++ levelname record ++ RESET;
           funcName := funcName record;
           lineno := lineno record;
           message := message record;
           asctime := asctime record |}
    | None => record
    end in
  (Formatter_format fmt record', record').

Inductive formatter : Type :=
| ColoredFormatter (fmt : list piece)
| Formatter (fmt : list piece).

Definition format (f : formatter) (record : LogRecord) : string * LogRecord :=
  match f with
  | ColoredFormatter fmt => ColoredFormatter_format fmt record
  | Formatter fmt => (Formatter_format fmt record, record)
  end.

Inductive stream : Type :=
| Stderr
| LogFile (path : string).

Record handler : Type := {
  handler_stream : stream;
  handler_level : Z;
  handler_formatter : formatter
}.

Record Logger : Type := {
  level : Z;
  handlers : list handler
}.

Definition DEBUG : Z := 10.
Definition INFO : Z := 20.

Definition console_format (verbose : bool) : list piece :=
  if verbose
  then ( Fld f_levelname :: Lit " - " :: Fld f_name :: Lit " - "
         :: Fld f_funcName :: Lit ":" :: Fld f_lineno :: Lit " - "
         :: Fld f_message :: nil )%list
  else ( Fld f_levelname :: Lit " - " :: Fld f_message :: nil )%list.

Definition file_format : list piece :=
  ( Fld f_asctime :: Lit " - " :: Fld f_name :: Lit " - " :: Fld f_levelname
    :: Lit " - " :: Fld f_funcName :: Lit ":" :: Fld f_lineno :: Lit " - "
    :: Fld f_message :: nil )%list.

(** [setup_logging]: the ["dockerfile_ai"] logger as the call leaves it,
    whatever handlers it had. *)
Definition setup_logging (log_level : Z) (log_file : option string) (verbose : bool)
  : Logger :=
  let console_handler :=
    {| handler_stream := Stderr;
       handler_level := log_level;
       handler_formatter := ColoredFormatter (console_format verbose) |} in
  {| level := DEBUG;
     handlers :=
       (console_handler
        :: match log_file with
           | Some path =>
               {| handler_stream := LogFile path;
                  handler_level := DEBUG;
                  handler_formatter := Formatter file_format |} :: nil
           | None => nil
           end)%list |}.

(** [Logger.callHandlers]: each handler whose level admits the record
    formats it and writes the line; the record is one object, shared by the
    handlers. *)
Fixpoint callHandlers (hs : list handler) (record : LogRecord)
  : list (stream * string) :=
  match hs with
  | nil => nil
  | h :: rest =>
      if (handler_level h <=? levelno record)%Z
      then let (text, record') := format (handler_formatter h) record in
           (handler_stream h, text ++ String LF EmptyString)
             :: callHandlers rest record'
      else callHandlers rest record
  end.

(** A record logged through the logger: what its handlers write, and
    where. *)
Definition handle (logger : Logger) (record : LogRecord) : list (stream * string) :=
  if (level logger <=? levelno record)%Z
  then callHandlers (handlers logger) record
  else nil.

(** [get_logger]: the name of the logger. *)
Definition get_logger (module_name : string) : string :=
  "dockerfile_ai." ++ module_name.

End Logging.

(* ================================================================== *)
(** * The MCP server: tools and prompts ([mcp_server.py]) *)
(* ================================================================== *)

(** A tool as [list_tools] describes it: its name, the properties of its
    input schema and those the schema requires. *)
Record Tool : Type := {
  tool_name : string;
  tool_properties : list string;
  tool_required : list string
}.

Definition list_tools : list Tool :=
  {| tool_name := "analyze_dockerfile";
     tool_properties := "dockerfile_path" :: "model" :: "save_results" :: nil;
     tool_required := "dockerfile_path" :: nil |}
  :: {| tool_name := "list_analyses";
        tool_properties := nil;
        tool_required := nil |}
  :: {| tool_name := "get_analysis";
        tool_properties := "file_name" :: nil;
        tool_required := "file_name" :: nil |}
  :: nil.

Section CallTool.

(** The three handlers; [R] is what a handler returns. *)
Variables E B R : Type.
Variable analyze_dockerfile_tool : pyval -> result R (exception E B).
Variable list_analyses_tool : pyval -> result R (exception E B).
Variable get_analysis_tool : pyval -> result R (exception E B).

Definition call_tool (name : string) (arguments : pyval)
  : result R (exception E B) :=
  if String.eqb name "analyze_dockerfile" then analyze_dockerfile_tool arguments
  else if String.eqb name "list_analyses" then list_analyses_tool arguments
  else if String.eqb name "get_analysis" then get_analysis_tool arguments
  else Raise (Builtin (ValueError ("Unknown tool: " ++ name))).

End CallTool.

Record PromptArgument : Type := {
  argument_name : string;
  argument_description : string;
  argument_required : bool
}.

Record Prompt : Type := {
  prompt_name : string;
  prompt_description : string;
  prompt_arguments : list PromptArgument
}.

Definition list_prompts : list Prompt :=
  {| prompt_name := "analyze-dockerfile";
     prompt_description := "Analyze a Dockerfile for security and best practices";
     prompt_arguments :=
       {| argument_name := "dockerfile_path";
          argument_description := "Path to the Dockerfile to analyze";
          argument_required := true |} :: nil |}
  :: {| prompt_name := "review-dockerfile-changes";
        prompt_description :=
          "Review changes between original and corrected Dockerfile";
        prompt_arguments :=
          {| argument_name := "original_path";
             argument_description := "Path to the original Dockerfile";
             argument_required := true |}
          :: {| argument_name := "corrected_name";
                argument_description := "Name of the corrected Dockerfile file";
                argument_required := true |}
          :: nil |}
  :: nil.

Record PromptMessage : Type := {
  message_role : string;
  message_text : string
}.

Record GetPromptResult : Type := {
  result_description : string;
  result_messages : list PromptMessage
}.

(** [arguments[key]] of a [dict[str, str]]; [None] when the key is absent. *)
Fixpoint argument_value (key : string) (arguments : list (string * string))
  : option string :=
  match arguments with
  | nil => None
  | (k, v) :: rest => if String.eqb k key then Some v else argument_value key rest
  end.

Definition NL : string := String LF EmptyString.

Definition get_prompt (name : string) (arguments : option (list (string * string)))
  : result GetPromptResult builtin_exception :=
  let given := match arguments with Some a => a | None => nil end in
  if String.eqb name "analyze-dockerfile" then
    match argument_value "dockerfile_path" given with
    | None => Raise (ValueError "dockerfile_path argument is required")
    | Some dockerfile_path =>
        Ok {| result_description :=
                "Analyze this Dockerfile for security and best practices";
              result_messages :=
                {| message_role := "user";
                   message_text :=
                     "Please analyze the Dockerfile at " ++ dockerfile_path
                       ++ " for:" ++ NL
                       ++ "1. Security vulnerabilities and best practices" ++ NL
                       ++ "2. Optimization opportunities (image size, build time)"
                       ++ NL
                       ++ "3. Docker best practices compliance" ++ NL
                       ++ "4. Potential runtime issues" ++ NL ++ NL
                       ++ "Use the analyze_dockerfile tool to perform the analysis."
                |} :: nil |}
    end
  else if String.eqb name "review-dockerfile-changes" then
    match argument_value "original_path" given,
          argument_value "corrected_name" given with
    | Some original_path, Some corrected_name =>
        Ok {| result_description :=
                "Review changes between original and corrected Dockerfile";
              result_messages :=
                {| message_role := "user";
                   message_text :=
                     "Please review the changes between:" ++ NL
                       ++ "- Original: " ++ original_path ++ NL
                       ++ "- Corrected: " ++ corrected_name ++ NL ++ NL
                       ++ "Use the get_analysis tool to retrieve the corrected Dockerfile, "
                       ++ "then compare it with the original to highlight key improvements."
                |} :: nil |}
    | _, _ =>
        Raise (ValueError "original_path and corrected_name arguments are required")
    end
  else Raise (ValueError ("Unknown prompt: " ++ name)).

(* ================================================================== *)
(** * Notions and inputs used in the statements *)
(* ================================================================== *)

Local Close Scope string_scope.
Local Open Scope nat_scope.

(** [base ** attempt] stays within the binary64 range. *)
Definition power_in_range (cfg : RetryConfig) (attempt : N) : bool :=
  match py_float_pow (exponential_base cfg) attempt with
  | Ok _ => true
  | Raise _ => false
  end.

(** Two worlds that differ only in the kind of the waits added to [base]. *)
Definition same_run (base : list wait_event) (wa ws : world) : Prop :=
  calls wa = calls ws /\ draws wa = draws ws /\ clock_reads wa = clock_reads ws /\
  exists ds, waits wa = base ++ map AsyncioSleep ds /\
             waits ws = base ++ map TimeSleep ds.

(** The operation fails on the [k] invocations that follow [w]. *)
Definition fails_next (T E B : Type) (en : env T E B) (k : nat) (w : world) : Prop :=
  forall i, (i < k)%nat -> exists e, outcomes en (calls w + i) = Raised e.

(** [time.sleep] accepts every delay the policy computes for an attempt that
    is retried, with the values the environment draws. *)
Definition waits_accepted (T E B : Type) (cfg : RetryConfig) (en : env T E B)
  : Prop :=
  forall attempt i d,
    (Z.of_N attempt < max_retries cfg)%Z ->
    get_delay cfg attempt (random_random en i) = Ok d ->
    time_sleep_in en d = Ok tt.

(** [str(e)] gives a string for every failure the operation raises. *)
Definition failures_render (T E B : Type) (en : env T E B) : Prop :=
  forall i e, outcomes en i = Raised e -> failure_str en e = None.

(** The backoff delays of the attempts [a, a+1, ..., a+k-1] can be computed. *)
Definition delays_in_range (cfg : RetryConfig) (a k : nat) : Prop :=
  forall i, (i < k)%nat -> power_in_range cfg (N.of_nat (a + i)) = true.

(** The rational a finite float denotes. *)
Definition float_value (f : float) : option Q :=
  match Prim2SF f with
  | S754_zero _ => Some 0%Q
  | S754_finite s m e =>
      let q := (inject_Z (Zpos m) * Qpower 2 e)%Q in
      Some (Qred (if s then - q else q)%Q)
  | _ => None
  end.

(** The delay the specification's formula gives, in exact arithmetic:
    [min(initial_delay * base^attempt, max_delay)]. *)
Definition formula_delay (cfg : RetryConfig) (attempt : N) : option Q :=
  match float_value (initial_delay cfg), float_value (exponential_base cfg),
        float_value (max_delay cfg) with
  | Some i, Some b, Some m => Some (Qred (Qmin (i * Qpower b (Z.of_N attempt)) m))
  | _, _, _ => None
  end.

(** [RetryConfig(jitter=False)] *)
Definition policy_no_jitter : RetryConfig :=
  {| max_retries := 3;
     initial_delay := 1%float;
     max_delay := 32%float;
     exponential_base := 2%float;
     jitter := false |}.

(** [RetryConfig(initial_delay=1e20, max_delay=1e20, jitter=False)]: a
    policy the data model admits, with a wait of more than 292 years. *)
Definition policy_long_wait : RetryConfig :=
  {| max_retries := 3;
     initial_delay := 1e20%float;
     max_delay := 1e20%float;
     exponential_base := 2%float;
     jitter := false |}.

(** [RetryConfig(initial_delay=-1.0, jitter=False)]: [__init__] checks
    nothing. *)
Definition policy_negative_wait : RetryConfig :=
  {| max_retries := 3;
     initial_delay := (-1)%float;
     max_delay := 32%float;
     exponential_base := 2%float;
     jitter := false |}.

(** [RetryConfig(exponential_base=1e200, jitter=False)] *)
Definition policy_steep : RetryConfig :=
  {| max_retries := 3;
     initial_delay := 1%float;
     max_delay := 32%float;
     exponential_base := 0x1.4e718d7d7625ap+664%float;
     jitter := false |}.

(** An operation that raises on its first [k] invocations and returns
    afterwards. *)
Definition fails_then_succeeds (k : nat) : env string string Empty_set :=
  {| func_name := Ok "fetch"%string;
     outcomes := fun i => if (i <? k)%nat then Raised "fail"%string
                          else Returned "success"%string;
     failure_str := fun _ => None;
     os_wait := fun _ => None;
     random_random := fun _ => 0%float;
     time_time := fun _ => 0%Q |}.

(** [functools.partial(fetch, url)] for a [fetch] that returns at once: a
    callable without [__name__]. *)
Definition partial_that_succeeds : env string string Empty_set :=
  {| func_name :=
       Raise "'functools.partial' object has no attribute '__name__'"%string;
     outcomes := fun _ => Returned "success"%string;
     failure_str := fun _ => None;
     os_wait := fun _ => None;
     random_random := fun _ => 0%float;
     time_time := fun _ => 0%Q |}.

(** The largest value [random.random()] returns: [1 - 2^-53]. *)
Definition largest_draw : float := 0x1.fffffffffffffp-1%float.

(** [CircuitBreaker(failure_threshold=3, recovery_timeout=60, name="ollama")] *)
Definition breaker_3_60 : CircuitBreaker := CircuitBreaker_init 3 60 "ollama".

(** The same breaker after three failures, at the times 1, 2 and 3. *)
Definition breaker_3_60_opened : CircuitBreaker :=
  record_failures [1%Q; 2%Q; 3%Q] breaker_3_60.

(** The breaker opens only with a recorded failure time and a count that has
    reached the threshold. *)
Definition breaker_invariant (cb : CircuitBreaker) : Prop :=
  is_open cb = true ->
  (exists t, last_failure_time cb = Some t)
  /\ (failure_threshold cb <= failure_count cb)%Z.

(** A listing of two registered models. *)
Definition two_models : pyval :=
  PDict [("models"%string,
          PList [PDict [("name"%string, PStr "llama3:8b");
                        ("size"%string, PInt 4661224676)];
                 PDict [("name"%string, PStr "qwen2.5-coder:7b")]])].

(** The value of [field] in the section [section] of a configuration. *)
Definition field_of (c : py_dict) (section field : string) : option pyval :=
  match dict_lookup section c with
  | Some (PDict d) => dict_lookup field d
  | _ => None
  end.

(** Every value is a section: a dict with distinct field names. *)
Definition sections_ok (c : py_dict) : Prop :=
  Forall (fun kv => exists d, snd kv = PDict d /\ NoDup (map fst d)) c.

(** A configuration as the sources produce it: distinct section names, each
    section a dict with distinct field names. *)
Definition sectioned (c : py_dict) : Prop :=
  NoDup (map fst c) /\ sections_ok c.

(** The variable [e] is the one of [section.field]. *)
Definition same_target (e : env_entry) (s f : string) : bool :=
  (String.eqb s (var_section e) && String.eqb f (var_field e))%bool.

(** The value a variable of the table gives its field: none when the variable
    is unset or empty. *)
Definition env_field (getenv : string -> option string)
           (py_int : string -> result Z builtin_exception)
           (py_float : string -> result string builtin_exception)
           (e : env_entry) : option pyval :=
  match env_value getenv (var_name e) with
  | None => None
  | Some s =>
      match convert py_int py_float (var_kind e) s with
      | Ok v => Some v
      | Raise _ => None
      end
  end.

(** [override or {}]. *)
Definition override_or_empty (override : option py_dict) : py_dict :=
  match override with
  | Some o => o
  | None => []
  end.

(** An environment that sets the port, the copy mode and an empty model; an
    [int] and a [float] for the inputs used with it. *)
Definition example_getenv (name : string) : option string :=
  if String.eqb name "OLLAMA_PORT" then Some "8080"%string
  else if String.eqb name "DOCKERFILE_AI_COPY_MODE" then Some "True"%string
  else if String.eqb name "OLLAMA_MODEL" then Some EmptyString
  else None.

Definition example_int (s : string) : result Z builtin_exception :=
  if String.eqb s "8080" then Ok 8080%Z
  else Raise (ValueError ("invalid literal for int() with base 10: '" ++ s ++ "'")).

Definition example_float (s : string) : result string builtin_exception :=
  if String.eqb s "0.5" then Ok "0.5"%string
  else Raise (ValueError ("could not convert string to float: '" ++ s ++ "'")).

(** What [load_env_config] gives in [example_getenv]. *)
Definition example_env_config : py_dict :=
  [("ollama"%string, PDict [("port"%string, PInt 8080)]);
   ("output"%string, PDict [("copy_mode"%string, PBool true)])].

(** An environment whose port is not a number. *)
Definition bad_port_getenv (name : string) : option string :=
  if String.eqb name "OLLAMA_PORT" then Some "http"%string else None.

(** The value the last configuration that sets [section.field] gives it. *)
Definition last_field (cs : list py_dict) (section field : string) : option pyval :=
  fold_left (fun found c =>
               match field_of c section field with
               | Some v => Some v
               | None => found
               end) cs None.

Definition is_dict (v : pyval) : bool :=
  match v with PDict _ => true | _ => false end.

(** A file configuration, an environment configuration and an empty
    override. *)
Definition example_configs : list py_dict :=
  [ [("ollama"%string,
      PDict [("host"%string, PStr "filehost"); ("port"%string, PInt 11434)])];
    [("ollama"%string, PDict [("host"%string, PStr "envhost")])];
    [] ].

(** The record with its level name replaced. *)
Definition with_levelname (record : Logging.LogRecord) (text : string)
  : Logging.LogRecord :=
  {| Logging.name := Logging.name record;
     Logging.levelno := Logging.levelno record;
     Logging.levelname := text;
     Logging.funcName := Logging.funcName record;
     Logging.lineno := Logging.lineno record;
     Logging.message := Logging.message record;
     Logging.asctime := Logging.asctime record |}.

(** A line of the log file for [record], with [shown] as its level name. *)
Definition file_line (record : Logging.LogRecord) (shown : string) : string :=
  (Logging.asctime record ++ " - " ++ Logging.name record ++ " - " ++ shown
     ++ " - " ++ Logging.funcName record ++ ":"
     ++ py_str_int (Logging.lineno record) ++ " - " ++ Logging.message record
     ++ String LF EmptyString)%string.

(** The level name as [ColoredFormatter] leaves it. *)
Definition coloured (color shown : string) : string :=
  (color ++ shown ++ Logging.RESET)%string.

(** A warning of the retry loop. *)
Definition example_record : Logging.LogRecord :=
  {| Logging.name := "dockerfile_ai.resilience";
     Logging.levelno := 30;
     Logging.levelname := "WARNING";
     Logging.funcName := "retry_async";
     Logging.lineno := 98;
     Logging.message := "Attempt 1 failed";
     Logging.asctime := "2024-01-01 00:00:00,000" |}.

(** [arguments] when it is given, else no argument. *)
Definition given_arguments (arguments : option (list (string * string)))
  : list (string * string) :=
  match arguments with
  | Some a => a
  | None => []
  end.

(** Every argument the prompt's description marks as required is given. *)
Definition required_present (p : Prompt) (given : list (string * string)) : Prop :=
  forall a,
    In a (prompt_arguments p) -> argument_required a = true ->
    argument_value (argument_name a) given <> None.

(** An operation that is cancelled: its invocation ends in a
    [BaseException] that is no [Exception]. *)
Definition cancelled_operation : env string string string :=
  {| func_name := Ok "fetch"%string;
     outcomes := fun _ => Escaped "CancelledError"%string;
     failure_str := fun _ => None;
     os_wait := fun _ => None;
     random_random := fun _ => 0%float;
     time_time := fun _ => 0%Q |}.

(** An operation that keeps failing, on a clock that shows 100. *)
Definition fails_at_100 : env string string Empty_set :=
  {| func_name := Ok "fetch"%string;
     outcomes := fun _ => Raised "fail"%string;
     failure_str := fun _ => None;
     os_wait := fun _ => None;
     random_random := fun _ => 0%float;
     time_time := fun _ => 100%Q |}.

(** The two-line body of the specification's example. *)
Definition example_body : string :=
  (requote "{'response':'a','done':false}" ++ String LF
     (requote "{'response':'b','done':true}" ++ String LF EmptyString))%string.

(** [pre] is the text before the first fence of [s], [rest] the text after
    that fence. *)
Definition first_fence (s pre rest : string) : Prop :=
  s = (pre ++ fence ++ rest)%string
  /\ forall pre' rest',
      s = (pre' ++ fence ++ rest')%string ->
      String.length pre <= String.length pre'.

Definition no_fence (s : string) : Prop :=
  forall pre rest, s <> (pre ++ fence ++ rest)%string.

(** Lines, each begun by a newline: what can follow a block. *)
Definition lines_after (lines : list string) : string :=
  fold_right (fun l t => String LF (l ++ t)%string) EmptyString lines.

(** [d] is [content] without blank lines before it and after it. *)
Definition trimmed_of (content d : string) : Prop :=
  exists before after,
    Forall (fun l => is_blank l = true) before
    /\ Forall (fun l => is_blank l = true) after
    /\ content = (body_of_lines before ++ d ++ lines_after after)%string.

(** [l] is the first line of [d]; [l] is the last line of [d]. *)
Definition first_line (d l : string) : Prop :=
  has_newline l = false
  /\ (d = l \/ exists rest, d = (l ++ String LF rest)%string).

Definition last_line (d l : string) : Prop :=
  has_newline l = false
  /\ (d = l \/ exists front, d = (front ++ String LF l)%string).

(** Every character is white space or a newline. *)
Fixpoint blank_text (s : string) : bool :=
  match s with
  | EmptyString => true
  | String c rest => (is_space c || Ascii.eqb c LF) && blank_text rest
  end.

(** An analysis with a fenced Dockerfile. *)
Definition analysis_with_dockerfile : string :=
  ("# Analysis" ++ NL ++ NL
     ++ fence ++ "dockerfile" ++ NL
     ++ NL
     ++ "FROM python:3.9-slim" ++ NL
     ++ "WORKDIR /app" ++ NL
     ++ NL
     ++ fence ++ NL
     ++ "This is much better!" ++ NL)%string.

(** An analysis whose fenced block is not a Dockerfile. *)
Definition analysis_without_from : string :=
  (fence ++ "dockerfile" ++ NL
     ++ "RUN apt-get update" ++ NL
     ++ "WORKDIR /app" ++ NL
     ++ fence ++ NL)%string.

(** A block whose opening fence, content and closing fence stand on one
    line. *)
Definition analysis_on_one_line : string :=
  (fence ++ "FROM alpine" ++ fence)%string.

(** A block without a label, whose content stands between lines of spaces
    and tabs. *)
Definition analysis_with_spaces : string :=
  (fence ++ NL
     ++ "  " ++ NL
     ++ "FROM alpine" ++ NL
     ++ "RUN true  " ++ NL
     ++ String "009" " " ++ NL
     ++ fence)%string.

(** A block that is opened and never closed. *)
Definition analysis_never_closed : string :=
  (fence ++ "dockerfile" ++ NL ++ "FROM alpine" ++ NL)%string.

(* ================================================================== *)
(** * Facts: the retry executors *)
(* ================================================================== *)

Lemma get_delay_in_range (cfg : RetryConfig) (attempt : N) (rnd : float) :
  power_in_range cfg attempt = true ->
  exists d, get_delay cfg attempt rnd = Ok d.
Proof.
  unfold power_in_range, get_delay.
  destruct (py_float_pow (exponential_base cfg) attempt) as [p|x]; [|discriminate].
  intros _. destruct (jitter cfg); eauto.
Qed.

Section RetryFacts.
Variables T E B : Type.
Variable cfg : RetryConfig.
Variable en : env T E B.

Lemma same_run_refl (w : world) : same_run (waits w) w w.
Proof.
  repeat split. exists []. simpl. now rewrite app_nil_r.
Qed.

Lemma try_body_agree (base : list wait_event) (wa ws : world) :
  same_run base wa ws ->
  fst (try_body en wa) = fst (try_body en ws)
  /\ same_run base (snd (try_body en wa)) (snd (try_body en ws)).
Proof.
  intros (Hc & Hd & Hk & ds & Ha & Hs). unfold try_body.
  destruct (func_name en) as [nm|msg]; simpl.
  - rewrite <- Hc. destruct (outcomes en (calls wa)); simpl;
      (split; [reflexivity|]); repeat split; simpl; auto; now exists ds.
  - split; [reflexivity|]. repeat split; auto. now exists ds.
Qed.

(** Where [time.sleep] accepts the delays, the two loops go the same way. *)
Lemma retry_loops_agree (base : list wait_event) (attempts : list N) :
  waits_accepted cfg en ->
  forall last wa ws,
    same_run base wa ws ->
    fst (retry_async_loop cfg en attempts last wa)
    = fst (retry_sync_loop cfg en attempts last ws)
    /\ same_run base (snd (retry_async_loop cfg en attempts last wa))
                     (snd (retry_sync_loop cfg en attempts last ws)).
Proof.
  intros Hacc.
  induction attempts as [|attempt rest IH]; intros last wa ws Hrun.
  - simpl. auto.
  - cbn [retry_async_loop retry_sync_loop].
    destruct (try_body_agree Hrun) as [Hres Hrun1].
    destruct (try_body en wa) as [ra wa1], (try_body en ws) as [rs ws1].
    simpl in Hres, Hrun1. subst rs.
    destruct ra as [v|x|b]; [simpl; auto| |simpl; auto].
    destruct (Z.of_N attempt <? max_retries cfg)%Z eqn:Hlt.
    + apply Z.ltb_lt in Hlt.
      destruct Hrun1 as (Hc & Hd & Hk & ds & Ha & Hs).
      unfold get_delay_in. rewrite <- Hd.
      destruct (get_delay cfg attempt (random_random en (draws wa1)))
        as [d|y] eqn:Hdelay.
      * destruct (str_raises en x) as [z|].
        -- simpl. split; [reflexivity|].
           destruct (jitter cfg); repeat split; simpl; auto; now exists ds.
        -- rewrite (Hacc attempt _ d Hlt Hdelay). cbn [asyncio_sleep].
           apply IH.
           destruct (jitter cfg); repeat split; simpl; auto;
             exists (ds ++ [d]); rewrite !map_app, !app_assoc; simpl;
             now rewrite Ha, Hs.
      * simpl. split; [reflexivity|]. repeat split; auto. now exists ds.
    + destruct (func_name en) as [nm|msg]; [now apply IH|simpl; auto].
Qed.

Hypothesis renders : failures_render en.

Hypothesis named : exists nm, func_name en = Ok nm.

Lemma try_body_named (w : world) :
  try_body en w
  = (match outcomes en (calls w) with
     | Returned v => TryReturn v
     | Raised e => TryCaught (OperationFailure e)
     | Escaped b => TryEscaped b
     end, snd (invoke en w)).
Proof.
  destruct named as [nm Hnm]. unfold try_body. rewrite Hnm. simpl.
  now destruct (outcomes en (calls w)).
Qed.

Lemma retry_async_loop_success (v : T) :
  forall k a len last w,
    (k < len)%nat ->
    (Z.of_nat (a + k) <= max_retries cfg)%Z ->
    fails_next en k w ->
    outcomes en (calls w + k) = Returned v ->
    delays_in_range cfg a k ->
    exists w',
      retry_async_loop cfg en (map N.of_nat (seq a len)) last w = (Ok v, w')
      /\ calls w' = (calls w + S k)%nat
      /\ List.length (waits w') = (List.length (waits w) + k)%nat.
Proof.
  induction k as [|k IH]; intros a len last w Hlen Hmax Hfail Hok Hdel.
  - destruct len as [|len]; [lia|]. simpl. rewrite try_body_named.
    rewrite Nat.add_0_r in Hok. rewrite Hok.
    eexists; split; [reflexivity|]. simpl. split; lia.
  - destruct len as [|len]; [lia|]. simpl. rewrite try_body_named.
    destruct (Hfail 0%nat) as [e He]; [lia|].
    rewrite Nat.add_0_r in He. rewrite He.
    replace (Z.of_N (N.of_nat a) <? max_retries cfg)%Z with true
      by (symmetry; apply Z.ltb_lt; lia).
    unfold get_delay_in.
    destruct (get_delay_in_range cfg (N.of_nat a) (random_random en (draws w)))
      as [d Hd].
    { specialize (Hdel 0%nat). rewrite Nat.add_0_r in Hdel. apply Hdel. lia. }
    simpl. rewrite Hd. cbn [str_raises asyncio_sleep].
    rewrite (renders _ He).
    match goal with
    | |- context [retry_async_loop cfg en _ (Some ?x) ?w2] =>
        destruct (IH (S a) len (Some x) w2) as (w' & Hrun & Hcalls & Hwaits)
    end.
    + lia.
    + lia.
    + intros i Hi. destruct (Hfail (S i)) as [e' He']; [lia|].
      exists e'. rewrite <- He'. f_equal.
      destruct (jitter cfg); simpl; lia.
    + rewrite <- Hok. f_equal. destruct (jitter cfg); simpl; lia.
    + intros i Hi. specialize (Hdel (S i)).
      replace (S a + i)%nat with (a + S i)%nat by lia. apply Hdel. lia.
    + exists w'. split; [exact Hrun|].
      revert Hcalls Hwaits. destruct (jitter cfg); simpl;
        rewrite ?length_app; simpl; lia.
Qed.

Lemma retry_async_loop_exhausted :
  forall m a last w,
    Z.of_nat (a + m) = max_retries cfg ->
    fails_next en (S m) w ->
    delays_in_range cfg a m ->
    exists e w',
      outcomes en (calls w + m) = Raised e
      /\ retry_async_loop cfg en (map N.of_nat (seq a (S m))) last w
         = (Raise (OperationFailure e), w')
      /\ calls w' = (calls w + S m)%nat
      /\ List.length (waits w') = (List.length (waits w) + m)%nat.
Proof.
  induction m as [|m IH]; intros a last w Hmax Hfail Hdel.
  - destruct (Hfail 0%nat) as [e He]; [lia|].
    exists e. simpl. rewrite try_body_named.
    rewrite Nat.add_0_r in He. rewrite Nat.add_0_r, He.
    replace (Z.of_N (N.of_nat a) <? max_retries cfg)%Z with false
      by (symmetry; apply Z.ltb_ge; lia).
    destruct named as [nm ->].
    eexists; repeat split; simpl; lia.
  - destruct (Hfail 0%nat) as [e0 He0]; [lia|].
    rewrite Nat.add_0_r in He0.
    change (seq a (S (S m))) with (a :: seq (S a) (S m)).
    rewrite map_cons.
    remember (map N.of_nat (seq (S a) (S m))) as rest eqn:Hrest.
    simpl. rewrite try_body_named, He0.
    replace (Z.of_N (N.of_nat a) <? max_retries cfg)%Z with true
      by (symmetry; apply Z.ltb_lt; lia).
    unfold get_delay_in.
    destruct (get_delay_in_range cfg (N.of_nat a) (random_random en (draws w)))
      as [d Hd].
    { specialize (Hdel 0%nat). rewrite Nat.add_0_r in Hdel. apply Hdel. lia. }
    simpl. rewrite Hd. subst rest. cbn [str_raises asyncio_sleep].
    rewrite (renders _ He0).
    match goal with
    | |- context [retry_async_loop cfg en _ (Some ?x) ?w2] =>
        destruct (IH (S a) (Some x) w2) as (e & w' & He & Hrun & Hcalls & Hwaits)
    end.
    + lia.
    + intros i Hi. destruct (Hfail (S i)) as [e' He']; [lia|].
      exists e'. rewrite <- He'. f_equal.
      destruct (jitter cfg); simpl; lia.
    + intros i Hi. specialize (Hdel (S i)).
      replace (S a + i)%nat with (a + S i)%nat by lia. apply Hdel. lia.
    + exists e, w'. split; [|split; [exact Hrun|]].
      * rewrite <- He. f_equal. destruct (jitter cfg); simpl; lia.
      * revert Hcalls Hwaits. destruct (jitter cfg); simpl;
          rewrite ?length_app; simpl; lia.
Qed.

End RetryFacts.

Lemma py_range_succ (n : nat) :
  py_range (Z.of_nat n + 1) = map N.of_nat (seq 0 (S n)).
Proof.
  unfold py_range. now replace (Z.to_nat (Z.of_nat n + 1)) with (S n) by lia.
Qed.

Lemma retry_sync_as_async (T E B : Type) (cfg : RetryConfig) (en : env T E B)
      (w : world) (r : result T (exception E B)) (wa : world) :
  waits_accepted cfg en ->
  retry_async cfg en w = (r, wa) ->
  exists ws, retry_sync cfg en w = (r, ws)
             /\ calls ws = calls wa
             /\ List.length (waits ws) = List.length (waits wa).
Proof.
  intros Hacc Ha. unfold retry_async, retry_sync in *.
  destruct (@retry_loops_agree T E B cfg en (waits w)
              (py_range (max_retries cfg + 1)) Hacc None w w
              (same_run_refl w)) as [Hres Hrun].
  rewrite Ha in Hres, Hrun. simpl in Hres, Hrun.
  destruct (retry_sync_loop cfg en (py_range (max_retries cfg + 1)) None w)
    as [rs ws]. simpl in *.
  exists ws. subst rs. split; [reflexivity|].
  destruct Hrun as (Hc & _ & _ & ds & Hwa & Hws).
  split; [congruence|].
  rewrite Hwa, Hws, !length_app, !length_map. reflexivity.
Qed.

(** X1. For an operation that has a [__name__] and whose failures render
    with [str], and a policy with [max_retries = n >= 0] whose backoff delays
    can be computed (no power of the base leaves the float range on the
    attempts that back off) and are delays [time.sleep] accepts (not
    negative, not NaN, within 64-bit nanoseconds): an operation that fails
    [k <= n] times and then succeeds makes [retry_async] and [retry_sync]
    return that value after exactly [k+1] invocations and [k] waits; an
    operation that fails [n+1] times makes both raise the failure of the last
    invocation after exactly [n+1] invocations. *)
Theorem retry_contract_in_range (T E B : Type) (cfg : RetryConfig)
        (en : env T E B) (w : world) (n : nat) (nm : string) :
  func_name en = Ok nm ->
  max_retries cfg = Z.of_nat n ->
  failures_render en ->
  waits_accepted cfg en ->
  (forall k v,
      k <= n ->
      fails_next en k w ->
      outcomes en (calls w + k) = Returned v ->
      delays_in_range cfg 0 k ->
      (exists wa, retry_async cfg en w = (Ok v, wa)
                  /\ calls wa = calls w + S k
                  /\ List.length (waits wa) = List.length (waits w) + k)
      /\ (exists ws, retry_sync cfg en w = (Ok v, ws)
                     /\ calls ws = calls w + S k
                     /\ List.length (waits ws) = List.length (waits w) + k))
  /\ (fails_next en (S n) w ->
      delays_in_range cfg 0 n ->
      exists e,
        outcomes en (calls w + n) = Raised e
        /\ (exists wa, retry_async cfg en w = (Raise (OperationFailure e), wa)
                       /\ calls wa = calls w + S n)
        /\ (exists ws, retry_sync cfg en w = (Raise (OperationFailure e), ws)
                       /\ calls ws = calls w + S n)).
Proof.
  intros Hnm Hn Hstr Hacc.
  assert (Hnamed : exists nm, func_name en = Ok nm) by eauto.
  split.
  - intros k v Hk Hfail Hok Hdel.
    destruct (@retry_async_loop_success T E B cfg en Hstr Hnamed v k 0 (S n)
                None w)
      as (wa & Hrun & Hcalls & Hwaits); try assumption; try lia.
    assert (Ha : retry_async cfg en w = (Ok v, wa)).
    { unfold retry_async. rewrite Hn, py_range_succ. exact Hrun. }
    split.
    + exists wa. auto.
    + destruct (@retry_sync_as_async T E B cfg en w _ _ Hacc Ha)
        as (ws & Hs & Hc & Hl).
      exists ws. repeat split; [exact Hs|congruence|congruence].
  - intros Hfail Hdel.
    destruct (@retry_async_loop_exhausted T E B cfg en Hstr Hnamed n 0 None w)
      as (e & wa & He & Hrun & Hcalls & _); try assumption; try lia.
    assert (Ha : retry_async cfg en w = (Raise (OperationFailure e), wa)).
    { unfold retry_async. rewrite Hn, py_range_succ. exact Hrun. }
    exists e. split; [exact He|]. split.
    + exists wa. auto.
    + destruct (@retry_sync_as_async T E B cfg en w _ _ Hacc Ha)
        as (ws & Hs & Hc & _).
      exists ws. split; [exact Hs|congruence].
Qed.

(** The delays of [policy_no_jitter] for its three retried attempts are 1, 2
    and 4 seconds. *)
Lemma policy_no_jitter_waits_accepted (T E B : Type) (en : env T E B) :
  (forall d, os_wait en d = None) ->
  waits_accepted policy_no_jitter en.
Proof.
  intros Hos attempt i d Hlt Hd. unfold time_sleep_in. rewrite Hos.
  assert (Hcases : attempt = 0%N \/ attempt = 1%N \/ attempt = 2%N)
    by (simpl in Hlt; lia).
  destruct Hcases as [-> | [-> | ->]]; vm_compute in Hd;
    injection Hd as <-; vm_compute; reflexivity.
Qed.

Lemma retry_contract_in_range_witness :
  (exists wa,
      retry_async policy_no_jitter (fails_then_succeeds 2) world0
      = (Ok "success"%string, wa)
      /\ calls wa = 3 /\ List.length (waits wa) = 2)
  /\ (exists ws,
         retry_sync policy_no_jitter (fails_then_succeeds 2) world0
         = (Ok "success"%string, ws)
         /\ calls ws = 3 /\ List.length (waits ws) = 2)
  /\ exists e,
      e = "fail"%string
      /\ (exists wa,
             retry_async policy_no_jitter (fails_then_succeeds 9) world0
             = (Raise (OperationFailure e), wa) /\ calls wa = 4)
      /\ (exists ws,
             retry_sync policy_no_jitter (fails_then_succeeds 9) world0
             = (Raise (OperationFailure e), ws) /\ calls ws = 4).
Proof.
  assert (Hdel : forall k, k <= 3 -> delays_in_range policy_no_jitter 0 k).
  { intros k Hk i Hi.
    destruct i as [|[|[|i]]]; [reflexivity|reflexivity|reflexivity|lia]. }
  assert (Hstr : forall k, failures_render (fails_then_succeeds k))
    by (intros k i e _; reflexivity).
  split; [|split].
  - destruct (@retry_contract_in_range string string Empty_set policy_no_jitter
                (fails_then_succeeds 2) world0 3 "fetch"%string eq_refl eq_refl
                (Hstr 2)
                (@policy_no_jitter_waits_accepted _ _ _ (fails_then_succeeds 2)
                   (fun _ => eq_refl)))
      as [Hs _].
    apply (Hs 2 "success"%string); [lia| |reflexivity|apply Hdel; lia].
    intros i Hi. destruct i as [|[|i]]; [eexists; reflexivity ..|lia].
  - destruct (@retry_contract_in_range string string Empty_set policy_no_jitter
                (fails_then_succeeds 2) world0 3 "fetch"%string eq_refl eq_refl
                (Hstr 2)
                (@policy_no_jitter_waits_accepted _ _ _ (fails_then_succeeds 2)
                   (fun _ => eq_refl)))
      as [Hs _].
    apply (Hs 2 "success"%string); [lia| |reflexivity|apply Hdel; lia].
    intros i Hi. destruct i as [|[|i]]; [eexists; reflexivity ..|lia].
  - destruct (@retry_contract_in_range string string Empty_set policy_no_jitter
                (fails_then_succeeds 9) world0 3 "fetch"%string eq_refl eq_refl
                (Hstr 9)
                (@policy_no_jitter_waits_accepted _ _ _ (fails_then_succeeds 9)
                   (fun _ => eq_refl)))
      as [_ Hx].
    destruct Hx as (e & He & Ha & Hs).
    + intros i Hi. destruct i as [|[|[|[|i]]]]; [eexists; reflexivity ..|lia].
    + apply Hdel. lia.
    + exists e. split; [|split; assumption].
      simpl in He. now injection He as <-.
Defined.

Lemma retry_async_loop_unnamed (T E B : Type) (cfg : RetryConfig)
      (en : env T E B) (msg : string) :
  func_name en = Raise msg ->
  forall m a last w,
    Z.of_nat (a + m) = max_retries cfg ->
    delays_in_range cfg a m ->
    exists w',
      retry_async_loop cfg en (map N.of_nat (seq a (S m))) last w
      = (Raise (Builtin (AttributeError msg)), w')
      /\ calls w' = calls w
      /\ List.length (waits w') = List.length (waits w) + m.
Proof.
  intros Hname. induction m as [|m IH]; intros a last w Hmax Hdel.
  - simpl. unfold try_body. rewrite Hname.
    replace (Z.of_N (N.of_nat a) <? max_retries cfg)%Z with false
      by (symmetry; apply Z.ltb_ge; lia).
    eexists; repeat split; simpl; lia.
  - change (seq a (S (S m))) with (a :: seq (S a) (S m)).
    rewrite map_cons.
    remember (map N.of_nat (seq (S a) (S m))) as rest eqn:Hrest.
    simpl. unfold try_body. rewrite Hname.
    replace (Z.of_N (N.of_nat a) <? max_retries cfg)%Z with true
      by (symmetry; apply Z.ltb_lt; lia).
    unfold get_delay_in.
    destruct (get_delay_in_range cfg (N.of_nat a) (random_random en (draws w)))
      as [d Hd].
    { specialize (Hdel 0). rewrite Nat.add_0_r in Hdel. apply Hdel. lia. }
    rewrite Hd. subst rest. cbn [str_raises asyncio_sleep].
    match goal with
    | |- context [retry_async_loop cfg en _ (Some ?x) ?w2] =>
        destruct (IH (S a) (Some x) w2) as (w' & Hrun & Hcalls & Hwaits)
    end.
    + lia.
    + intros i Hi. specialize (Hdel (S i)).
      replace (S a + i) with (a + S i) by lia. apply Hdel. lia.
    + exists w'. split; [exact Hrun|].
      revert Hcalls Hwaits. destruct (jitter cfg); simpl;
        rewrite ?length_app; simpl; lia.
Qed.

(** X4. An operation without [__name__] (a [functools.partial], an instance
    of a class with [__call__]) is never invoked: with [max_retries = n >= 0]
    and delays that can be computed and that [time.sleep] accepts,
    [retry_async] and [retry_sync] wait [n] times and raise the
    [AttributeError] of [func.__name__], whatever the operation would
    return. *)
Theorem retry_never_invokes_unnamed (T E B : Type) (cfg : RetryConfig)
        (en : env T E B) (w : world) (n : nat) (msg : string) :
  func_name en = Raise msg ->
  max_retries cfg = Z.of_nat n ->
  delays_in_range cfg 0 n ->
  waits_accepted cfg en ->
  (exists wa,
      retry_async cfg en w = (Raise (Builtin (AttributeError msg)), wa)
      /\ calls wa = calls w
      /\ List.length (waits wa) = List.length (waits w) + n)
  /\ (exists ws,
         retry_sync cfg en w = (Raise (Builtin (AttributeError msg)), ws)
         /\ calls ws = calls w
         /\ List.length (waits ws) = List.length (waits w) + n).
Proof.
  intros Hname Hn Hdel Hacc.
  destruct (@retry_async_loop_unnamed T E B cfg en msg Hname n 0 None w)
    as (wa & Hrun & Hcalls & Hwaits); [lia|exact Hdel|].
  assert (Ha : retry_async cfg en w = (Raise (Builtin (AttributeError msg)), wa)).
  { unfold retry_async. rewrite Hn, py_range_succ. exact Hrun. }
  split.
  - exists wa. auto.
  - destruct (@retry_sync_as_async T E B cfg en w _ _ Hacc Ha)
      as (ws & Hs & Hc & Hl).
    exists ws. repeat split; [exact Hs|congruence|congruence].
Qed.

Lemma retry_never_invokes_unnamed_witness :
  exists ws,
    retry_sync policy_no_jitter partial_that_succeeds world0
    = (Raise (Builtin (AttributeError
                         "'functools.partial' object has no attribute '__name__'")),
       ws)
    /\ calls ws = 0
    /\ List.length (waits ws) = 3.
Proof.
  apply (@retry_never_invokes_unnamed string string Empty_set policy_no_jitter
           partial_that_succeeds world0 3
           "'functools.partial' object has no attribute '__name__'"%string
           eq_refl eq_refl).
  - intros i Hi.
    destruct i as [|[|[|i]]]; [reflexivity|reflexivity|reflexivity|lia].
  - apply policy_no_jitter_waits_accepted. reflexivity.
Defined.

(** C8, as the claim states it, fails: the two executors do not treat every
    policy alike, because [time.sleep] refuses delays that [asyncio.sleep]
    takes.  With [initial_delay = max_delay = 1e20] and an operation that
    fails once, [retry_async] waits and returns the value of the second
    invocation, [retry_sync] raises [OverflowError] after the first; with
    [initial_delay = -1], which [__init__] accepts, [retry_sync] raises
    [ValueError] where [retry_async] returns the value. *)
Lemma retry_sync_async_differ :
  retry_async policy_long_wait (fails_then_succeeds 1) world0
  = (Ok "success"%string,
     {| calls := 2; draws := 0; clock_reads := 0;
        waits := [AsyncioSleep 1e20%float] |})
  /\ retry_sync policy_long_wait (fails_then_succeeds 1) world0
     = (Raise (Builtin (OverflowError
                          "timestamp too large to convert to C _PyTime_t")),
        {| calls := 1; draws := 0; clock_reads := 0; waits := [] |})
  /\ retry_async policy_negative_wait (fails_then_succeeds 1) world0
     = (Ok "success"%string,
        {| calls := 2; draws := 0; clock_reads := 0;
           waits := [AsyncioSleep (-1)%float] |})
  /\ retry_sync policy_negative_wait (fails_then_succeeds 1) world0
     = (Raise (Builtin (ValueError "sleep length must be non-negative")),
        {| calls := 1; draws := 0; clock_reads := 0; waits := [] |})
  /\ ~ (fst (retry_async policy_long_wait (fails_then_succeeds 1) world0)
        = fst (retry_sync policy_long_wait (fails_then_succeeds 1) world0)
        /\ calls (snd (retry_async policy_long_wait (fails_then_succeeds 1) world0))
           = calls (snd (retry_sync policy_long_wait (fails_then_succeeds 1) world0))).
Proof.
  split; [|split; [|split; [|split]]]; try (vm_compute; reflexivity).
  intros [H _]. vm_compute in H. discriminate H.
Qed.

(** C8, amended.  For a policy whose backoff delays [time.sleep] accepts,
    [retry_sync] and [retry_async] have the same retry semantics: run in the
    same world against the same outcomes and random draws they give the same
    result (value returned or exception raised), invoke the operation the
    same number of times, draw the same number of random values, and wait for
    the same delays in the same order; only the kind of wait differs. *)
Theorem retry_sync_async_same_semantics (T E B : Type) (cfg : RetryConfig)
        (en : env T E B) (w : world) :
  waits_accepted cfg en ->
  fst (retry_async cfg en w) = fst (retry_sync cfg en w)
  /\ calls (snd (retry_async cfg en w)) = calls (snd (retry_sync cfg en w))
  /\ draws (snd (retry_async cfg en w)) = draws (snd (retry_sync cfg en w))
  /\ exists delays,
      waits (snd (retry_async cfg en w)) = (waits w ++ map AsyncioSleep delays)%list
      /\ waits (snd (retry_sync cfg en w)) = (waits w ++ map TimeSleep delays)%list.
Proof.
  intros Hacc. unfold retry_async, retry_sync.
  destruct (@retry_loops_agree T E B cfg en (waits w)
              (py_range (max_retries cfg + 1)) Hacc None w w
              (same_run_refl w)) as [Hres (Hc & Hd & _ & ds & Ha & Hs)].
  repeat split; try assumption. now exists ds.
Qed.

Lemma retry_sync_async_same_semantics_witness :
  fst (retry_async policy_no_jitter (fails_then_succeeds 2) world0)
  = fst (retry_sync policy_no_jitter (fails_then_succeeds 2) world0)
  /\ calls (snd (retry_async policy_no_jitter (fails_then_succeeds 2) world0))
     = calls (snd (retry_sync policy_no_jitter (fails_then_succeeds 2) world0)).
Proof.
  destruct (@retry_sync_async_same_semantics
              string string Empty_set policy_no_jitter (fails_then_succeeds 2)
              world0
              (@policy_no_jitter_waits_accepted _ _ _ (fails_then_succeeds 2)
                 (fun _ => eq_refl)))
    as (Hres & Hcalls & _).
  split; [exact Hres|exact Hcalls].
Defined.

(** C1. Two runs in which the executors do not return the value of the
    first successful invocation.
    - The operation is a [functools.partial], which has no [__name__]: the
      log message of each attempt fails before the operation is invoked, and
      with the default policy both executors raise [AttributeError] after
      three waits without a single invocation, although the first invocation
      would succeed.
    - The delay computation overflows: with [exponential_base = 1e200] and
      [max_retries = 3], an operation that fails three times and would
      succeed on its fourth invocation is invoked three times only, and both
      executors raise [OverflowError]. *)
Theorem retry_misses_the_success :
  fst (retry_sync RetryConfig_default partial_that_succeeds world0)
  = Raise (Builtin (AttributeError
                      "'functools.partial' object has no attribute '__name__'"))
  /\ calls (snd (retry_sync RetryConfig_default partial_that_succeeds world0)) = 0
  /\ fst (retry_async RetryConfig_default partial_that_succeeds world0)
     = Raise (Builtin (AttributeError
                         "'functools.partial' object has no attribute '__name__'"))
  /\ calls (snd (retry_async RetryConfig_default partial_that_succeeds world0)) = 0
  /\ retry_sync policy_steep (fails_then_succeeds 3) world0
     = (Raise (Builtin (OverflowError range_error)),
        {| calls := 3; draws := 0; clock_reads := 0;
           waits := [TimeSleep 1%float; TimeSleep 32%float] |})
  /\ retry_async policy_steep (fails_then_succeeds 3) world0
     = (Raise (Builtin (OverflowError range_error)),
        {| calls := 3; draws := 0; clock_reads := 0;
           waits := [AsyncioSleep 1%float; AsyncioSleep 32%float] |}).
Proof.
  split; [|split; [|split; [|split; [|split]]]]; vm_compute; reflexivity.
Qed.

(* ================================================================== *)
(** * Facts: the delay policy *)
(* ================================================================== *)

Lemma SFcompare_refl_not_lt (x : spec_float) : SFcompare x x <> Some Lt.
Proof.
  destruct x as [s|s| |s m e]; simpl; try discriminate.
  - destruct s; discriminate.
  - rewrite Z.compare_refl, Pos.compare_cont_refl. destruct s; discriminate.
Qed.

Lemma ltb_irrefl (x : float) : (x <? x)%float = false.
Proof.
  rewrite ltb_spec. unfold SFltb.
  pose proof (SFcompare_refl_not_lt (Prim2SF x)) as H.
  destruct (SFcompare (Prim2SF x) (Prim2SF x)) as [[| |]|]; congruence.
Qed.

Lemma SFcompare_antisym (x y : spec_float) :
  SFcompare y x = option_map CompOpp (SFcompare x y).
Proof.
  destruct x as [sx|sx| |sx mx ex], y as [sy|sy| |sy my ey]; simpl;
    try reflexivity;
    try (destruct sx; reflexivity); try (destruct sy; reflexivity);
    try (destruct sx, sy; reflexivity).
  f_equal. rewrite (Z.compare_antisym ex ey).
  change (PosDef.Pos.compare_cont Eq my mx)
    with (Pos.compare_cont (CompOpp Eq) my mx).
  rewrite <- (Pos.compare_cont_antisym mx my Eq).
  destruct sx, sy; simpl; try reflexivity;
    destruct (ex ?= ey)%Z; simpl; reflexivity.
Qed.

Lemma leb_not_ltb (a b : float) :
  (a <=? b)%float = true -> (b <? a)%float = false.
Proof.
  rewrite leb_spec, ltb_spec. unfold SFleb, SFltb.
  rewrite (SFcompare_antisym (Prim2SF a) (Prim2SF b)).
  destruct (SFcompare (Prim2SF a) (Prim2SF b)) as [[| |]|]; simpl; congruence.
Qed.

(** Multiplying a valid binary64 value by 1.0 rounds to the value itself. *)
Lemma SFmul_one_r (x : spec_float) :
  valid_binary x = true ->
  SF64mul x (S754_finite false 4503599627370496 (-52)) = x.
Proof.
  intros Hv. destruct x as [s|s| |s m e]; simpl.
  - now rewrite xorb_false_r.
  - now rewrite xorb_false_r.
  - reflexivity.
  - simpl in Hv. unfold bounded, canonical_mantissa in Hv.
    apply andb_true_iff in Hv. destruct Hv as [Hc Hb].
    apply Z.eqb_eq in Hc.
    rewrite xorb_false_r, Pos.mul_comm.
    cbn [Pos.mul].
    unfold binary_round_aux, shr_fexp.
    cbn [Zdigits2 digits2_pos].
    match goal with
    | |- context [fexp prec emax (?a + (e + -52))%Z] =>
        replace (a + (e + -52))%Z with (Z.pos (digits2_pos m) + e)%Z
          by (change PosDef.Pos.succ with Pos.succ; lia)
    end.
    rewrite Hc.
    replace (e - (e + -52))%Z with 52%Z by lia.
    cbn [shr shr_record_of_loc iter_pos shr_1 orb].
    cbn [shr_m loc_of_shr_record round_nearest_even Zdigits2].
    replace (e + -52 + 52)%Z with e by lia.
    rewrite Hc, Z.sub_diag.
    cbn [shr shr_record_of_loc shr_m].
    rewrite Hb. reflexivity.
Qed.

Lemma mul_one_r (x : float) : (x * 1)%float = x.
Proof.
  apply Prim2SF_inj. rewrite mul_spec.
  replace (Prim2SF 1) with (S754_finite false 4503599627370496 (-52))
    by (vm_compute; reflexivity).
  apply SFmul_one_r, Prim2SF_valid.
Qed.

Lemma py_min_le_second (a b : float) : (b <? py_min a b)%float = false.
Proof.
  unfold py_min. destruct (b <? a)%float eqn:H; [apply ltb_irrefl|exact H].
Qed.

Lemma py_float_pow_zero (x : float) : py_float_pow x 0 = Ok 1%float.
Proof. reflexivity. Qed.

(** X2. With jitter disabled: whenever [base ** attempt] is within the float
    range, [get_delay(attempt)] is [min(initial_delay * base ** attempt,
    max_delay)] in float arithmetic; a delay that is returned never exceeds
    [max_delay]; and [get_delay(0)] is [initial_delay] when
    [initial_delay <= max_delay]. *)
Theorem get_delay_without_jitter (cfg : RetryConfig) (rnd : float) :
  jitter cfg = false ->
  (forall attempt p,
      py_float_pow (exponential_base cfg) attempt = Ok p ->
      get_delay cfg attempt rnd
      = Ok (py_min (initial_delay cfg * p)%float (max_delay cfg)))
  /\ (forall attempt d,
         get_delay cfg attempt rnd = Ok d -> (max_delay cfg <? d)%float = false)
  /\ ((initial_delay cfg <=? max_delay cfg)%float = true ->
      get_delay cfg 0 rnd = Ok (initial_delay cfg)).
Proof.
  intros Hj. unfold get_delay. rewrite Hj. split; [|split].
  - intros attempt p ->. reflexivity.
  - intros attempt d.
    destruct (py_float_pow (exponential_base cfg) attempt) as [p|x]; [|discriminate].
    intros H. injection H as <-. apply py_min_le_second.
  - intros Hle. rewrite py_float_pow_zero, mul_one_r. unfold py_min.
    now rewrite (@leb_not_ltb _ _ Hle).
Qed.

Lemma get_delay_without_jitter_witness :
  get_delay policy_no_jitter 3 0%float = Ok 8%float
  /\ get_delay policy_no_jitter 0 0%float = Ok 1%float
  /\ (32 <? 32)%float = false.
Proof.
  destruct (@get_delay_without_jitter policy_no_jitter 0%float eq_refl)
    as (Hformula & Hcap & Hzero).
  split; [|split].
  - apply (Hformula 3%N 8%float). reflexivity.
  - apply Hzero. reflexivity.
  - apply (Hcap 10%N 32%float). reflexivity.
Defined.

(** X3. With jitter enabled and the power in range, [get_delay] is the capped
    delay multiplied by [0.5 + random.random()]; the factor is 0.5 for the
    draw 0, and for the largest draw [1 - 2^-53] the float sum rounds to 1.5
    exactly, so that the delay is 1.5 times the capped one. *)
Theorem get_delay_with_jitter (cfg : RetryConfig) (rnd : float) :
  (jitter cfg = true ->
   forall attempt p,
     py_float_pow (exponential_base cfg) attempt = Ok p ->
     get_delay cfg attempt rnd
     = Ok (py_min (initial_delay cfg * p) (max_delay cfg) * (0.5 + rnd))%float)
  /\ get_delay RetryConfig_default 10 0%float = Ok 16%float
  /\ (0.5 + largest_draw)%float = 1.5%float
  /\ get_delay RetryConfig_default 10 largest_draw = Ok 48%float.
Proof.
  split; [|split; [|split]].
  - intros Hj attempt p Hp. unfold get_delay. now rewrite Hp, Hj.
  - vm_compute. reflexivity.
  - vm_compute. reflexivity.
  - vm_compute. reflexivity.
Qed.

Lemma get_delay_with_jitter_witness :
  get_delay RetryConfig_default 2 0.5%float = Ok 4%float.
Proof.
  destruct (get_delay_with_jitter RetryConfig_default 0.5%float) as [H _].
  apply (H eq_refl 2%N 4%float). reflexivity.
Defined.

(** C5. [get_delay] does not complete for every attempt number: with the
    default base 2.0 the power [2.0 ** 1024] leaves the float range and
    [get_delay(1024)] raises [OverflowError], with jitter disabled and with
    jitter enabled, although the capped delay would be [max_delay]. *)
Theorem get_delay_overflows_at_large_attempt (rnd : float) :
  get_delay policy_no_jitter 1024 rnd = Raise (OverflowError range_error)
  /\ get_delay RetryConfig_default 1024 rnd = Raise (OverflowError range_error)
  /\ get_delay policy_steep 2 rnd = Raise (OverflowError range_error).
Proof.
  split; [|split]; vm_compute; reflexivity.
Qed.

(** C4. At attempt 1023 [get_delay] with jitter disabled agrees with the
    formula [min(initial_delay * base^attempt, max_delay)] (both are 32); at
    attempt 1024 the formula still gives 32 but [get_delay] raises
    [OverflowError] and returns no delay at all. *)
Theorem get_delay_departs_from_formula (rnd : float) :
  get_delay policy_no_jitter 1023 rnd = Ok 32%float
  /\ formula_delay policy_no_jitter 1023 = float_value 32%float
  /\ formula_delay policy_no_jitter 1024 = float_value 32%float
  /\ get_delay policy_no_jitter 1024 rnd = Raise (OverflowError range_error).
Proof.
  split; [|split; [|split]]; vm_compute; reflexivity.
Qed.

(* ================================================================== *)
(** * Facts: the circuit breaker *)
(* ================================================================== *)

Lemma record_failures_cons (now : Q) (times : list Q) (cb : CircuitBreaker) :
  record_failures (now :: times) cb = record_failures times (record_failure now cb).
Proof. reflexivity. Qed.

Lemma record_failures_threshold (times : list Q) :
  forall cb, failure_threshold (record_failures times cb) = failure_threshold cb.
Proof.
  induction times as [|now times IH]; intros cb; [reflexivity|].
  rewrite record_failures_cons, IH. reflexivity.
Qed.

Lemma record_failures_recovery (times : list Q) :
  forall cb, recovery_timeout (record_failures times cb) = recovery_timeout cb.
Proof.
  induction times as [|now times IH]; intros cb; [reflexivity|].
  rewrite record_failures_cons, IH. reflexivity.
Qed.

Lemma record_failures_count (times : list Q) :
  forall cb,
    failure_count (record_failures times cb)
    = (failure_count cb + Z.of_nat (List.length times))%Z.
Proof.
  induction times as [|now times IH]; intros cb.
  - simpl. lia.
  - rewrite record_failures_cons, IH. simpl failure_count.
    simpl List.length. lia.
Qed.

Lemma record_failures_opens (times : list Q) :
  forall cb,
    times <> [] ->
    (failure_threshold cb <= failure_count cb + Z.of_nat (List.length times))%Z ->
    is_open (record_failures times cb) = true.
Proof.
  induction times as [|now times IH]; intros cb Hne Hreach; [congruence|].
  rewrite record_failures_cons.
  destruct times as [|now' times].
  - simpl in *.
    replace (failure_threshold cb <=? failure_count cb + 1)%Z with true
      by (symmetry; apply Z.leb_le; lia).
    reflexivity.
  - apply IH; [discriminate|].
    simpl failure_threshold. simpl failure_count.
    simpl List.length in *. lia.
Qed.

Lemma record_failures_stays_closed (times : list Q) :
  forall cb,
    is_open cb = false ->
    (failure_count cb + Z.of_nat (List.length times) < failure_threshold cb)%Z ->
    is_open (record_failures times cb) = false.
Proof.
  induction times as [|now times IH]; intros cb Hclosed Hbelow; [exact Hclosed|].
  rewrite record_failures_cons. simpl List.length in Hbelow.
  apply IH.
  - simpl.
    replace (failure_threshold cb <=? failure_count cb + 1)%Z with false
      by (symmetry; apply Z.leb_gt; lia).
    exact Hclosed.
  - simpl failure_threshold. simpl failure_count. lia.
Qed.

Lemma record_failures_last_time (times : list Q) :
  forall cb now,
    last_failure_time (record_failures (times ++ [now]) cb) = Some now.
Proof.
  induction times as [|t times IH]; intros cb now; [reflexivity|].
  simpl app. rewrite record_failures_cons. apply IH.
Qed.

Lemma should_attempt_closed (now : Q) (cb : CircuitBreaker) :
  is_open cb = false -> should_attempt now cb = (true, cb).
Proof.
  intros H. unfold should_attempt, should_attempt_branch. now rewrite H.
Qed.

Lemma should_attempt_within_timeout (now t : Q) (cb : CircuitBreaker) :
  is_open cb = true ->
  last_failure_time cb = Some t ->
  (now - t <= recovery_timeout cb)%Q ->
  should_attempt now cb = (false, cb).
Proof.
  intros Hopen Hlast Hel. unfold should_attempt, should_attempt_branch.
  rewrite Hopen, Hlast. simpl.
  destruct (Qlt_le_dec (recovery_timeout cb) (now - t)) as [Hlt|Hle]; [|reflexivity].
  exfalso. apply (Qlt_irrefl (recovery_timeout cb)).
  eapply Qlt_le_trans; eauto.
Qed.

Lemma should_attempt_after_timeout (now t : Q) (cb : CircuitBreaker) :
  is_open cb = true ->
  last_failure_time cb = Some t ->
  (recovery_timeout cb < now - t)%Q ->
  fst (should_attempt now cb) = true
  /\ is_open (snd (should_attempt now cb)) = false
  /\ failure_count (snd (should_attempt now cb)) = 0%Z.
Proof.
  intros Hopen Hlast Hel. unfold should_attempt, should_attempt_branch.
  rewrite Hopen, Hlast. simpl.
  destruct (Qlt_le_dec (recovery_timeout cb) (now - t)) as [Hlt|Hle]; [simpl; auto|].
  exfalso. apply (Qlt_irrefl (recovery_timeout cb)).
  eapply Qlt_le_trans; eauto.
Qed.

Lemma run_calls_app (cb : CircuitBreaker) (cs : list breaker_call) (c : breaker_call) :
  run_calls cb (cs ++ [c]) = apply_call (run_calls cb cs) c.
Proof. unfold run_calls. now rewrite fold_left_app. Qed.

(** Failures below the threshold, with [should_attempt] calls in between, keep
    a closed breaker closed and are all counted. *)
Lemma run_calls_stays_closed (cs : list breaker_call) :
  forall cb,
    is_open cb = false ->
    no_success cs = true ->
    (failure_count cb + Z.of_nat (failures_in cs) < failure_threshold cb)%Z ->
    is_open (run_calls cb cs) = false
    /\ failure_count (run_calls cb cs)
       = (failure_count cb + Z.of_nat (failures_in cs))%Z
    /\ failure_threshold (run_calls cb cs) = failure_threshold cb.
Proof.
  induction cs as [|c cs IH]; intros cb Hclosed Hns Hbelow.
  - simpl. repeat split; [exact Hclosed|lia].
  - destruct c as [|now|now]; [discriminate Hns| |].
    + simpl in Hns, Hbelow.
      destruct (IH (record_failure now cb)) as (H1 & H2 & H3).
      * simpl.
        replace (failure_threshold cb <=? failure_count cb + 1)%Z with false
          by (symmetry; apply Z.leb_gt; lia).
        exact Hclosed.
      * exact Hns.
      * simpl failure_count. simpl failure_threshold. lia.
      * simpl run_calls. repeat split; [exact H1| |exact H3].
        rewrite H2. cbn [failure_count record_failure failures_in]. lia.
    + simpl in Hns, Hbelow. simpl run_calls.
      rewrite (@should_attempt_closed now cb Hclosed). simpl snd.
      now apply IH.
Qed.

(** C2. The breaker as a state machine, from any state [cb] (a threshold of
    at least 1 and a count that is not negative, as the data model has them):
    - after [failure_threshold] consecutive [record_failure] calls the breaker
      is open, and [should_attempt] answers false and changes nothing as long
      as the time elapsed since the last failure does not exceed
      [recovery_timeout];
    - [record_success] sets [failure_count] to 0 and [is_open] to false, and
      [should_attempt] is true afterwards;
    - [should_attempt] on an open breaker, once more than [recovery_timeout]
      has elapsed since [last_failure_time], answers true, closes the breaker
      and sets [failure_count] to 0;
    - on a closed breaker, failures that keep the count of consecutive
      failures below [failure_threshold] leave it closed;
    - on a closed breaker without counted failures, whatever [should_attempt]
      calls come between the failures, the breaker is still closed before the
      failure number [failure_threshold] and open after it. *)
Theorem circuit_breaker_state_machine (cb : CircuitBreaker) :
  (forall times,
      (1 <= failure_threshold cb)%Z ->
      (0 <= failure_count cb)%Z ->
      List.length times = Z.to_nat (failure_threshold cb) ->
      is_open (record_failures times cb) = true
      /\ last_failure_time (record_failures times cb) = Some (last times 0%Q)
      /\ forall now,
          (now - last times 0%Q <= recovery_timeout cb)%Q ->
          should_attempt now (record_failures times cb)
          = (false, record_failures times cb))
  /\ (failure_count (record_success cb) = 0%Z
      /\ is_open (record_success cb) = false
      /\ forall now, should_attempt now (record_success cb) = (true, record_success cb))
  /\ (forall now t,
         is_open cb = true ->
         last_failure_time cb = Some t ->
         (recovery_timeout cb < now - t)%Q ->
         fst (should_attempt now cb) = true
         /\ is_open (snd (should_attempt now cb)) = false
         /\ failure_count (snd (should_attempt now cb)) = 0%Z)
  /\ (forall times,
         is_open cb = false ->
         (failure_count cb + Z.of_nat (List.length times) < failure_threshold cb)%Z ->
         is_open (record_failures times cb) = false)
  /\ (forall cs now,
         is_open cb = false ->
         failure_count cb = 0%Z ->
         no_success cs = true ->
         Z.of_nat (S (failures_in cs)) = failure_threshold cb ->
         is_open (run_calls cb cs) = false
         /\ is_open (run_calls cb (cs ++ [CallRecordFailure now])) = true).
Proof.
  split; [|split; [|split; [|split]]].
  - intros times Hthr Hcount Hlen.
    assert (Hne : times <> []).
    { intros ->. simpl in Hlen. lia. }
    assert (Hopen : is_open (record_failures times cb) = true).
    { apply record_failures_opens; [exact Hne|]. rewrite Hlen. lia. }
    assert (Hlast : last_failure_time (record_failures times cb)
                    = Some (last times 0%Q)).
    { destruct (exists_last Hne) as (front & now & ->).
      rewrite record_failures_last_time, last_last. reflexivity. }
    split; [exact Hopen|]. split; [exact Hlast|].
    intros now Hel.
    apply should_attempt_within_timeout with (t := last times 0%Q); auto.
    rewrite record_failures_recovery. exact Hel.
  - split; [reflexivity|]. split; [reflexivity|].
    intros now. now apply should_attempt_closed.
  - intros now t. apply should_attempt_after_timeout.
  - intros times. apply record_failures_stays_closed.
  - intros cs now Hclosed Hzero Hns Hreach.
    destruct (@run_calls_stays_closed cs cb Hclosed Hns) as (H1 & H2 & H3); [lia|].
    split; [exact H1|].
    rewrite run_calls_app. simpl. rewrite H2, H3.
    replace (failure_threshold cb
             <=? failure_count cb + Z.of_nat (failures_in cs) + 1)%Z
      with true by (symmetry; apply Z.leb_le; lia).
    reflexivity.
Qed.

Lemma circuit_breaker_state_machine_witness :
  (is_open breaker_3_60_opened = true
   /\ should_attempt 50 breaker_3_60_opened = (false, breaker_3_60_opened))
  /\ (fst (should_attempt 100 breaker_3_60_opened) = true
      /\ is_open (snd (should_attempt 100 breaker_3_60_opened)) = false
      /\ failure_count (snd (should_attempt 100 breaker_3_60_opened)) = 0%Z)
  /\ is_open (record_failures [1%Q; 2%Q] breaker_3_60) = false
  /\ fst (should_attempt 4 (record_success breaker_3_60_opened)) = true
  /\ is_open (run_calls breaker_3_60
                        [CallShouldAttempt 1; CallRecordFailure 2;
                         CallShouldAttempt 3; CallRecordFailure 4;
                         CallShouldAttempt 5; CallRecordFailure 6]) = true.
Proof.
  destruct (circuit_breaker_state_machine breaker_3_60) as (H1 & _ & _ & H4 & H5).
  destruct (circuit_breaker_state_machine breaker_3_60_opened) as (_ & H2 & H3 & _).
  split; [|split; [|split; [|split]]].
  - destruct (H1 [1%Q; 2%Q; 3%Q]) as (Hopen & _ & Hrej);
      [simpl; lia|simpl; lia|reflexivity|].
    split; [exact Hopen|].
    apply Hrej. unfold Qle. simpl. lia.
  - apply (H3 100%Q 3%Q); [reflexivity|reflexivity|].
    unfold Qlt. simpl. lia.
  - apply H4; [reflexivity|simpl; lia].
  - destruct H2 as (_ & _ & Hs). now rewrite Hs.
  - apply (H5 [CallShouldAttempt 1; CallRecordFailure 2;
               CallShouldAttempt 3; CallRecordFailure 4; CallShouldAttempt 5]
              6%Q); reflexivity.
Defined.

Lemma breaker_invariant_init (threshold : Z) (timeout : Q) (nm : string) :
  breaker_invariant (CircuitBreaker_init threshold timeout nm).
Proof. intros H. discriminate H. Qed.

Lemma breaker_invariant_step (cb : CircuitBreaker) (c : breaker_call) :
  breaker_invariant cb -> breaker_invariant (apply_call cb c).
Proof.
  intros Hinv. destruct c as [|now|now]; simpl.
  - intros H. discriminate H.
  - unfold breaker_invariant. simpl. intros Hopen.
    split; [eauto|].
    destruct (failure_threshold cb <=? failure_count cb + 1)%Z eqn:Hreach.
    + now apply Z.leb_le.
    + destruct (Hinv Hopen) as [_ Hle]. lia.
  - unfold should_attempt.
    destruct (should_attempt_branch now cb); simpl; try exact Hinv.
    intros H. discriminate H.
Qed.

Lemma apply_call_threshold (cb : CircuitBreaker) (c : breaker_call) :
  failure_threshold (apply_call cb c) = failure_threshold cb.
Proof.
  destruct c as [|now|now]; simpl; try reflexivity.
  unfold should_attempt. now destruct (should_attempt_branch now cb).
Qed.

Lemma run_calls_invariant (cs : list breaker_call) :
  forall cb,
    breaker_invariant cb ->
    breaker_invariant (run_calls cb cs)
    /\ failure_threshold (run_calls cb cs) = failure_threshold cb.
Proof.
  induction cs as [|c cs IH]; intros cb Hinv; [split; [exact Hinv|reflexivity]|].
  simpl. destruct (IH (apply_call cb c)) as [Hi Ht].
  - now apply breaker_invariant_step.
  - split; [exact Hi|]. rewrite Ht. apply apply_call_threshold.
Qed.

(** C10. In every state reached from a freshly constructed breaker by
    [record_success], [record_failure] and [should_attempt] calls, an open
    breaker has a recorded [last_failure_time] and a [failure_count] of at
    least [failure_threshold]; so no [should_attempt] call on such a state
    takes the branch that returns true on an open breaker without a failure
    time. *)
Theorem reachable_open_breaker_has_failure_time
        (threshold : Z) (timeout : Q) (nm : string) (cs : list breaker_call) :
  (is_open (run_calls (CircuitBreaker_init threshold timeout nm) cs) = true ->
   (exists t, last_failure_time (run_calls (CircuitBreaker_init threshold timeout nm) cs)
              = Some t)
   /\ (threshold
       <= failure_count (run_calls (CircuitBreaker_init threshold timeout nm) cs))%Z)
  /\ forall now,
      should_attempt_branch now (run_calls (CircuitBreaker_init threshold timeout nm) cs)
      <> BranchNoFailureTime.
Proof.
  destruct (run_calls_invariant cs (@breaker_invariant_init threshold timeout nm))
    as [Hinv Hthr].
  simpl in Hthr. split.
  - intros Hopen. destruct (Hinv Hopen) as [Ht Hc]. split; [exact Ht|].
    rewrite Hthr in Hc. exact Hc.
  - intros now. unfold should_attempt_branch.
    destruct (is_open (run_calls _ cs)) eqn:Hopen; simpl; [|discriminate].
    destruct (Hinv Hopen) as [[t Ht] _]. rewrite Ht.
    destruct (Qlt_le_dec _ _); discriminate.
Qed.

Lemma reachable_open_breaker_has_failure_time_witness :
  (exists t,
      last_failure_time
        (run_calls (CircuitBreaker_init 2 60 "ollama")
                   [CallRecordFailure 1; CallShouldAttempt 2; CallRecordFailure 3])
      = Some t)
  /\ (2 <= failure_count
             (run_calls (CircuitBreaker_init 2 60 "ollama")
                        [CallRecordFailure 1; CallShouldAttempt 2; CallRecordFailure 3]))%Z.
Proof.
  apply (reachable_open_breaker_has_failure_time 2 60 "ollama"
           [CallRecordFailure 1; CallShouldAttempt 2; CallRecordFailure 3]).
  reflexivity.
Defined.

Lemma should_attempt_rejects_unchanged (now : Q) (cb : CircuitBreaker) :
  fst (should_attempt now cb) = false -> snd (should_attempt now cb) = cb.
Proof.
  unfold should_attempt. destruct (should_attempt_branch now cb); simpl; congruence.
Qed.

Section BreakerCallFacts.
Variables T E B : Type.
Variable en : env T E B.

(** In a world [should_attempt] answers as the pure function does on the
    clock value the world holds next. *)
Lemma should_attempt_in_pure (cb : CircuitBreaker) (w : world) :
  fst (should_attempt_in en cb w) = should_attempt (time_time en (clock_reads w)) cb.
Proof.
  unfold should_attempt_in, should_attempt, should_attempt_branch.
  destruct (is_open cb); simpl; [|reflexivity].
  destruct (last_failure_time cb); reflexivity.
Qed.

Lemma should_attempt_in_calls (cb : CircuitBreaker) (w : world) :
  calls (snd (should_attempt_in en cb w)) = calls w.
Proof.
  unfold should_attempt_in.
  destruct (is_open cb); simpl; [|reflexivity].
  destruct (last_failure_time cb); reflexivity.
Qed.

Lemma should_attempt_in_rejects_unchanged (cb : CircuitBreaker) (w : world) :
  fst (fst (should_attempt_in en cb w)) = false ->
  snd (fst (should_attempt_in en cb w)) = cb.
Proof.
  rewrite should_attempt_in_pure. apply should_attempt_rejects_unchanged.
Qed.

End BreakerCallFacts.

(** C3. [call_async], [now] being the clock value [should_attempt()] reads
    if it reads one: when [should_attempt()] is false the call raises
    [OllamaConnectionError] with a message naming the breaker, the operation is
    not invoked and the breaker is left as it was; otherwise the operation is
    invoked exactly once; a returned value is returned and [record_success] is
    applied; a failure is re-raised as it is and [record_failure] is applied
    (both to the breaker as [should_attempt] left it). *)
Theorem call_async_contract (T E B : Type) (en : env T E B)
        (cb : CircuitBreaker) (w : world) :
  (fst (should_attempt (time_time en (clock_reads w)) cb) = false ->
   fst (fst (call_async en cb w))
   = Raise (OllamaConnectionError
              ("Circuit breaker " ++ name cb
               ++ " is open. Service appears to be unavailable.")%string)
   /\ calls (snd (call_async en cb w)) = calls w
   /\ snd (fst (call_async en cb w)) = cb)
  /\ (fst (should_attempt (time_time en (clock_reads w)) cb) = true ->
      (forall v,
          outcomes en (calls w) = Returned v ->
          fst (fst (call_async en cb w)) = Ok v
          /\ calls (snd (call_async en cb w)) = S (calls w)
          /\ snd (fst (call_async en cb w))
             = record_success (snd (should_attempt (time_time en (clock_reads w)) cb)))
      /\ (forall e,
             outcomes en (calls w) = Raised e ->
             fst (fst (call_async en cb w)) = Raise (OperationFailure e)
             /\ calls (snd (call_async en cb w)) = S (calls w)
             /\ snd (fst (call_async en cb w))
                = record_failure
                    (time_time en (clock_reads (snd (should_attempt_in en cb w))))
                    (snd (should_attempt (time_time en (clock_reads w)) cb)))).
Proof.
  pose proof (should_attempt_in_calls en cb w) as Hcalls.
  pose proof (should_attempt_in_rejects_unchanged en cb w) as Hsame.
  rewrite <- (should_attempt_in_pure en cb w).
  unfold call_async.
  destruct (should_attempt_in en cb w) as [[ok cb1] w1]. simpl in *.
  split; intros Hok; subst ok.
  - rewrite (Hsame eq_refl). simpl. auto.
  - split.
    + intros v Hv. rewrite Hcalls, Hv. simpl. auto.
    + intros e He. rewrite Hcalls, He. simpl. auto.
Qed.

Lemma call_async_contract_witness :
  (fst (fst (call_async (fails_then_succeeds 1) breaker_3_60_opened world0))
   = Raise (OllamaConnectionError
              "Circuit breaker ollama is open. Service appears to be unavailable.")
   /\ calls (snd (call_async (fails_then_succeeds 1) breaker_3_60_opened world0)) = 0
   /\ snd (fst (call_async (fails_then_succeeds 1) breaker_3_60_opened world0))
      = breaker_3_60_opened)
  /\ (fst (fst (call_async (fails_then_succeeds 1) breaker_3_60 world0))
      = Raise (OperationFailure "fail"%string)
      /\ calls (snd (call_async (fails_then_succeeds 1) breaker_3_60 world0)) = 1
      /\ failure_count (snd (fst (call_async (fails_then_succeeds 1) breaker_3_60 world0)))
         = 1%Z)
  /\ (fst (fst (call_async (fails_then_succeeds 0) breaker_3_60 world0))
      = Ok "success"%string
      /\ calls (snd (call_async (fails_then_succeeds 0) breaker_3_60 world0)) = 1).
Proof.
  split; [|split].
  - apply (call_async_contract (fails_then_succeeds 1) breaker_3_60_opened world0).
    reflexivity.
  - destruct (call_async_contract (fails_then_succeeds 1) breaker_3_60 world0)
      as [_ Hrun].
    destruct (Hrun eq_refl) as [_ Hfail].
    destruct (Hfail "fail"%string eq_refl) as (Hres & Hc & Hcb).
    split; [exact Hres|]. split; [exact Hc|]. rewrite Hcb. reflexivity.
  - destruct (call_async_contract (fails_then_succeeds 0) breaker_3_60 world0)
      as [_ Hrun].
    destruct (Hrun eq_refl) as [Hret _].
    destruct (Hret "success"%string eq_refl) as (Hres & Hc & _).
    split; [exact Hres|exact Hc].
Defined.

(* ================================================================== *)
(** * Facts: the model-availability check *)
(* ================================================================== *)

Lemma prefix_iff (p s : string) :
  String.prefix p s = true <-> exists post, s = (p ++ post)%string.
Proof.
  revert s. induction p as [|c p IH]; intros s.
  - split; [intros _; now exists s|]. intros _. now destruct s.
  - destruct s as [|d s]; simpl.
    + split; [discriminate|]. intros [post H]. discriminate H.
    + destruct (ascii_dec c d) as [->|Hne].
      * rewrite IH. split; intros [post H]; exists post; congruence.
      * split; [discriminate|]. intros [post H]. congruence.
Qed.

Lemma str_contains_nil (needle : string) :
  str_contains needle EmptyString = String.prefix needle EmptyString.
Proof.
  unfold str_contains. now destruct (String.prefix needle EmptyString).
Qed.

Lemma str_contains_cons (needle : string) (c : ascii) (hay : string) :
  str_contains needle (String c hay)
  = if String.prefix needle (String c hay) then true else str_contains needle hay.
Proof. reflexivity. Qed.

(** [str_contains] is containment as a substring. *)
Lemma str_contains_iff (needle hay : string) :
  str_contains needle hay = true
  <-> exists pre post, hay = (pre ++ needle ++ post)%string.
Proof.
  induction hay as [|c hay IH].
  - rewrite str_contains_nil.
    destruct (String.prefix needle EmptyString) eqn:Hp.
    + split; [intros _|reflexivity].
      apply prefix_iff in Hp. destruct Hp as [post Hp].
      now exists EmptyString, post.
    + split; [discriminate|]. intros (pre & post & H).
      destruct pre; [|discriminate H]. simpl in H.
      assert (String.prefix needle EmptyString = true) by (apply prefix_iff; eauto).
      congruence.
  - rewrite str_contains_cons.
    destruct (String.prefix needle (String c hay)) eqn:Hp.
    + split; [intros _|reflexivity].
      apply prefix_iff in Hp. destruct Hp as [post Hp].
      now exists EmptyString, post.
    + rewrite IH. split.
      * intros (pre & post & ->). now exists (String c pre), post.
      * intros (pre & post & H). destruct pre as [|d pre].
        -- simpl in H.
           assert (String.prefix needle (String c hay) = true)
             by (apply prefix_iff; eauto).
           congruence.
        -- simpl in H. injection H as _ ->. eauto.
Qed.

Lemma names_of_descriptors (ms : list pyval) :
  forall names,
    descriptor_names ms = Some names -> names_of ms = Ok (map PStr names).
Proof.
  induction ms as [|m ms IH]; intros names H; simpl in *.
  - injection H as <-. reflexivity.
  - destruct m as [| | | | |items|entries]; try discriminate.
    simpl. destruct (dict_lookup "name" entries) as [v|].
    + destruct v; try discriminate.
      destruct (descriptor_names ms) as [ns|]; [|discriminate].
      injection H as <-. now rewrite (IH ns eq_refl).
    + destruct (descriptor_names ms) as [ns|]; [|discriminate].
      injection H as <-. now rewrite (IH ns eq_refl).
Qed.

Lemma any_contains_strings (model : string) (names : list string) :
  any_contains model (map PStr names) = Ok (existsb (str_contains model) names).
Proof.
  induction names as [|n names IH]; simpl; [reflexivity|].
  destruct (str_contains model n); [reflexivity|exact IH].
Qed.

Lemma py_join_strings (sep : string) (names : list string) :
  forall i, exists t, py_join_from i sep (map PStr names) = Ok t.
Proof.
  induction names as [|n names IH]; intros i; simpl; [eauto|].
  destruct (IH (S i)) as [t ->]. eauto.
Qed.

Lemma model_listed_registered (model : string) (data : pyval) (names : list string) :
  registered_names data = Some names ->
  model_listed model data = Ok (existsb (str_contains model) names).
Proof.
  unfold registered_names, model_listed. intros H.
  destruct data as [| | | | |items|entries]; try discriminate.
  simpl. destruct (dict_lookup "models" entries) as [v|].
  - destruct v as [| | | | |ms|]; try discriminate.
    simpl. rewrite (names_of_descriptors _ H), any_contains_strings.
    destruct (existsb (str_contains model) names); [reflexivity|].
    unfold py_join. now destruct (py_join_strings ", " names 0) as [t ->].
  - injection H as <-. reflexivity.
Qed.

(** C9. [check_model_available] answers true exactly when some registered
    model name contains the requested name as a substring; whenever the
    request fails (the GET raises, the status is an error, the body is not
    JSON) it raises [OllamaConnectionError]; it gives a boolean answer only
    for an exchange that succeeded, and it raises nothing but
    [OllamaConnectionError]. *)
Theorem check_model_available_contract (E B : Type)
        (http_get : string -> Z -> http_exchange)
        (model host : string) (port timeout : Z) :
  (forall data names,
      http_get (tags_url host port) timeout = GotResponse None (Ok data) ->
      registered_names data = Some names ->
      exists available,
        check_model_available E B http_get model host port timeout = Ok available
        /\ (available = true
            <-> exists n pre post,
                In n names /\ n = (pre ++ model ++ post)%string))
  /\ (forall msg,
         http_get (tags_url host port) timeout = GetRaisesHTTPError msg
         \/ http_get (tags_url host port) timeout = GetRaisesException msg
         \/ (exists body, http_get (tags_url host port) timeout
                          = GotResponse (Some msg) body)
         \/ http_get (tags_url host port) timeout = GotResponse None (Raise msg) ->
         exists m,
           check_model_available E B http_get model host port timeout
           = Raise (OllamaConnectionError m))
  /\ (forall available,
         check_model_available E B http_get model host port timeout = Ok available ->
         exists data,
           http_get (tags_url host port) timeout = GotResponse None (Ok data))
  /\ (forall x,
         check_model_available E B http_get model host port timeout = Raise x ->
         exists m, x = OllamaConnectionError m).
Proof.
  unfold check_model_available.
  split; [|split; [|split]].
  - intros data names Hget Hnames. rewrite Hget.
    rewrite (model_listed_registered model data Hnames).
    eexists; split; [reflexivity|].
    rewrite existsb_exists. split.
    + intros (n & Hin & Hc). apply str_contains_iff in Hc.
      destruct Hc as (pre & post & ->). eauto.
    + intros (n & pre & post & Hin & ->). exists (pre ++ model ++ post)%string.
      split; [exact Hin|]. apply str_contains_iff. eauto.
  - intros msg [H|[H|[[body H]|H]]]; rewrite H; eauto.
  - intros available.
    destruct (http_get (tags_url host port) timeout) as [m|m|[m|] [data|m']];
      try discriminate.
    eauto.
  - intros x.
    destruct (http_get (tags_url host port) timeout) as [m|m|[m|] [data|m']];
      try (intros H; injection H as <-; eauto).
    destruct (model_listed model data); intros H; [discriminate|].
    injection H as <-. eauto.
Qed.

Lemma check_model_available_contract_witness :
  check_model_available Empty_set Empty_set
    (fun _ _ => GotResponse None (Ok two_models)) "qwen2.5-coder" "localhost" 11434 5
  = Ok true
  /\ exists m,
      check_model_available Empty_set Empty_set
        (fun _ _ => GetRaisesHTTPError "Connection error") "qwen2.5-coder:7b"
        "localhost" 11434 5
      = Raise (OllamaConnectionError m).
Proof.
  split.
  - destruct (check_model_available_contract Empty_set Empty_set
                (fun _ _ => GotResponse None (Ok two_models))
                "qwen2.5-coder" "localhost" 11434 5) as (Hlisted & _).
    destruct (Hlisted two_models ["llama3:8b"%string; "qwen2.5-coder:7b"%string]
                eq_refl eq_refl) as (available & Hres & Hiff).
    rewrite Hres. f_equal. apply Hiff.
    exists "qwen2.5-coder:7b"%string, EmptyString, ":7b"%string.
    split; [right; left; reflexivity|reflexivity].
  - destruct (check_model_available_contract Empty_set Empty_set
                (fun _ _ => GetRaisesHTTPError "Connection error")
                "qwen2.5-coder:7b" "localhost" 11434 5) as (_ & Hfail & _).
    apply (Hfail "Connection error"%string). left. reflexivity.
Defined.

(* ================================================================== *)
(** * Facts: the streaming response decoder *)
(* ================================================================== *)

Lemma append_empty_r (s : string) : (s ++ EmptyString)%string = s.
Proof. induction s as [|c s IH]; simpl; congruence. Qed.

Lemma append_assoc3 (a b c : string) :
  ((a ++ b) ++ c)%string = (a ++ (b ++ c))%string.
Proof. induction a as [|x a IH]; simpl; congruence. Qed.

(** The loop computes the concatenation of the fragments through the first
    final one, and counts every fragment. *)
Lemma decode_lines_spec (lines : list string) :
  forall acc parsed finished,
    decode_lines lines acc parsed finished
    = ((acc ++ if finished then EmptyString
               else concat_text (through_final (fragments_of lines)))%string,
       parsed + List.length (fragments_of lines)).
Proof.
  induction lines as [|line lines IH]; intros acc parsed finished; simpl.
  - destruct finished; simpl; now rewrite append_empty_r, Nat.add_0_r.
  - destruct (parse_fragment line) as [f|]; [|apply IH].
    destruct finished; rewrite IH; simpl.
    + f_equal. lia.
    + destruct (is_final f); simpl;
        rewrite append_assoc3, ?append_empty_r; f_equal; lia.
Qed.

Lemma split_lines_line (l t : string) :
  has_newline l = false ->
  split_lines (l ++ String LF t) = l :: split_lines t.
Proof.
  induction l as [|c l IH]; simpl; intros H.
  - reflexivity.
  - apply orb_false_iff in H. destruct H as [Hc Hl].
    rewrite Hc, (IH Hl). reflexivity.
Qed.

Lemma split_lines_body (lines : list string) :
  Forall (fun l => has_newline l = false) lines ->
  split_lines (body_of_lines lines) = (lines ++ [EmptyString])%list.
Proof.
  induction 1 as [|l lines Hl _ IH]; simpl; [reflexivity|].
  now rewrite (@split_lines_line l _ Hl), IH.
Qed.

Lemma fragments_of_app (xs ys : list string) :
  fragments_of (xs ++ ys) = (fragments_of xs ++ fragments_of ys)%list.
Proof.
  induction xs as [|x xs IH]; simpl; [reflexivity|].
  destruct (parse_fragment x); simpl; congruence.
Qed.

Lemma fragments_of_parsed (lines : list string) (frags : list StreamFragment) :
  Forall2 (fun l f => parse_fragment l = Some f) lines frags ->
  fragments_of lines = frags.
Proof.
  induction 1 as [|l f lines frags Hl _ IH]; simpl; [reflexivity|].
  rewrite Hl. congruence.
Qed.

Lemma decode_stream_fragments (E B : Type) (body : string) :
  decode_stream E B body
  = match fragments_of (split_lines body),
          concat_text (through_final (fragments_of (split_lines body))) with
    | [], _ => Raise (OllamaResponseError "Empty response from Ollama")
    | _ :: _, EmptyString => Raise (OllamaResponseError "Empty response from Ollama")
    | _ :: _, analysis => Ok analysis
    end.
Proof.
  unfold decode_stream. rewrite decode_lines_spec. simpl.
  destruct (fragments_of (split_lines body)) as [|f fs]; [reflexivity|].
  cbn [List.length].
  destruct (concat_text (through_final (f :: fs))); reflexivity.
Qed.

Lemma concat_text_nil_fragments (fs : list StreamFragment) :
  fs = [] -> concat_text (through_final fs) = EmptyString.
Proof. intros ->. reflexivity. Qed.



(* ================================================================== *)
(** * Facts: the Dockerfile block extractor *)
(* ================================================================== *)

Lemma strip_prefix_iff (p s r : string) :
  strip_prefix p s = Some r <-> s = (p ++ r)%string.
Proof.
  revert s. induction p as [|a p IH]; intros s; simpl.
  - split; [intros H; now injection H|intros ->; reflexivity].
  - destruct s as [|b s]; [split; discriminate|].
    destruct (Ascii.eqb_spec a b) as [->|Hne].
    + rewrite IH. split; [intros ->; reflexivity|intros H; now injection H].
    + split; [discriminate|]. intros H. injection H as H _. congruence.
Qed.

Lemma split_at_fence_some (s : string) :
  forall pre rest,
    split_at_fence s = Some (pre, rest) -> first_fence s pre rest.
Proof.
  induction s as [|c s IH]; intros pre rest H; [discriminate|].
  cbn [split_at_fence] in H.
  destruct (strip_prefix fence (String c s)) as [after|] eqn:Hstrip.
  - injection H as <- <-. apply strip_prefix_iff in Hstrip.
    split; [exact Hstrip|]. intros; simpl; lia.
  - destruct (split_at_fence s) as [[before after]|] eqn:Hrec; [|discriminate].
    injection H as <- <-. destruct (IH _ _ eq_refl) as [Heq Hmin].
    split; [cbn [append]; congruence|].
    intros pre' rest' H'. destruct pre' as [|d pre'].
    + exfalso. cbn [append] in H'.
      assert (strip_prefix fence (String c s) = Some rest')
        by (apply strip_prefix_iff; exact H').
      congruence.
    + cbn [append] in H'. injection H' as _ H'. specialize (Hmin _ _ H'). simpl. lia.
Qed.

Lemma split_at_fence_none (s : string) :
  split_at_fence s = None -> no_fence s.
Proof.
  induction s as [|c s IH]; intros H pre rest Heq.
  - destruct pre; discriminate Heq.
  - cbn [split_at_fence] in H.
    destruct (strip_prefix fence (String c s)) as [after|] eqn:Hstrip; [discriminate|].
    destruct (split_at_fence s) as [[before after]|] eqn:Hrec; [discriminate|].
    destruct pre as [|d pre].
    + cbn [append] in Heq.
      assert (strip_prefix fence (String c s) = Some rest)
        by (apply strip_prefix_iff; exact Heq).
      congruence.
    + cbn [append] in Heq. injection Heq as _ Heq. exact (IH eq_refl _ _ Heq).
Qed.

Lemma append_same_length (a b x y : string) :
  (a ++ x)%string = (b ++ y)%string ->
  String.length a = String.length b ->
  a = b /\ x = y.
Proof.
  revert b. induction a as [|c a IH]; intros [|d b] H Hlen; simpl in *;
    try discriminate.
  - auto.
  - injection H as -> H. destruct (IH b H) as [-> ->]; [lia|]. auto.
Qed.

Lemma first_fence_unique (s pre rest pre' rest' : string) :
  first_fence s pre rest -> first_fence s pre' rest' -> pre = pre' /\ rest = rest'.
Proof.
  intros [H1 M1] [H2 M2].
  pose proof (M1 _ _ H2). pose proof (M2 _ _ H1).
  rewrite H1 in H2.
  destruct (@append_same_length pre pre' _ _ H2) as [-> Hr]; [lia|].
  split; [reflexivity|].
  destruct (@append_same_length fence fence rest rest' Hr eq_refl). assumption.
Qed.

Lemma split_at_fence_first (s pre rest : string) :
  first_fence s pre rest -> split_at_fence s = Some (pre, rest).
Proof.
  intros Hff. destruct (split_at_fence s) as [[p r]|] eqn:H.
  - apply split_at_fence_some in H.
    destruct (first_fence_unique H Hff) as [-> ->]. reflexivity.
  - exfalso. destruct Hff as [Heq _]. exact (@split_at_fence_none s H pre rest Heq).
Qed.

Lemma split_lines_label (label content : string) :
  has_newline label = false ->
  tl (split_lines (label ++ String LF content)) = split_lines content.
Proof.
  intros H. now rewrite (@split_lines_line label content H).
Qed.

Lemma drop_blank_head (lines : list string) :
  forall first more, drop_blank lines = first :: more -> is_blank first = false.
Proof.
  induction lines as [|l lines IH]; intros first more H; simpl in H; [discriminate|].
  destruct (is_blank l) eqn:Hb; [eauto|]. injection H as <- _. exact Hb.
Qed.

Lemma drop_blank_suffix (lines : list string) :
  exists blanks, lines = (blanks ++ drop_blank lines)%list.
Proof.
  induction lines as [|l lines [blanks IH]]; simpl; [now exists []|].
  destruct (is_blank l); [|now exists []].
  exists (l :: blanks). simpl. congruence.
Qed.

(** A trimmed block starts with a line that is not blank. *)
Lemma trim_blank_lines_head (lines : list string) :
  forall first more,
    trim_blank_lines lines = first :: more -> is_blank first = false.
Proof.
  unfold trim_blank_lines. intros first more H.
  destruct (drop_blank_suffix (rev (drop_blank lines))) as [blanks Hb].
  apply (f_equal (@rev string)) in Hb.
  rewrite rev_involutive, rev_app_distr, H in Hb.
  simpl in Hb. eapply drop_blank_head. exact Hb.
Qed.

Lemma join_lines_prefix (p first : string) (more : list string) :
  String.prefix p first = true ->
  String.prefix p (join_lines (first :: more)) = true.
Proof.
  intros H. apply prefix_iff in H. destruct H as [post ->].
  apply prefix_iff. destruct more as [|l more]; simpl.
  - eauto.
  - rewrite append_assoc3. eauto.
Qed.

Lemma accept_block_from (block : list string) (d : string) :
  accept_block block = Some d -> String.prefix "FROM" d = true.
Proof.
  destruct block as [|first more]; simpl; [discriminate|].
  destruct (String.prefix "FROM" first) eqn:Hp; [|discriminate].
  intros H. injection H as <-. now apply join_lines_prefix.
Qed.

Lemma split_lines_nonempty (s : string) : split_lines s <> [].
Proof.
  induction s as [|c s IH]; simpl; [discriminate|].
  destruct (Ascii.eqb c LF); [discriminate|].
  destruct (split_lines s); discriminate.
Qed.

Lemma split_lines_app_newline (x y : string) :
  split_lines (x ++ String LF y) = (split_lines x ++ split_lines y)%list.
Proof.
  induction x as [|c x IH]; simpl.
  - reflexivity.
  - destruct (Ascii.eqb c LF); rewrite IH; [reflexivity|].
    pose proof (split_lines_nonempty x) as Hne.
    destruct (split_lines x); [congruence|reflexivity].
Qed.

Lemma split_lines_single (l : string) :
  has_newline l = false -> split_lines l = [l].
Proof.
  induction l as [|c l IH]; simpl; intros H; [reflexivity|].
  apply orb_false_iff in H. destruct H as [Hc Hl].
  now rewrite Hc, (IH Hl).
Qed.

Lemma split_lines_no_newline (s : string) :
  Forall (fun l => has_newline l = false) (split_lines s).
Proof.
  induction s as [|c s IH]; simpl.
  - repeat constructor.
  - destruct (Ascii.eqb c LF) eqn:Hc.
    + constructor; [reflexivity|exact IH].
    + destruct (split_lines s) as [|l ls]; [repeat constructor; simpl; now rewrite Hc|].
      inversion IH as [|? ? Hl Hls]; subst.
      constructor; [simpl; now rewrite Hc, Hl|exact Hls].
Qed.

Lemma join_split_lines (s : string) : join_lines (split_lines s) = s.
Proof.
  induction s as [|c s IH]; simpl; [reflexivity|].
  destruct (Ascii.eqb_spec c LF) as [->|Hc].
  - pose proof (split_lines_nonempty s) as Hne.
    destruct (split_lines s) as [|l ls]; [congruence|].
    cbn [join_lines app]. cbn [join_lines] in IH. now rewrite IH.
  - pose proof (split_lines_nonempty s) as Hne.
    destruct (split_lines s) as [|l ls]; [congruence|].
    destruct ls as [|l' ls]; cbn [join_lines] in *; simpl; now rewrite IH.
Qed.

Lemma is_blank_no_newline (l : string) :
  is_blank l = true -> has_newline l = false.
Proof.
  induction l as [|c l IH]; simpl; intros H; [reflexivity|].
  apply andb_true_iff in H. destruct H as [Hc Hl].
  rewrite (IH Hl), orb_false_r.
  destruct (Ascii.eqb_spec c LF) as [->|]; [discriminate Hc|reflexivity].
Qed.

Lemma blank_lines_no_newline (ls : list string) :
  Forall (fun l => is_blank l = true) ls ->
  Forall (fun l => has_newline l = false) ls.
Proof.
  induction 1; constructor; auto using is_blank_no_newline.
Qed.

Lemma split_lines_before (before : list string) (t : string) :
  Forall (fun l => has_newline l = false) before ->
  split_lines (body_of_lines before ++ t) = (before ++ split_lines t)%list.
Proof.
  induction 1 as [|l ls Hl _ IH]; simpl; [reflexivity|].
  rewrite append_assoc3. cbn [append].
  rewrite split_lines_app_newline, (split_lines_single _ Hl), IH. reflexivity.
Qed.

Lemma split_lines_after (after : list string) (d : string) :
  Forall (fun l => has_newline l = false) after ->
  split_lines (d ++ lines_after after) = (split_lines d ++ after)%list.
Proof.
  intros H. revert d. induction H as [|l ls Hl _ IH]; intros d; simpl.
  - now rewrite append_empty_r, app_nil_r.
  - rewrite split_lines_app_newline. f_equal.
    specialize (IH l). rewrite (split_lines_single _ Hl) in IH. exact IH.
Qed.

Lemma drop_blank_blanks (blanks rest : list string) :
  Forall (fun l => is_blank l = true) blanks ->
  drop_blank (blanks ++ rest) = drop_blank rest.
Proof.
  induction 1 as [|l ls Hl _ IH]; simpl; [reflexivity|]. now rewrite Hl.
Qed.

Lemma drop_blank_kept (l : string) (rest : list string) :
  is_blank l = false -> drop_blank (l :: rest) = l :: rest.
Proof. intros H. simpl. now rewrite H. Qed.

(** What [drop_blank] removes is a run of blank lines. *)
Lemma drop_blank_split (lines : list string) :
  exists blanks,
    Forall (fun l => is_blank l = true) blanks
    /\ lines = (blanks ++ drop_blank lines)%list.
Proof.
  induction lines as [|l lines (blanks & Hb & IH)]; simpl.
  - exists []. split; [constructor|reflexivity].
  - destruct (is_blank l) eqn:Hl.
    + exists (l :: blanks). split; [now constructor|]. simpl. congruence.
    + exists []. split; [constructor|reflexivity].
Qed.

(** Trimming a block that begins and ends with a line that is not blank,
    between blank lines, gives the block. *)
Lemma trim_blank_lines_between (before after front : list string) (f l : string)
      (more : list string) :
  Forall (fun x => is_blank x = true) before ->
  Forall (fun x => is_blank x = true) after ->
  f :: more = (front ++ [l])%list ->
  is_blank f = false ->
  is_blank l = false ->
  trim_blank_lines (before ++ (f :: more) ++ after) = f :: more.
Proof.
  intros Hb Ha Hshape Hf Hl. unfold trim_blank_lines.
  rewrite drop_blank_blanks by exact Hb. cbn [app].
  rewrite drop_blank_kept by exact Hf.
  change (f :: more ++ after)%list with ((f :: more) ++ after)%list.
  rewrite Hshape, rev_app_distr, rev_app_distr. cbn [rev app].
  rewrite drop_blank_blanks by (apply Forall_rev; exact Ha).
  rewrite drop_blank_kept by exact Hl.
  change (l :: rev front) with (rev [l] ++ rev front)%list.
  now rewrite <- rev_app_distr, rev_involutive.
Qed.

(** The lines a trimmed block is cut from. *)
Lemma trim_blank_lines_split (lines : list string) :
  exists before after,
    Forall (fun x => is_blank x = true) before
    /\ Forall (fun x => is_blank x = true) after
    /\ lines = (before ++ trim_blank_lines lines ++ after)%list.
Proof.
  unfold trim_blank_lines.
  destruct (drop_blank_split lines) as (before & Hb & H1).
  destruct (drop_blank_split (rev (drop_blank lines))) as (ra & Ha & H2).
  exists before, (rev ra). split; [exact Hb|]. split; [now apply Forall_rev|].
  rewrite H1 at 1. f_equal.
  apply (f_equal (@rev string)) in H2.
  rewrite rev_involutive, rev_app_distr in H2. exact H2.
Qed.

Lemma trim_blank_lines_last (lines front : list string) (l : string) :
  trim_blank_lines lines = (front ++ [l])%list -> is_blank l = false.
Proof.
  unfold trim_blank_lines. intros H.
  apply (f_equal (@rev string)) in H.
  rewrite rev_involutive, rev_app_distr in H. simpl in H.
  eapply drop_blank_head. exact H.
Qed.

Lemma join_lines_cons (l : string) (rest : list string) :
  rest <> [] -> join_lines (l :: rest) = (l ++ String LF (join_lines rest))%string.
Proof. destruct rest; [congruence|reflexivity]. Qed.

Lemma join_lines_before (before block : list string) :
  block <> [] ->
  join_lines (before ++ block) = (body_of_lines before ++ join_lines block)%string.
Proof.
  intros Hne. induction before as [|l ls IH]; [reflexivity|].
  cbn [app body_of_lines fold_right].
  rewrite join_lines_cons by (destruct ls; [exact Hne|discriminate]).
  fold (body_of_lines ls). rewrite IH, append_assoc3. reflexivity.
Qed.

Lemma lines_after_app (xs ys : list string) :
  lines_after (xs ++ ys) = (lines_after xs ++ lines_after ys)%string.
Proof.
  induction xs as [|x xs IH]; simpl; [reflexivity|].
  now rewrite IH, append_assoc3.
Qed.

(** A text is its first line and the lines after it. *)
Lemma join_lines_first (ls : list string) :
  forall l, join_lines (l :: ls) = (l ++ lines_after ls)%string.
Proof.
  induction ls as [|l' ls IH]; intros l.
  - simpl. now rewrite append_empty_r.
  - rewrite join_lines_cons by discriminate. rewrite IH. reflexivity.
Qed.

Lemma join_lines_after (block after : list string) :
  block <> [] ->
  join_lines (block ++ after) = (join_lines block ++ lines_after after)%string.
Proof.
  destruct block as [|l ls]; [congruence|]. intros _.
  cbn [app]. rewrite !join_lines_first, lines_after_app, append_assoc3.
  reflexivity.
Qed.

Lemma join_lines_last (front : list string) (l : string) :
  has_newline l = false -> last_line (join_lines (front ++ [l])) l.
Proof.
  intros Hl. split; [exact Hl|].
  destruct front as [|f front]; [now left|right].
  rewrite join_lines_after by discriminate. simpl.
  rewrite append_empty_r. eauto.
Qed.

Lemma join_lines_head (f : string) (more : list string) :
  has_newline f = false -> first_line (join_lines (f :: more)) f.
Proof.
  intros Hf. split; [exact Hf|].
  destruct more as [|m more]; [now left|right].
  rewrite join_lines_cons by discriminate. eauto.
Qed.

Lemma first_line_split (d f : string) :
  first_line d f -> exists more, split_lines d = f :: more.
Proof.
  intros [Hf [->|[rest ->]]].
  - exists []. now apply split_lines_single.
  - rewrite split_lines_app_newline. rewrite (split_lines_single f) by exact Hf.
    simpl. eauto.
Qed.

Lemma last_line_split (d l : string) :
  last_line d l -> exists front, split_lines d = (front ++ [l])%list.
Proof.
  intros [Hl [->|[front ->]]].
  - exists []. now apply split_lines_single.
  - rewrite split_lines_app_newline. rewrite (split_lines_single l) by exact Hl.
    eauto.
Qed.

Lemma drop_blank_all (ls : list string) :
  Forall (fun l => is_blank l = true) ls -> drop_blank ls = [].
Proof.
  induction 1 as [|l ls Hl _ IH]; simpl; [reflexivity|]. now rewrite Hl.
Qed.

Lemma blank_text_lines (s : string) :
  blank_text s = true -> Forall (fun l => is_blank l = true) (split_lines s).
Proof.
  induction s as [|c s IH]; simpl; intros H.
  - repeat constructor.
  - apply andb_true_iff in H. destruct H as [Hc Hs].
    specialize (IH Hs).
    destruct (Ascii.eqb c LF) eqn:Hlf.
    + constructor; [reflexivity|exact IH].
    + rewrite orb_false_r in Hc.
      destruct (split_lines s) as [|l ls]; [repeat constructor; simpl; now rewrite Hc|].
      inversion IH as [|? ? Hl Hls]; subst.
      constructor; [simpl; now rewrite Hc, Hl|exact Hls].
Qed.

Lemma blank_text_app (a b : string) :
  blank_text (a ++ b) = (blank_text a && blank_text b)%bool.
Proof.
  induction a as [|c a IH]; simpl; [reflexivity|].
  now rewrite IH, andb_assoc.
Qed.

Lemma is_blank_text (l : string) : is_blank l = true -> blank_text l = true.
Proof.
  induction l as [|c l IH]; simpl; intros H; [reflexivity|].
  apply andb_true_iff in H. destruct H as [Hc Hl].
  now rewrite Hc, (IH Hl).
Qed.

Lemma blank_text_joined (ls : list string) :
  Forall (fun l => is_blank l = true) ls -> blank_text (join_lines ls) = true.
Proof.
  induction 1 as [|l ls Hl Hls IH]; [reflexivity|].
  destruct ls as [|l' ls]; [now apply is_blank_text|].
  rewrite join_lines_cons by discriminate.
  rewrite blank_text_app, (is_blank_text _ Hl). simpl.
  replace (is_space LF || Ascii.eqb LF LF)%bool with true by reflexivity.
  exact IH.
Qed.

Lemma has_newline_split (s : string) :
  has_newline s = true ->
  exists l t, s = (l ++ String LF t)%string /\ has_newline l = false.
Proof.
  induction s as [|c s IH]; simpl; [discriminate|].
  destruct (Ascii.eqb_spec c LF) as [->|Hc]; simpl.
  - intros _. exists EmptyString, s. split; reflexivity.
  - intros H. destruct (IH H) as (l & t & -> & Hl).
    exists (String c l), t. split; [reflexivity|]. simpl.
    rewrite Hl, orb_false_r. now apply Ascii.eqb_neq.
Qed.

(** What the extractor does with the content of a labelled block. *)
Lemma extract_block (s pre opened label content rest : string) :
  first_fence s pre opened ->
  first_fence opened (label ++ String LF content) rest ->
  has_newline label = false ->
  extract_dockerfile_content s
  = accept_block (trim_blank_lines (split_lines content)).
Proof.
  intros Hopen Hclose Hlabel. unfold extract_dockerfile_content.
  rewrite (@split_at_fence_first _ _ _ Hopen), (@split_at_fence_first _ _ _ Hclose).
  now rewrite (@split_lines_label label content Hlabel).
Qed.

(** The content of a block is blank, or it is a text between blank lines
    whose first and last lines are not blank. *)
Lemma content_shape (content : string) :
  match trim_blank_lines (split_lines content) with
  | [] => blank_text content = true
  | f :: more =>
      trimmed_of content (join_lines (f :: more))
      /\ first_line (join_lines (f :: more)) f
      /\ is_blank f = false
      /\ exists l, last_line (join_lines (f :: more)) l /\ is_blank l = false
  end.
Proof.
  destruct (trim_blank_lines_split (split_lines content))
    as (before & after & Hb & Ha & Hsplit).
  pose proof (split_lines_no_newline content) as Hnl.
  destruct (trim_blank_lines (split_lines content)) as [|f more] eqn:Htrim.
  - rewrite <- (join_split_lines content), Hsplit. apply blank_text_joined.
    simpl. apply Forall_app. split; assumption.
  - rewrite Hsplit in Hnl.
    apply Forall_app in Hnl. destruct Hnl as [_ Hnl].
    apply Forall_app in Hnl. destruct Hnl as [Hblock _].
    split; [|split; [|split]].
    + exists before, after. split; [exact Hb|]. split; [exact Ha|].
      rewrite <- (join_split_lines content) at 1. rewrite Hsplit.
      rewrite join_lines_before by discriminate.
      rewrite join_lines_after by discriminate. reflexivity.
    + apply join_lines_head. now inversion Hblock.
    + eapply trim_blank_lines_head. exact Htrim.
    + destruct (@exists_last _ (f :: more)) as (front & l & Hlast);
        [discriminate|].
      exists l. rewrite Hlast. split.
      * apply join_lines_last. rewrite Hlast in Hblock.
        apply Forall_app in Hblock. destruct Hblock as [_ Hl].
        now inversion Hl.
      * eapply trim_blank_lines_last. rewrite Htrim. exact Hlast.
Qed.

(** C7. The extractor on every input text.  It has no failure outcome:
    its results are a text and the absent result.
    - A text without a fence, a text whose opening fence is never closed,
      and a block whose opening fence is not followed by a newline before
      the closing fence give the absent result.
    - For a block with the label [label] and the content [content] (the
      text between the line of the opening fence and the closing fence):
      a content of blank lines gives the absent result; otherwise the
      content is a text [d] between blank lines, whose first and last lines
      are not blank, and the result is [d] itself, as it stands in the
      content, when its first line begins with [FROM], and the absent
      result when it does not.  A result is always such a [d].
    - These cases cover every text.
    The examples of the specification are evaluated. *)
Theorem dockerfile_extractor_contract :
  (forall s, no_fence s -> extract_dockerfile_content s = None)
  /\ (forall s pre opened,
         first_fence s pre opened -> no_fence opened ->
         extract_dockerfile_content s = None)
  /\ (forall s pre opened inner rest,
         first_fence s pre opened ->
         first_fence opened inner rest ->
         has_newline inner = false ->
         extract_dockerfile_content s = None)
  /\ (forall s pre opened label content rest,
         first_fence s pre opened ->
         first_fence opened (label ++ String LF content) rest ->
         has_newline label = false ->
         (blank_text content = true -> extract_dockerfile_content s = None)
         /\ (forall d f l,
                trimmed_of content d ->
                first_line d f -> last_line d l ->
                is_blank f = false -> is_blank l = false ->
                extract_dockerfile_content s
                = if String.prefix "FROM" f then Some d else None)
         /\ (forall d,
                extract_dockerfile_content s = Some d ->
                trimmed_of content d
                /\ String.prefix "FROM" d = true
                /\ exists l, last_line d l /\ is_blank l = false)
         /\ (blank_text content = true
             \/ exists d f l,
                 trimmed_of content d
                 /\ first_line d f /\ last_line d l
                 /\ is_blank f = false /\ is_blank l = false))
  /\ (forall s,
         no_fence s
         \/ exists pre opened,
             first_fence s pre opened
             /\ (no_fence opened
                 \/ exists inner rest,
                     first_fence opened inner rest
                     /\ (has_newline inner = false
                         \/ exists label content,
                             inner = (label ++ String LF content)%string
                             /\ has_newline label = false)))
  /\ (forall s d,
         extract_dockerfile_content s = Some d -> String.prefix "FROM" d = true)
  /\ extract_dockerfile_content analysis_with_dockerfile
     = Some ("FROM python:3.9-slim" ++ NL ++ "WORKDIR /app")%string
  /\ extract_dockerfile_content analysis_without_from = None
  /\ extract_dockerfile_content "This is just plain text with no Dockerfile" = None
  /\ extract_dockerfile_content analysis_with_spaces
     = Some ("FROM alpine" ++ NL ++ "RUN true  ")%string
  /\ extract_dockerfile_content analysis_on_one_line = None
  /\ extract_dockerfile_content analysis_never_closed = None.
Proof.
  split; [|split; [|split; [|split; [|split; [|split]]]]].
  - intros s Hno. unfold extract_dockerfile_content.
    destruct (split_at_fence s) as [[pre rest]|] eqn:H; [|reflexivity].
    apply split_at_fence_some in H. destruct H as [Heq _].
    exfalso. exact (Hno _ _ Heq).
  - intros s pre opened Hopen Hno. unfold extract_dockerfile_content.
    rewrite (@split_at_fence_first _ _ _ Hopen).
    destruct (split_at_fence opened) as [[inner rest]|] eqn:H; [|reflexivity].
    apply split_at_fence_some in H. destruct H as [Heq _].
    exfalso. exact (Hno _ _ Heq).
  - intros s pre opened inner rest Hopen Hclose Hinner.
    unfold extract_dockerfile_content.
    rewrite (@split_at_fence_first _ _ _ Hopen), (@split_at_fence_first _ _ _ Hclose).
    rewrite split_lines_single by exact Hinner. reflexivity.
  - intros s pre opened label content rest Hopen Hclose Hlabel.
    pose proof (@extract_block s pre opened label content rest Hopen Hclose Hlabel)
      as Hrun.
    pose proof (content_shape content) as Hshape.
    split; [|split; [|split]].
    + intros Hblank. rewrite Hrun. unfold trim_blank_lines.
      rewrite (@drop_blank_all (split_lines content))
        by (apply blank_text_lines; exact Hblank).
      reflexivity.
    + intros d f l (before & after & Hb & Ha & Hcontent) Hf Hl Hfb Hlb.
      destruct (@first_line_split d f Hf) as [more Hmore].
      destruct (@last_line_split d l Hl) as [front Hfront].
      assert (Hlines : split_lines content
                       = (before ++ (f :: more) ++ after)%list).
      { rewrite Hcontent.
        rewrite split_lines_before by (apply blank_lines_no_newline; exact Hb).
        rewrite split_lines_after by (apply blank_lines_no_newline; exact Ha).
        now rewrite Hmore. }
      rewrite Hrun, Hlines.
      rewrite (@trim_blank_lines_between before after front f l more);
        try assumption; [|congruence].
      cbn [accept_block]. rewrite <- Hmore, join_split_lines. reflexivity.
    + intros d Hd. rewrite Hrun in Hd.
      destruct (trim_blank_lines (split_lines content)) as [|f more];
        [discriminate|].
      cbn [accept_block] in Hd.
      destruct (String.prefix "FROM" f) eqn:Hfrom; [|discriminate].
      injection Hd as <-.
      destruct Hshape as (Htrim & _ & _ & Hlast).
      split; [exact Htrim|]. split; [|exact Hlast].
      now apply join_lines_prefix.
    + destruct (trim_blank_lines (split_lines content)) as [|f more];
        [now left|right].
      destruct Hshape as (Htrim & Hfirst & Hfb & l & Hlast & Hlb).
      exists (join_lines (f :: more)), f, l. auto.
  - intros s.
    destruct (split_at_fence s) as [[pre opened]|] eqn:Hs.
    + right. exists pre, opened. split; [now apply split_at_fence_some|].
      destruct (split_at_fence opened) as [[inner rest]|] eqn:Ho.
      * right. exists inner, rest. split; [now apply split_at_fence_some|].
        destruct (has_newline inner) eqn:Hn; [right|now left].
        destruct (@has_newline_split inner Hn) as (label & content & Heq & Hl).
        eauto.
      * left. intros p r. now apply split_at_fence_none.
    + left. intros p r. now apply split_at_fence_none.
  - intros s d. unfold extract_dockerfile_content.
    destruct (split_at_fence s) as [[pre opened]|]; [|discriminate].
    destruct (split_at_fence opened) as [[inner rest]|]; [|discriminate].
    apply accept_block_from.
  - split; [|split; [|split; [|split; [|split]]]]; vm_compute; reflexivity.
Qed.

Lemma dockerfile_extractor_contract_witness :
  extract_dockerfile_content analysis_with_dockerfile
  = Some ("FROM python:3.9-slim" ++ NL ++ "WORKDIR /app")%string
  /\ extract_dockerfile_content analysis_without_from = None
  /\ extract_dockerfile_content "no fence here" = None.
Proof.
  destruct dockerfile_extractor_contract as (Hplain & _ & _ & Hblock & _).
  split; [|split].
  - destruct (Hblock analysis_with_dockerfile
                ("# Analysis" ++ NL ++ NL)%string
                ("dockerfile" ++ NL ++ NL ++ "FROM python:3.9-slim" ++ NL
                   ++ "WORKDIR /app" ++ NL ++ NL ++ fence ++ NL
                   ++ "This is much better!" ++ NL)%string
                "dockerfile"%string
                (NL ++ "FROM python:3.9-slim" ++ NL ++ "WORKDIR /app" ++ NL ++ NL)%string
                (NL ++ "This is much better!" ++ NL)%string)
      as (_ & Hfrom & _).
    + apply split_at_fence_some. vm_compute. reflexivity.
    + apply split_at_fence_some. vm_compute. reflexivity.
    + reflexivity.
    + apply (Hfrom ("FROM python:3.9-slim" ++ NL ++ "WORKDIR /app")%string
                   "FROM python:3.9-slim"%string "WORKDIR /app"%string).
      * exists [EmptyString], [EmptyString; EmptyString].
        split; [repeat constructor|]. split; [repeat constructor|].
        reflexivity.
      * split; [reflexivity|]. right. eexists. reflexivity.
      * split; [reflexivity|]. right. eexists. reflexivity.
      * reflexivity.
      * reflexivity.
  - destruct (Hblock analysis_without_from
                EmptyString
                ("dockerfile" ++ NL ++ "RUN apt-get update" ++ NL
                   ++ "WORKDIR /app" ++ NL ++ fence ++ NL)%string
                "dockerfile"%string
                ("RUN apt-get update" ++ NL ++ "WORKDIR /app" ++ NL)%string
                NL)
      as (_ & Hfrom & _).
    + apply split_at_fence_some. vm_compute. reflexivity.
    + apply split_at_fence_some. vm_compute. reflexivity.
    + reflexivity.
    + apply (Hfrom ("RUN apt-get update" ++ NL ++ "WORKDIR /app")%string
                   "RUN apt-get update"%string "WORKDIR /app"%string).
      * exists [], [EmptyString].
        split; [constructor|]. split; [repeat constructor|].
        reflexivity.
      * split; [reflexivity|]. right. eexists. reflexivity.
      * split; [reflexivity|]. right. eexists. reflexivity.
      * reflexivity.
      * reflexivity.
  - apply Hplain. apply split_at_fence_none. reflexivity.
Defined.

(* ================================================================== *)
(** * Facts: the connection check *)
(* ================================================================== *)

(** X5. [validate_ollama_connection] returns [True] exactly when the GET of
    the tags URL gets a response without an error status, and never returns
    [False]; every other outcome is raised as [OllamaConnectionError] and as
    nothing else; and the message tells the cause: two outcomes handled by
    different [except] clauses never give the same error, whatever their
    own messages are. *)
Theorem validate_ollama_connection_contract (E B : Type)
        (http_request : string -> Z -> request_outcome)
        (host : string) (port timeout : Z) :
  (validate_ollama_connection E B http_request host port timeout = Ok true
   <-> http_request (tags_url host port) timeout = Responds None)
  /\ validate_ollama_connection E B http_request host port timeout <> Ok false
  /\ (forall x,
         validate_ollama_connection E B http_request host port timeout = Raise x ->
         exists m, x = OllamaConnectionError m)
  /\ (forall other_request,
         validate_ollama_connection E B http_request host port timeout
         = validate_ollama_connection E B other_request host port timeout ->
         cause_of (http_request (tags_url host port) timeout)
         = cause_of (other_request (tags_url host port) timeout)).
Proof.
  unfold validate_ollama_connection.
  change ("http://" ++ host ++ ":" ++ py_str_int port ++ "/api/tags")%string
    with (tags_url host port).
  split; [|split; [|split]].
  - destruct (http_request (tags_url host port) timeout) as [m|m|m|m|[m|]];
      split; intros H; try discriminate H; reflexivity.
  - destruct (http_request (tags_url host port) timeout) as [m|m|m|m|[m|]];
      discriminate.
  - intros x.
    destruct (http_request (tags_url host port) timeout) as [m|m|m|m|[m|]];
      intros H; try discriminate H; injection H as <-; eauto.
  - intros other.
    destruct (http_request (tags_url host port) timeout) as [m|m|m|m|[m|]];
      destruct (other (tags_url host port) timeout) as [m'|m'|m'|m'|[m'|]];
      simpl; intros H; try reflexivity; try discriminate H;
      exfalso; injection H as H; simpl in H; discriminate H.
Qed.

(** X6. Both checks query the same URL, and [check_model_available] is at
    least as strict as [validate_ollama_connection]: on the same request it
    answers (true or false) only if the validation returns [True], and
    whenever the validation raises, it raises [OllamaConnectionError] too. *)
Theorem model_check_implies_connection (E B : Type)
        (http_request : string -> Z -> request_outcome)
        (json : string -> Z -> result pyval string)
        (model host : string) (port timeout : Z) :
  (forall available,
      check_model_available E B
        (fun url t => as_exchange (http_request url t) (json url t))
        model host port timeout = Ok available ->
      validate_ollama_connection E B http_request host port timeout = Ok true)
  /\ (forall x,
         validate_ollama_connection E B http_request host port timeout = Raise x ->
         exists m,
           check_model_available E B
             (fun url t => as_exchange (http_request url t) (json url t))
             model host port timeout = Raise (OllamaConnectionError m)).
Proof.
  unfold validate_ollama_connection, check_model_available.
  change ("http://" ++ host ++ ":" ++ py_str_int port ++ "/api/tags")%string
    with (tags_url host port).
  split.
  - intros available.
    destruct (http_request (tags_url host port) timeout) as [m|m|m|m|[m|]];
      simpl; try discriminate. reflexivity.
  - intros x.
    destruct (http_request (tags_url host port) timeout) as [m|m|m|m|[m|]];
      simpl; try discriminate; eauto.
Qed.

Lemma model_check_implies_connection_witness :
  validate_ollama_connection Empty_set Empty_set
    (fun _ _ => Responds None) "localhost" 11434 5 = Ok true
  /\ exists m,
      check_model_available Empty_set Empty_set
        (fun url t => as_exchange (RaisesTimeout "timed out") (Ok two_models))
        "llama3" "localhost" 11434 5
      = Raise (OllamaConnectionError m).
Proof.
  split.
  - destruct (model_check_implies_connection Empty_set Empty_set
                (fun _ _ => Responds None) (fun _ _ => Ok two_models)
                "llama3" "localhost" 11434 5) as [H _].
    apply (H true). reflexivity.
  - destruct (model_check_implies_connection Empty_set Empty_set
                (fun _ _ => RaisesTimeout "timed out") (fun _ _ => Ok two_models)
                "llama3" "localhost" 11434 5) as [_ H].
    apply (H (OllamaConnectionError
                "Connection to Ollama at localhost:11434 timed out. Error: timed out")).
    reflexivity.
Defined.

(* ================================================================== *)
(** * Facts: merging configurations *)
(* ================================================================== *)

Lemma dict_lookup_set_same (k : string) (v : pyval) (d : py_dict) :
  dict_lookup k (dict_set k v d) = Some v.
Proof.
  induction d as [|[k' x] d IH]; simpl.
  - now rewrite String.eqb_refl.
  - destruct (String.eqb k' k) eqn:Hk; simpl; rewrite Hk; [reflexivity|exact IH].
Qed.

Lemma dict_lookup_set_other (k k' : string) (v : pyval) (d : py_dict) :
  k' <> k -> dict_lookup k' (dict_set k v d) = dict_lookup k' d.
Proof.
  intros Hne. induction d as [|[k0 x] d IH]; simpl.
  - destruct (String.eqb_spec k k'); [congruence|reflexivity].
  - destruct (String.eqb_spec k0 k) as [->|Hk]; simpl.
    + destruct (String.eqb_spec k k'); [congruence|reflexivity].
    + destruct (String.eqb k0 k'); [reflexivity|exact IH].
Qed.

Lemma dict_lookup_absent (k : string) (d : py_dict) :
  ~ In k (map fst d) -> dict_lookup k d = None.
Proof.
  induction d as [|[k' x] d IH]; simpl; intros H; [reflexivity|].
  destruct (String.eqb_spec k' k) as [->|Hk]; [tauto|]. apply IH. tauto.
Qed.

Lemma dict_lookup_present (k : string) (d : py_dict) :
  In k (map fst d) -> exists v, dict_lookup k d = Some v.
Proof.
  induction d as [|[k' x] d IH]; simpl; intros H; [contradiction|].
  destruct (String.eqb_spec k' k) as [->|Hk]; [eauto|].
  apply IH. destruct H; congruence.
Qed.

(** The keys after an assignment: the same, or one more at the end. *)
Lemma dict_set_keys (k : string) (v : pyval) (d : py_dict) :
  map fst (dict_set k v d)
  = if in_dec string_dec k (map fst d) then map fst d else map fst d ++ [k].
Proof.
  induction d as [|[k' x] d IH]; simpl; [reflexivity|].
  destruct (String.eqb_spec k' k) as [->|Hk]; simpl.
  - destruct (string_dec k k); [|congruence].
    reflexivity.
  - rewrite IH. destruct (string_dec k' k); [congruence|].
    destruct (in_dec string_dec k (map fst d)); reflexivity.
Qed.

Lemma dict_set_new (k : string) (v : pyval) (d : py_dict) :
  ~ In k (map fst d) -> dict_set k v d = d ++ [(k, v)].
Proof.
  induction d as [|[k' x] d IH]; simpl; intros H; [reflexivity|].
  destruct (String.eqb_spec k' k) as [->|Hk]; [tauto|].
  rewrite IH; tauto.
Qed.

Lemma dict_set_nodup (k : string) (v : pyval) (d : py_dict) :
  NoDup (map fst d) -> NoDup (map fst (dict_set k v d)).
Proof.
  intros H. rewrite dict_set_keys.
  destruct (in_dec string_dec k (map fst d)) as [Hin|Hout]; [exact H|].
  apply NoDup_app; [exact H|repeat constructor; simpl; tauto|].
  intros x Hx [<-|[]]. contradiction.
Qed.

(** Unpacking [b] over [a]: the value of [b] when it has the key, else that
    of [a]. *)
Lemma dict_update_lookup (b : py_dict) :
  forall a f,
    NoDup (map fst b) ->
    dict_lookup f (dict_update a b)
    = match dict_lookup f b with
      | Some v => Some v
      | None => dict_lookup f a
      end.
Proof.
  unfold dict_update.
  induction b as [|[k v] b IH]; intros a f Hnd; simpl; [reflexivity|].
  inversion Hnd as [|? ? Hout Hnd']; subst.
  rewrite IH by exact Hnd'.
  destruct (String.eqb_spec k f) as [->|Hk].
  - rewrite (dict_lookup_absent _ _ Hout). apply dict_lookup_set_same.
  - destruct (dict_lookup f b); [reflexivity|].
    apply dict_lookup_set_other. congruence.
Qed.

Lemma dict_update_nodup (b : py_dict) :
  forall a, NoDup (map fst a) -> NoDup (map fst (dict_update a b)).
Proof.
  unfold dict_update.
  induction b as [|[k v] b IH]; intros a H; simpl; [exact H|].
  apply IH. now apply dict_set_nodup.
Qed.

Lemma sections_ok_lookup (c : py_dict) (s : string) (v : pyval) :
  sections_ok c -> dict_lookup s c = Some v ->
  exists d, v = PDict d /\ NoDup (map fst d).
Proof.
  induction 1 as [|[k x] c Hx _ IH]; simpl; [discriminate|].
  destruct (String.eqb k s); [|exact IH].
  intros H. injection H as <-. exact Hx.
Qed.

Lemma sections_ok_set (c : py_dict) (s : string) (d : py_dict) :
  sections_ok c -> NoDup (map fst d) -> sections_ok (dict_set s (PDict d) c).
Proof.
  induction 1 as [|[k x] c Hx Hc IH]; simpl; intros Hd.
  - repeat constructor. simpl. eauto.
  - destruct (String.eqb k s); constructor; simpl; eauto.
    apply IH. exact Hd.
Qed.

Lemma field_of_set_same (c : py_dict) (s f : string) (d : py_dict) :
  field_of (dict_set s (PDict d) c) s f = dict_lookup f d.
Proof. unfold field_of. now rewrite dict_lookup_set_same. Qed.

Lemma field_of_set_other (c : py_dict) (s s' f : string) (v : pyval) :
  s' <> s -> field_of (dict_set s v c) s' f = field_of c s' f.
Proof. intros H. unfold field_of. now rewrite dict_lookup_set_other. Qed.

(** One configuration merged into the accumulated one: its fields win, the
    other fields stay. *)
Lemma merge_items_fields (items : py_dict) :
  forall acc,
    sections_ok acc ->
    sectioned items ->
    exists r,
      merge_items acc items = Ok r
      /\ sections_ok r
      /\ forall s f,
          field_of r s f
          = match field_of items s f with
            | Some v => Some v
            | None => field_of acc s f
            end.
Proof.
  unfold sectioned, sections_ok.
  induction items as [|[k v] items IH]; intros acc Hacc [Hnd Hsec].
  - exists acc. repeat split; assumption.
  - inversion Hnd as [|? ? Hout Hnd']; subst.
    inversion Hsec as [|? ? (d & Hv & Hd) Hsec']; subst.
    simpl in Hv. subst v.
    assert (Hstep : exists acc1,
               merge_item acc (k, PDict d) = Ok acc1
               /\ sections_ok acc1
               /\ forall s f,
                   field_of acc1 s f
                   = if String.eqb s k
                     then match dict_lookup f d with
                          | Some x => Some x
                          | None => field_of acc k f
                          end
                     else field_of acc s f).
    { simpl. destruct (dict_lookup k acc) as [old|] eqn:Hold.
      - destruct (sections_ok_lookup _ Hacc Hold) as (od & -> & Hod).
        eexists; split; [reflexivity|]. split.
        + apply sections_ok_set; [exact Hacc|]. now apply dict_update_nodup.
        + intros s f. destruct (String.eqb_spec s k) as [->|Hs].
          * rewrite field_of_set_same, dict_update_lookup by exact Hd.
            unfold field_of. now rewrite Hold.
          * now apply field_of_set_other.
      - eexists; split; [reflexivity|]. split.
        + now apply sections_ok_set.
        + intros s f. destruct (String.eqb_spec s k) as [->|Hs].
          * rewrite field_of_set_same. unfold field_of. rewrite Hold.
            now destruct (dict_lookup f d).
          * now apply field_of_set_other. }
    destruct Hstep as (acc1 & Hrun & Hacc1 & Hf1).
    destruct (IH acc1 Hacc1 (conj Hnd' Hsec')) as (r & Hr & Hrok & Hrf).
    exists r. cbn [merge_items]. rewrite Hrun. split; [exact Hr|].
    split; [exact Hrok|].
    intros s f. rewrite Hrf, Hf1.
    assert (Hhead : field_of ((k, PDict d) :: items) s f
                    = if String.eqb s k then dict_lookup f d
                      else field_of items s f).
    { unfold field_of. simpl. rewrite (String.eqb_sym s k).
      now destruct (String.eqb k s). }
    rewrite Hhead.
    destruct (String.eqb_spec s k) as [->|Hk].
    + unfold field_of at 1. now rewrite (dict_lookup_absent _ _ Hout).
    + reflexivity.
Qed.

Lemma merge_into_fields (cs : list py_dict) :
  forall acc,
    sections_ok acc ->
    Forall sectioned cs ->
    exists r,
      merge_into acc cs = Ok r
      /\ sections_ok r
      /\ forall s f,
          field_of r s f
          = fold_left (fun found c =>
                         match field_of c s f with
                         | Some v => Some v
                         | None => found
                         end) cs (field_of acc s f).
Proof.
  induction cs as [|c cs IH]; intros acc Hacc Hcs.
  - exists acc. repeat split; assumption.
  - inversion Hcs as [|? ? Hc Hcs']; subst.
    destruct (merge_items_fields Hacc Hc) as (acc1 & Hrun & Hok & Hf).
    destruct (IH acc1 Hok Hcs') as (r & Hr & Hrok & Hrf).
    exists r. cbn [merge_into]. rewrite Hrun. split; [exact Hr|].
    split; [exact Hrok|].
    intros s f. rewrite Hrf. simpl. now rewrite Hf.
Qed.

(** X7. [merge_configs] merges one level deep with the later configuration
    taking precedence field by field: for configurations made of sections, it
    does not fail, and the value of [section.field] in the result is the one
    given by the last configuration that sets it; a field set by no
    configuration is absent.  For [file], [env], [override] in this order, an
    override wins over the environment, which wins over the file. *)
Theorem merge_configs_precedence (cs : list py_dict) :
  Forall sectioned cs ->
  exists merged,
    merge_configs cs = Ok merged
    /\ (forall section field,
           field_of merged section field = last_field cs section field)
    /\ (forall file environment override section field,
           cs = [file; environment; override] ->
           field_of merged section field
           = match field_of override section field with
             | Some v => Some v
             | None =>
                 match field_of environment section field with
                 | Some v => Some v
                 | None => field_of file section field
                 end
             end).
Proof.
  intros Hcs.
  destruct (@merge_into_fields cs [] (Forall_nil _) Hcs) as (r & Hr & _ & Hf).
  exists r. split; [exact Hr|]. split.
  - intros s f. rewrite Hf. reflexivity.
  - intros file environment override s f ->. rewrite Hf. simpl.
    unfold field_of at 4. simpl.
    destruct (field_of override s f); [reflexivity|].
    destruct (field_of environment s f); [reflexivity|].
    destruct (field_of file s f); reflexivity.
Qed.

Lemma merge_configs_precedence_witness :
  exists merged,
    merge_configs example_configs = Ok merged
    /\ field_of merged "ollama" "host" = Some (PStr "envhost")
    /\ field_of merged "ollama" "port" = Some (PInt 11434).
Proof.
  assert (Hcs : Forall sectioned example_configs).
  { repeat constructor; simpl; try tauto.
    - eexists; split; [reflexivity|].
      repeat constructor; simpl; intuition discriminate.
    - eexists; split; [reflexivity|].
      repeat constructor; simpl; intuition discriminate. }
  destruct (merge_configs_precedence Hcs) as (merged & Hm & Hlast & _).
  exists merged. split; [exact Hm|].
  split; rewrite Hlast; reflexivity.
Defined.

Lemma merge_item_nodup (acc : py_dict) (kv : string * pyval) (r : py_dict) :
  NoDup (map fst acc) -> merge_item acc kv = Ok r -> NoDup (map fst r).
Proof.
  intros Hacc. destruct kv as [k v]. unfold merge_item.
  destruct v; try (intros H; injection H as <-; now apply dict_set_nodup).
  destruct (dict_lookup k acc) as [[]|];
    try discriminate; intros H; injection H as <-; now apply dict_set_nodup.
Qed.

Lemma merge_items_nodup (items : py_dict) :
  forall acc r,
    NoDup (map fst acc) -> merge_items acc items = Ok r -> NoDup (map fst r).
Proof.
  induction items as [|kv items IH]; intros acc r Hacc; cbn [merge_items].
  - intros H. injection H as <-. exact Hacc.
  - destruct (merge_item acc kv) as [acc1|e] eqn:Hstep; [|discriminate].
    apply IH. eapply merge_item_nodup; eassumption.
Qed.

Lemma merge_into_nodup (cs : list py_dict) :
  forall acc r,
    NoDup (map fst acc) -> merge_into acc cs = Ok r -> NoDup (map fst r).
Proof.
  induction cs as [|c cs IH]; intros acc r Hacc; cbn [merge_into].
  - intros H. injection H as <-. exact Hacc.
  - destruct (merge_items acc c) as [acc1|e] eqn:Hstep; [|discriminate].
    apply IH. eapply merge_items_nodup; eassumption.
Qed.

(** Items whose keys are new to the accumulated dict are appended in order. *)
Lemma merge_items_fresh (items : py_dict) :
  forall acc,
    NoDup (map fst (acc ++ items)) -> merge_items acc items = Ok (acc ++ items).
Proof.
  induction items as [|[k v] items IH]; intros acc Hnd; cbn [merge_items].
  - now rewrite app_nil_r.
  - assert (Hout : ~ In k (map fst acc)).
    { rewrite map_app in Hnd. simpl in Hnd.
      apply NoDup_remove_2 in Hnd. rewrite in_app_iff in Hnd. tauto. }
    assert (Hstep : merge_item acc (k, v) = Ok (acc ++ [(k, v)])).
    { unfold merge_item. rewrite dict_lookup_absent by exact Hout.
      rewrite dict_set_new by exact Hout. now destruct v. }
    rewrite Hstep.
    change (acc ++ (k, v) :: items) with (acc ++ [(k, v)] ++ items) in *.
    rewrite app_assoc in *. now apply IH.
Qed.

Lemma merge_into_app (xs ys : list py_dict) :
  forall acc,
    merge_into acc (xs ++ ys)
    = match merge_into acc xs with
      | Ok r => merge_into r ys
      | Raise e => Raise e
      end.
Proof.
  induction xs as [|x xs IH]; intros acc; simpl; [reflexivity|].
  destruct (merge_items acc x); [apply IH|reflexivity].
Qed.

(** X8. Merging can be done in stages: merging [xs ++ ys] gives what merging
    the result of [xs] with [ys] gives, and fails where merging [xs] fails.
    The result of a merge has distinct keys, and merging a single
    configuration with distinct keys returns it unchanged, so that
    [merge_configs] is idempotent on its own results. *)
Theorem merge_configs_in_stages (xs ys : list py_dict) :
  merge_configs (xs ++ ys)
  = match merge_configs xs with
    | Ok merged => merge_configs (merged :: ys)
    | Raise e => Raise e
    end
  /\ (forall merged,
         merge_configs xs = Ok merged ->
         NoDup (map fst merged) /\ merge_configs [merged] = Ok merged).
Proof.
  assert (Hself : forall merged,
             merge_configs xs = Ok merged ->
             NoDup (map fst merged) /\ merge_items [] merged = Ok merged).
  { intros merged Hm.
    assert (Hnd : NoDup (map fst merged)).
    { eapply merge_into_nodup; [|exact Hm]. constructor. }
    split; [exact Hnd|]. now apply (@merge_items_fresh merged []). }
  split.
  - unfold merge_configs. rewrite merge_into_app.
    destruct (merge_into [] xs) as [merged|e] eqn:Hm; [|reflexivity].
    cbn [merge_into]. destruct (Hself merged Hm) as [_ ->]. reflexivity.
  - intros merged Hm. destruct (Hself merged Hm) as [Hnd Hid].
    split; [exact Hnd|]. unfold merge_configs. cbn [merge_into].
    now rewrite Hid.
Qed.

(** X9. Merging is not symmetric in the kinds of values: a section (a dict)
    merged over an earlier value of the same key that is not a dict raises
    TypeError, the unpacking of a non-mapping, while a non-dict value merged
    over anything replaces it. *)
Theorem merge_configs_dict_over_scalar
        (c : py_dict) (k : string) (v : pyval) (d : py_dict) :
  NoDup (map fst c) ->
  dict_lookup k c = Some v ->
  is_dict v = false ->
  merge_configs [c; [(k, PDict d)]]
  = Raise (TypeError ("'" ++ type_name v ++ "' object is not a mapping"))
  /\ merge_configs [[(k, PDict d)]; [(k, v)]] = Ok [(k, v)].
Proof.
  intros Hnd Hk Hv. split.
  - unfold merge_configs. cbn [merge_into].
    rewrite (@merge_items_fresh c [] Hnd). cbn [app merge_items merge_item].
    rewrite Hk. now destruct v.
  - unfold merge_configs. cbn [merge_into merge_items merge_item dict_lookup].
    destruct v; try discriminate; cbn [dict_set]; now rewrite String.eqb_refl.
Qed.

Lemma merge_configs_dict_over_scalar_witness :
  merge_configs [[("ollama"%string, PStr "localhost")];
                 [("ollama"%string, PDict [("port"%string, PInt 1)])]]
  = Raise (TypeError "'str' object is not a mapping")
  /\ merge_configs [[("ollama"%string, PDict [("port"%string, PInt 1)])];
                    [("ollama"%string, PStr "localhost")]]
     = Ok [("ollama"%string, PStr "localhost")].
Proof.
  apply (@merge_configs_dict_over_scalar
           [("ollama"%string, PStr "localhost")] "ollama" (PStr "localhost")
           [("port"%string, PInt 1)]).
  - repeat constructor. simpl. tauto.
  - reflexivity.
  - reflexivity.
Defined.

(* ================================================================== *)
(** * Facts: configuration from the environment *)
(* ================================================================== *)

Lemma set_in_section_fields (section field : string) (v : pyval) (c : py_dict) :
  sections_ok c -> NoDup (map fst c) ->
  exists c',
    set_in_section section field v c = Ok c'
    /\ sections_ok c'
    /\ NoDup (map fst c')
    /\ forall s f,
        field_of c' s f
        = if (String.eqb s section && String.eqb f field)%bool
          then Some v
          else field_of c s f.
Proof.
  intros Hc Hnd. unfold set_in_section.
  destruct (dict_lookup section c) as [old|] eqn:Hold.
  - destruct (sections_ok_lookup _ Hc Hold) as (d & -> & Hd).
    eexists. split; [reflexivity|]. split; [|split].
    + apply sections_ok_set; [exact Hc|]. now apply dict_set_nodup.
    + now apply dict_set_nodup.
    + intros s f. destruct (String.eqb_spec s section) as [->|Hs]; simpl.
      * rewrite field_of_set_same.
        destruct (String.eqb_spec f field) as [->|Hf].
        -- apply dict_lookup_set_same.
        -- rewrite dict_lookup_set_other by exact Hf.
           unfold field_of. now rewrite Hold.
      * now apply field_of_set_other.
  - eexists. split; [reflexivity|]. split; [|split].
    + apply sections_ok_set; [exact Hc|].
      repeat constructor. simpl. tauto.
    + now apply dict_set_nodup.
    + intros s f. destruct (String.eqb_spec s section) as [->|Hs]; simpl.
      * rewrite field_of_set_same. simpl. rewrite (String.eqb_sym f field).
        destruct (String.eqb field f); [reflexivity|].
        unfold field_of. now rewrite Hold.
      * now apply field_of_set_other.
Qed.

Section EnvConfigFacts.

Variable getenv : string -> option string.
Variable py_int : string -> result Z builtin_exception.
Variable py_float : string -> result string builtin_exception.

(** What reading a list of variables into [c] gives: an error of a
    conversion, or [c] with the fields of the variables that are set. *)
Lemma read_variables_result (t : list env_entry) :
  forall c,
    sections_ok c -> NoDup (map fst c) ->
    match read_variables getenv py_int py_float t c with
    | Ok r =>
        sections_ok r /\ NoDup (map fst r)
        /\ (forall e s, In e t -> env_value getenv (var_name e) = Some s ->
                        exists v, convert py_int py_float (var_kind e) s = Ok v)
        /\ (forall s f,
               field_of r s f
               = fold_left (fun found e =>
                              if same_target e s f
                              then match env_field getenv py_int py_float e with
                                   | Some v => Some v
                                   | None => found
                                   end
                              else found) t (field_of c s f))
    | Raise x =>
        exists e s,
          In e t /\ env_value getenv (var_name e) = Some s
          /\ convert py_int py_float (var_kind e) s = Raise x
    end.
Proof.
  induction t as [|e t IH]; intros c Hc Hnd; cbn [read_variables].
  - repeat split; try assumption. intros e s [].
  - unfold read_variable.
    destruct (env_value getenv (var_name e)) as [str|] eqn:Hval.
    + destruct (convert py_int py_float (var_kind e) str) as [v|x] eqn:Hconv.
      * destruct (@set_in_section_fields (var_section e) (var_field e) v c Hc Hnd)
          as (c1 & -> & Hc1 & Hnd1 & Hf1).
        specialize (IH c1 Hc1 Hnd1).
        destruct (read_variables getenv py_int py_float t c1) as [r|x].
        -- destruct IH as (Hr & Hrnd & Hall & Hf).
           split; [exact Hr|]. split; [exact Hrnd|]. split.
           ++ intros e' s [<-|Hin] Hs; [|eauto].
              rewrite Hval in Hs. injection Hs as <-. eauto.
           ++ intros s f. rewrite Hf. cbn [fold_left]. f_equal.
              rewrite Hf1. unfold same_target, env_field.
              rewrite Hval, Hconv. reflexivity.
        -- destruct IH as (e' & s & Hin & Hs & Hx).
           exists e', s. simpl. tauto.
      * exists e, str. simpl. tauto.
    + specialize (IH c Hc Hnd).
      destruct (read_variables getenv py_int py_float t c) as [r|x].
      * destruct IH as (Hr & Hrnd & Hall & Hf).
        split; [exact Hr|]. split; [exact Hrnd|]. split.
        -- intros e' s [<-|Hin] Hs; [|eauto]. rewrite Hval in Hs. discriminate.
        -- intros s f. rewrite Hf. cbn [fold_left]. f_equal.
           unfold env_field. rewrite Hval. now destruct (same_target e s f).
      * destruct IH as (e' & s & Hin & Hs & Hx).
        exists e', s. simpl. tauto.
Qed.

Lemma fold_fields_set (t : list env_entry) (s f : string) :
  forall init,
    fold_left (fun found e =>
                 if same_target e s f
                 then match env_field getenv py_int py_float e with
                      | Some v => Some v
                      | None => found
                      end
                 else found) t init <> None ->
    init <> None
    \/ exists e, In e t /\ var_section e = s /\ var_field e = f
                 /\ env_field getenv py_int py_float e <> None.
Proof.
  induction t as [|e t IH]; intros init; cbn [fold_left]; [tauto|].
  intros H. apply IH in H. destruct H as [H|(e' & Hin & Hs & Hf & Hv)].
  - unfold same_target in H.
    destruct (String.eqb_spec s (var_section e)) as [->|];
      [|now left].
    destruct (String.eqb_spec f (var_field e)) as [->|]; [|now left].
    simpl in H.
    destruct (env_field getenv py_int py_float e) eqn:He; [|now left].
    right. exists e. simpl. rewrite He. repeat split; auto; discriminate.
  - right. exists e'. simpl. tauto.
Qed.

Lemma read_variables_same_environment (other : string -> option string)
      (t : list env_entry) :
  (forall e, In e t -> other (var_name e) = getenv (var_name e)) ->
  forall c,
    read_variables other py_int py_float t c
    = read_variables getenv py_int py_float t c.
Proof.
  induction t as [|e t IH]; intros Hsame c; cbn [read_variables]; [reflexivity|].
  assert (Hstep : read_variable other py_int py_float e c
                  = read_variable getenv py_int py_float e c).
  { unfold read_variable, env_value. rewrite Hsame by (simpl; tauto).
    reflexivity. }
  rewrite Hstep. destruct (read_variable getenv py_int py_float e c);
    [|reflexivity].
  apply IH. intros e' Hin. apply Hsame. simpl. tauto.
Qed.

Lemma read_variables_unset (t : list env_entry) (c : py_dict) :
  (forall e, In e t -> env_value getenv (var_name e) = None) ->
  read_variables getenv py_int py_float t c = Ok c.
Proof.
  induction t as [|e t IH]; intros Hnone; cbn [read_variables]; [reflexivity|].
  unfold read_variable. rewrite Hnone by (simpl; tauto).
  apply IH. intros e' Hin. apply Hnone. simpl. tauto.
Qed.

Lemma load_env_config_result :
  match load_env_config getenv py_int py_float with
  | Ok r =>
      sectioned r
      /\ (forall e s, In e env_table -> env_value getenv (var_name e) = Some s ->
                      exists v, convert py_int py_float (var_kind e) s = Ok v)
      /\ (forall e, In e env_table ->
                    field_of r (var_section e) (var_field e)
                    = env_field getenv py_int py_float e)
      /\ (forall s f, field_of r s f <> None ->
                      exists e, In e env_table
                                /\ var_section e = s /\ var_field e = f
                                /\ env_field getenv py_int py_float e <> None)
  | Raise x =>
      exists e s,
        In e env_table /\ env_value getenv (var_name e) = Some s
        /\ convert py_int py_float (var_kind e) s = Raise x
  end.
Proof.
  unfold load_env_config.
  pose proof (@read_variables_result env_table [] (Forall_nil _) (NoDup_nil _))
    as H.
  destruct (read_variables getenv py_int py_float env_table []) as [r|x];
    [|exact H].
  destruct H as (Hr & Hnd & Hall & Hf).
  split; [split; assumption|]. split; [exact Hall|]. split.
  - intros e Hin. rewrite Hf.
    change (field_of [] (var_section e) (var_field e)) with (@None pyval).
    unfold env_table in *.
    cbn [In] in Hin.
    repeat (destruct Hin as [<-|Hin];
            [unfold same_target; cbn -[env_field];
             repeat match goal with
               | |- context [match env_field ?g ?i ?fl ?e with _ => _ end] =>
                   destruct (env_field g i fl e)
               end; reflexivity|]).
    contradiction.
  - intros s f Hset. rewrite Hf in Hset. apply fold_fields_set in Hset.
    destruct Hset as [Hset|Hset]; [|exact Hset].
    now contradiction Hset.
Qed.

End EnvConfigFacts.

(** X10. The configuration [load_env_config] returns has one section per
    group of variables that are set, with distinct names.  A variable of the
    table that is set and not empty gives its field the converted value; one
    that is unset or empty gives no field; no other field appears.  The two
    boolean variables give True exactly when the value lower-cased is
    ["true"], and False for every other non-empty value. *)
Theorem load_env_config_fields
        (getenv : string -> option string)
        (py_int : string -> result Z builtin_exception)
        (py_float : string -> result string builtin_exception)
        (config : py_dict) :
  load_env_config getenv py_int py_float = Ok config ->
  sectioned config
  /\ (forall e s,
         In e env_table -> env_value getenv (var_name e) = Some s ->
         exists v,
           convert py_int py_float (var_kind e) s = Ok v
           /\ field_of config (var_section e) (var_field e) = Some v)
  /\ (forall e,
         In e env_table -> env_value getenv (var_name e) = None ->
         field_of config (var_section e) (var_field e) = None)
  /\ (forall section field,
         field_of config section field <> None ->
         exists e,
           In e env_table /\ var_section e = section /\ var_field e = field
           /\ env_value getenv (var_name e) <> None)
  /\ (forall s,
         env_value getenv "DOCKERFILE_AI_SAVE_ANALYSIS" = Some s ->
         field_of config "output" "save_analysis"
         = Some (PBool (String.eqb (py_lower s) "true")))
  /\ (forall s,
         env_value getenv "DOCKERFILE_AI_COPY_MODE" = Some s ->
         field_of config "output" "copy_mode"
         = Some (PBool (String.eqb (py_lower s) "true"))).
Proof.
  intros Hload.
  pose proof (load_env_config_result getenv py_int py_float) as H.
  rewrite Hload in H. destruct H as (Hsec & Hall & Hfield & Honly).
  assert (Hset : forall e s,
             In e env_table -> env_value getenv (var_name e) = Some s ->
             exists v,
               convert py_int py_float (var_kind e) s = Ok v
               /\ field_of config (var_section e) (var_field e) = Some v).
  { intros e s Hin Hs. destruct (Hall e s Hin Hs) as (v & Hv).
    exists v. split; [exact Hv|].
    rewrite (Hfield e Hin). unfold env_field. now rewrite Hs, Hv. }
  split; [exact Hsec|]. split; [exact Hset|]. split; [|split; [|split]].
  - intros e Hin Hnone. rewrite (Hfield e Hin). unfold env_field.
    now rewrite Hnone.
  - intros s f Hsf. destruct (Honly s f Hsf) as (e & Hin & Hs & Hf & Hv).
    exists e. repeat split; try assumption.
    unfold env_field in Hv. intros Hnone. now rewrite Hnone in Hv.
  - intros s Hs.
    destruct (Hset (Build_env_entry "DOCKERFILE_AI_SAVE_ANALYSIS" AsBool
                                    "output" "save_analysis") s)
      as (v & Hv & Hf); [simpl; tauto|exact Hs|].
    simpl in Hv, Hf. injection Hv as <-. exact Hf.
  - intros s Hs.
    destruct (Hset (Build_env_entry "DOCKERFILE_AI_COPY_MODE" AsBool
                                    "output" "copy_mode") s)
      as (v & Hv & Hf); [simpl; tauto|exact Hs|].
    simpl in Hv, Hf. injection Hv as <-. exact Hf.
Qed.

Lemma load_env_config_fields_witness :
  sectioned example_env_config
  /\ field_of example_env_config "output" "copy_mode" = Some (PBool true).
Proof.
  assert (Hload : load_env_config example_getenv example_int example_float
                  = Ok example_env_config) by reflexivity.
  destruct (load_env_config_fields _ _ _ Hload)
    as (Hsec & _ & _ & _ & _ & Hcopy).
  split; [exact Hsec|]. exact (Hcopy "True"%string eq_refl).
Defined.

(** X11. The only errors of [load_env_config] are those of [int] and [float]
    on a variable that is set: they leave the function as they are.  A port
    that [int] rejects makes it fail whatever the other variables are.  With
    none of the ten variables set (or all of them empty) the result is the
    empty dict.  No other variable of the environment is read. *)
Theorem load_env_config_errors
        (getenv : string -> option string)
        (py_int : string -> result Z builtin_exception)
        (py_float : string -> result string builtin_exception) :
  (forall x,
      load_env_config getenv py_int py_float = Raise x ->
      exists e s,
        In e env_table /\ env_value getenv (var_name e) = Some s
        /\ ((var_kind e = AsInt /\ py_int s = Raise x)
            \/ (var_kind e = AsFloat /\ py_float s = Raise x)))
  /\ (forall s x,
         env_value getenv "OLLAMA_PORT" = Some s ->
         py_int s = Raise x ->
         load_env_config getenv py_int py_float = Raise x)
  /\ ((forall e, In e env_table -> env_value getenv (var_name e) = None) ->
      load_env_config getenv py_int py_float = Ok [])
  /\ (forall other,
         (forall e, In e env_table -> other (var_name e) = getenv (var_name e)) ->
         load_env_config other py_int py_float
         = load_env_config getenv py_int py_float).
Proof.
  split; [|split; [|split]].
  - intros x Hx.
    pose proof (load_env_config_result getenv py_int py_float) as H.
    rewrite Hx in H. destruct H as (e & s & Hin & Hs & Hconv).
    exists e, s. split; [exact Hin|]. split; [exact Hs|].
    unfold convert in Hconv. destruct (var_kind e); try discriminate.
    + left. split; [reflexivity|].
      destruct (py_int s); [discriminate|congruence].
    + right. split; [reflexivity|].
      destruct (py_float s); [discriminate|congruence].
  - intros s x Hs Hx. unfold load_env_config, env_table.
    cbn [read_variables]. unfold read_variable at 1. cbn [var_name var_kind].
    destruct (env_value getenv "OLLAMA_HOST");
      cbn; unfold read_variable at 1; cbn [var_name var_kind];
      rewrite Hs; cbn [convert]; rewrite Hx; reflexivity.
  - intros Hnone. unfold load_env_config. now apply read_variables_unset.
  - intros other Hsame. unfold load_env_config.
    now apply read_variables_same_environment.
Qed.

(* ================================================================== *)
(** * Facts: the merged configuration *)
(* ================================================================== *)

Lemma merge_values_into_dicts (cs : list py_dict) :
  forall acc, merge_values_into acc (map PDict cs) = merge_into acc cs.
Proof.
  induction cs as [|c cs IH]; intros acc; simpl; [reflexivity|].
  destruct (merge_items acc c); [apply IH|reflexivity].
Qed.

(** X12. In [load_configuration] the merged configuration takes each field
    from the override when it sets the field, else from the environment, else
    from the file: a variable of the environment that is set wins over the
    file, and loses only to an override of the same field.  The sources are
    a file, an environment and an override made of sections; an override of
    None counts as empty. *)
Theorem merged_configuration_precedence
        (getenv : string -> option string)
        (py_int : string -> result Z builtin_exception)
        (py_float : string -> result string builtin_exception)
        (file env_config : py_dict) (override : option py_dict) :
  sectioned file ->
  sectioned (override_or_empty override) ->
  load_env_config getenv py_int py_float = Ok env_config ->
  exists merged,
    merged_configuration getenv py_int py_float (PDict file) override = Ok merged
    /\ (forall section field,
           field_of merged section field
           = match field_of (override_or_empty override) section field with
             | Some v => Some v
             | None =>
                 match field_of env_config section field with
                 | Some v => Some v
                 | None => field_of file section field
                 end
             end)
    /\ (forall e s,
           In e env_table ->
           env_value getenv (var_name e) = Some s ->
           field_of (override_or_empty override) (var_section e) (var_field e)
           = None ->
           exists v,
             convert py_int py_float (var_kind e) s = Ok v
             /\ field_of merged (var_section e) (var_field e) = Some v).
Proof.
  intros Hfile Hover Henv.
  pose proof (load_env_config_result getenv py_int py_float) as Hres.
  rewrite Henv in Hres. destruct Hres as (Hsec & Hall & Hfield & _).
  assert (Hcs : Forall sectioned [file; env_config; override_or_empty override]).
  { apply Forall_cons; [exact Hfile|]. apply Forall_cons; [exact Hsec|].
    apply Forall_cons; [exact Hover|]. apply Forall_nil. }
  destruct (@merge_into_fields _ [] (Forall_nil _) Hcs) as (r & Hr & _ & Hf).
  assert (Hfields : forall s f,
             field_of r s f
             = match field_of (override_or_empty override) s f with
               | Some v => Some v
               | None =>
                   match field_of env_config s f with
                   | Some v => Some v
                   | None => field_of file s f
                   end
               end).
  { intros s f. rewrite Hf. simpl.
    change (field_of [] s f) with (@None pyval).
    destruct (field_of (override_or_empty override) s f); [reflexivity|].
    destruct (field_of env_config s f); [reflexivity|].
    destruct (field_of file s f); reflexivity. }
  exists r. split; [|split; [exact Hfields|]].
  - unfold merged_configuration. rewrite Henv.
    unfold merge_config_values.
    rewrite <- Hr, <- merge_values_into_dicts. reflexivity.
  - intros e s Hin Hs Hnone. destruct (Hall e s Hin Hs) as (v & Hv).
    exists v. split; [exact Hv|].
    rewrite Hfields, Hnone, (Hfield e Hin). unfold env_field.
    now rewrite Hs, Hv.
Qed.

Lemma merged_configuration_precedence_witness :
  exists merged,
    merged_configuration example_getenv example_int example_float
      (PDict [("ollama"%string,
               PDict [("host"%string, PStr "filehost");
                      ("port"%string, PInt 11434)])])
      None = Ok merged
    /\ field_of merged "ollama" "port" = Some (PInt 8080)
    /\ field_of merged "ollama" "host" = Some (PStr "filehost").
Proof.
  assert (Hfile : sectioned
                    [("ollama"%string,
                      PDict [("host"%string, PStr "filehost");
                             ("port"%string, PInt 11434)])]).
  { split.
    - repeat constructor. simpl. tauto.
    - repeat constructor. simpl. eexists; split; [reflexivity|].
      repeat constructor; simpl; intuition discriminate. }
  assert (Hover : sectioned (override_or_empty None)).
  { split; constructor. }
  assert (Henv : load_env_config example_getenv example_int example_float
                 = Ok example_env_config) by reflexivity.
  destruct (@merged_configuration_precedence _ _ _ _ _ None Hfile Hover Henv)
    as (merged & Hm & Hfields & _).
  exists merged. split; [exact Hm|].
  split; rewrite Hfields; reflexivity.
Defined.

(** X13. A configuration file whose top level is not a mapping (a YAML list
    or scalar that is truthy, which [load_config_file] returns as it is)
    makes the merge in [load_configuration] raise AttributeError; the merge
    stands before the [try], so the error is not turned into a
    ConfigurationError.  An error of the environment, read first, comes
    before it. *)
Theorem merged_configuration_file_not_a_dict
        (getenv : string -> option string)
        (py_int : string -> result Z builtin_exception)
        (py_float : string -> result string builtin_exception)
        (file_config : pyval) (override : option py_dict) :
  is_dict file_config = false ->
  merged_configuration getenv py_int py_float file_config override
  = match load_env_config getenv py_int py_float with
    | Ok _ =>
        Raise (AttributeError
                 ("'" ++ type_name file_config
                      ++ "' object has no attribute 'items'"))
    | Raise x => Raise x
    end.
Proof.
  intros Hfile. unfold merged_configuration.
  destruct (load_env_config getenv py_int py_float); [|reflexivity].
  destruct file_config; try discriminate; reflexivity.
Qed.

Lemma merged_configuration_file_not_a_dict_witness :
  merged_configuration example_getenv example_int example_float
    (PList [PStr "ollama"]) None
  = Raise (AttributeError "'list' object has no attribute 'items'")
  /\ merged_configuration bad_port_getenv example_int example_float
       (PList [PStr "ollama"]) None
     = Raise (ValueError "invalid literal for int() with base 10: 'http'").
Proof.
  split.
  - apply (@merged_configuration_file_not_a_dict
             example_getenv example_int example_float
             (PList [PStr "ollama"]) None).
    reflexivity.
  - apply (@merged_configuration_file_not_a_dict
             bad_port_getenv example_int example_float
             (PList [PStr "ollama"]) None).
    reflexivity.
Defined.

(* ================================================================== *)
(** * Facts: logging *)
(* ================================================================== *)

Lemma color_of_known (shown color : string) :
  Logging.color_of shown Logging.COLORS = Some color ->
  exists code, color = (Logging.ESC ++ code)%string
               /\ exists c rest, shown = String c rest
                                 /\ Ascii.eqb c (ascii_of_nat 27) = false.
Proof.
  unfold Logging.COLORS. cbn [Logging.color_of].
  repeat match goal with
    | |- context [String.eqb ?k shown] =>
        destruct (String.eqb_spec k shown) as [<-|_]
    end;
    try discriminate; intros H; injection H as <-;
    (eexists; split; [reflexivity|]; do 2 eexists; split; reflexivity).
Qed.

Lemma color_of_coloured (shown color : string) :
  Logging.color_of shown Logging.COLORS = Some color ->
  Logging.color_of (coloured color shown) Logging.COLORS = None.
Proof.
  intros H. destruct (color_of_known _ H) as (code & -> & _).
  reflexivity.
Qed.

Lemma append_cancel_l (a x y : string) :
  (a ++ x)%string = (a ++ y)%string -> x = y.
Proof.
  induction a as [|c a IH]; simpl; intros H; [exact H|].
  injection H as H. exact (IH H).
Qed.

Lemma ColoredFormatter_format_levelno
      (fmt : list Logging.piece) (record : Logging.LogRecord) :
  Logging.levelno (snd (Logging.ColoredFormatter_format fmt record))
  = Logging.levelno record.
Proof.
  unfold Logging.ColoredFormatter_format. cbn [snd].
  destruct (Logging.color_of (Logging.levelname record) Logging.COLORS);
    reflexivity.
Qed.

(** X14. Where [setup_logging] sends a record: nothing below DEBUG; the
    console gets exactly the records at or above [log_level]; the log file,
    when one is given, gets every record from DEBUG up, whatever
    [log_level] is; without a log file only the console is written. *)
Theorem setup_logging_routing
        (log_level : Z) (log_file : option string) (verbose : bool)
        (record : Logging.LogRecord) :
  map fst (Logging.handle (Logging.setup_logging log_level log_file verbose) record)
  = if (Logging.DEBUG <=? Logging.levelno record)%Z
    then (if (log_level <=? Logging.levelno record)%Z
          then [Logging.Stderr] else [])
           ++ match log_file with
              | Some path => [Logging.LogFile path]
              | None => []
              end
    else [].
Proof.
  unfold Logging.handle, Logging.setup_logging.
  cbn [Logging.level Logging.handlers].
  destruct (Logging.DEBUG <=? Logging.levelno record)%Z eqn:Hdebug;
    [|reflexivity].
  cbn [Logging.callHandlers Logging.handler_level Logging.handler_formatter
         Logging.handler_stream Logging.format].
  destruct (log_level <=? Logging.levelno record)%Z.
  - pose proof (ColoredFormatter_format_levelno
                  (Logging.console_format verbose) record) as Hno.
    destruct (Logging.ColoredFormatter_format
                (Logging.console_format verbose) record) as [text r].
    cbn [snd] in Hno.
    destruct log_file as [path|]; [|reflexivity].
    cbn [Logging.callHandlers Logging.handler_level Logging.handler_formatter
           Logging.handler_stream Logging.format map fst app].
    rewrite Hno, Hdebug. reflexivity.
  - destruct log_file as [path|]; [|reflexivity].
    cbn [Logging.callHandlers Logging.handler_level Logging.handler_formatter
           Logging.handler_stream Logging.format map fst app].
    rewrite Hdebug. reflexivity.
Qed.

(** X15. The colour codes of the console reach the log file.
    [ColoredFormatter.format] rewrites the level name of the record itself,
    and the file handler formats the same record afterwards: for a record of
    one of the five standard levels, the line written to the file carries
    the escape codes around the level name exactly when the console showed
    the record, and the plain level name when [log_level] kept it from the
    console; the two lines differ. *)
Theorem file_log_carries_console_colours
        (log_level : Z) (path : string) (verbose : bool)
        (record : Logging.LogRecord) (color : string) :
  Logging.color_of (Logging.levelname record) Logging.COLORS = Some color ->
  (Logging.DEBUG <= Logging.levelno record)%Z ->
  let shown := Logging.levelname record in
  Logging.handle (Logging.setup_logging log_level (Some path) verbose) record
  = (if (log_level <=? Logging.levelno record)%Z
     then [(Logging.Stderr,
            (Logging.Formatter_format (Logging.console_format verbose)
               (with_levelname record (coloured color shown))
               ++ String LF EmptyString)%string);
           (Logging.LogFile path, file_line record (coloured color shown))]
     else [(Logging.LogFile path, file_line record shown)])
  /\ file_line record (coloured color shown) <> file_line record shown.
Proof.
  intros Hcolor Hdebug shown. split.
  - unfold Logging.handle, Logging.setup_logging.
    cbn [Logging.level Logging.handlers].
    apply Z.leb_le in Hdebug. rewrite Hdebug.
    cbn [Logging.callHandlers Logging.handler_level Logging.handler_formatter
           Logging.handler_stream Logging.format].
    destruct (log_level <=? Logging.levelno record)%Z.
    + unfold Logging.ColoredFormatter_format. rewrite Hcolor.
      cbn [Logging.callHandlers Logging.handler_level Logging.handler_formatter
             Logging.handler_stream Logging.format Logging.levelno].
      rewrite Hdebug. f_equal. f_equal. f_equal.
      unfold file_line, Logging.file_format, coloured.
      cbn [Logging.Formatter_format Logging.field_text Logging.asctime
             Logging.name Logging.levelname Logging.funcName Logging.lineno
             Logging.message].
      subst shown. rewrite !append_assoc3. reflexivity.
    + cbn [Logging.callHandlers Logging.handler_level Logging.handler_formatter
             Logging.handler_stream Logging.format].
      rewrite Hdebug. f_equal. f_equal.
      unfold file_line, Logging.file_format.
      cbn [Logging.Formatter_format Logging.field_text].
      rewrite !append_assoc3. reflexivity.
  - destruct (color_of_known _ Hcolor) as (code & -> & c & rest & Hshown & Hc).
    unfold file_line, coloured. intros H.
    do 4 apply append_cancel_l in H.
    fold shown in Hshown. rewrite Hshown in H. simpl in H.
    injection H as H _. rewrite <- H in Hc. discriminate.
Qed.

Lemma file_log_carries_console_colours_witness :
  Logging.handle (Logging.setup_logging Logging.INFO (Some "app.log"%string) false)
                 example_record
  = [(Logging.Stderr,
      (Logging.ESC ++ "[33mWARNING" ++ Logging.ESC
         ++ "[0m - Attempt 1 failed" ++ String LF EmptyString)%string);
     (Logging.LogFile "app.log",
      ("2024-01-01 00:00:00,000 - dockerfile_ai.resilience - "
         ++ Logging.ESC ++ "[33mWARNING" ++ Logging.ESC
         ++ "[0m - retry_async:98 - Attempt 1 failed"
         ++ String LF EmptyString)%string)].
Proof.
  refine (proj1 (@file_log_carries_console_colours
                   Logging.INFO "app.log" false example_record
                   (Logging.ESC ++ "[33m")%string _ _)).
  - reflexivity.
  - unfold Logging.DEBUG. simpl. lia.
Defined.

(** X16. [ColoredFormatter.format] colours a record once: after one call
    the level name is no key of [COLORS], so a second call, with any format,
    leaves the record as it is and gives the text of the plain formatter. *)
Theorem ColoredFormatter_colours_once
        (fmt fmt' : list Logging.piece) (record : Logging.LogRecord) :
  let record' := snd (Logging.ColoredFormatter_format fmt record) in
  Logging.ColoredFormatter_format fmt' record'
  = (Logging.Formatter_format fmt' record', record')
  /\ (Logging.color_of (Logging.levelname record) Logging.COLORS = None ->
      record' = record).
Proof.
  unfold Logging.ColoredFormatter_format. cbn [snd].
  destruct (Logging.color_of (Logging.levelname record) Logging.COLORS)
    as [color|] eqn:Hcolor.
  - split; [|discriminate].
    cbn [Logging.levelname].
    change (color ++ Logging.levelname record ++ Logging.RESET)%string
      with (coloured color (Logging.levelname record)).
    now rewrite (color_of_coloured _ Hcolor).
  - split; [|reflexivity]. now rewrite Hcolor.
Qed.

(* ================================================================== *)
(** * Facts: the MCP server *)
(* ================================================================== *)

(** X17. [get_prompt] agrees with what [list_prompts] announces: it returns
    a result exactly when the name is that of a listed prompt and every
    argument listed as required is given; the result is then a single user
    message whose text carries the value of each listed argument.  Every
    failure is a ValueError, and a name that is not listed fails with
    [Unknown prompt: name], whatever the arguments are. *)
Theorem get_prompt_contract
        (name : string) (arguments : option (list (string * string))) :
  ((exists r, get_prompt name arguments = Ok r)
   <-> exists p,
         In p list_prompts /\ prompt_name p = name
         /\ required_present p (given_arguments arguments))
  /\ (forall r,
         get_prompt name arguments = Ok r ->
         exists text,
           result_messages r
           = [{| message_role := "user"; message_text := text |}]
           /\ forall p a v,
               In p list_prompts -> prompt_name p = name ->
               In a (prompt_arguments p) ->
               argument_value (argument_name a) (given_arguments arguments)
               = Some v ->
               str_contains v text = true)
  /\ (forall x, get_prompt name arguments = Raise x -> exists m, x = ValueError m)
  /\ ((forall p, In p list_prompts -> prompt_name p <> name) ->
      get_prompt name arguments
      = Raise (ValueError ("Unknown prompt: " ++ name))).
Proof.
  unfold get_prompt. fold (given_arguments arguments).
  set (given := given_arguments arguments).
  destruct (String.eqb_spec name "analyze-dockerfile") as [->|Hn1];
    [|destruct (String.eqb_spec name "review-dockerfile-changes") as [->|Hn2]].
  - (* analyze-dockerfile *)
    destruct (argument_value "dockerfile_path" given) as [path|] eqn:Hpath.
    + split; [|split; [|split]].
      * split; [intros _|eauto].
        eexists. split; [left; reflexivity|]. split; [reflexivity|].
        intros a [<-|[]] _. cbn [argument_name]. now rewrite Hpath.
      * intros r Hr. injection Hr as <-. eexists. split; [reflexivity|].
        intros p a v [<-|[<-|[]]] Hname; [|discriminate Hname].
        intros [<-|[]]. cbn [argument_name]. rewrite Hpath.
        intros Hv. injection Hv as <-.
        apply str_contains_iff.
        exists "Please analyze the Dockerfile at "%string. eexists.
        reflexivity.
      * discriminate.
      * intros Hnone. exfalso. eapply Hnone; [left; reflexivity|reflexivity].
    + split; [|split; [|split]].
      * split; [intros [r Hr]; discriminate|].
        intros (p & [<-|[<-|[]]] & Hname & Hreq); [|discriminate Hname].
        exfalso. eapply Hreq; [left; reflexivity|reflexivity|exact Hpath].
      * discriminate.
      * intros x Hx. injection Hx as <-. eauto.
      * intros Hnone. exfalso. eapply Hnone; [left; reflexivity|reflexivity].
  - (* review-dockerfile-changes *)
    destruct (argument_value "original_path" given) as [orig|] eqn:Horig;
      [destruct (argument_value "corrected_name" given) as [corr|] eqn:Hcorr|].
    + split; [|split; [|split]].
      * split; [intros _|eauto].
        eexists. split; [right; left; reflexivity|]. split; [reflexivity|].
        intros a [<-|[<-|[]]] _; cbn [argument_name];
          [now rewrite Horig|now rewrite Hcorr].
      * intros r Hr. injection Hr as <-. eexists. split; [reflexivity|].
        intros p a v [<-|[<-|[]]] Hname; [discriminate Hname|].
        intros [<-|[<-|[]]]; cbn [argument_name].
        -- rewrite Horig. intros Hv. injection Hv as <-.
           apply str_contains_iff.
           exists ("Please review the changes between:" ++ NL
                     ++ "- Original: ")%string.
           eexists. reflexivity.
        -- rewrite Hcorr. intros Hv. injection Hv as <-.
           apply str_contains_iff.
           exists ("Please review the changes between:" ++ NL
                     ++ "- Original: " ++ orig ++ NL ++ "- Corrected: ")%string.
           eexists. rewrite !append_assoc3. reflexivity.
      * discriminate.
      * intros Hnone. exfalso.
        eapply Hnone; [right; left; reflexivity|reflexivity].
    + split; [|split; [|split]].
      * split; [intros [r Hr]; discriminate|].
        intros (p & [<-|[<-|[]]] & Hname & Hreq); [discriminate Hname|].
        exfalso.
        eapply Hreq; [right; left; reflexivity|reflexivity|exact Hcorr].
      * discriminate.
      * intros x Hx. injection Hx as <-. eauto.
      * intros Hnone. exfalso.
        eapply Hnone; [right; left; reflexivity|reflexivity].
    + split; [|split; [|split]].
      * split; [intros [r Hr]; discriminate|].
        intros (p & [<-|[<-|[]]] & Hname & Hreq); [discriminate Hname|].
        exfalso.
        eapply Hreq; [left; reflexivity|reflexivity|exact Horig].
      * discriminate.
      * intros x Hx. injection Hx as <-. eauto.
      * intros Hnone. exfalso.
        eapply Hnone; [right; left; reflexivity|reflexivity].
  - (* any other name *)
    split; [|split; [|split]].
    + split; [intros [r Hr]; discriminate|].
      intros (p & [<-|[<-|[]]] & Hname & _); simpl in Hname; congruence.
    + discriminate.
    + intros x Hx. injection Hx as <-. eauto.
    + reflexivity.
Qed.

(** X18. [call_tool] serves exactly the tools [list_tools] announces: a
    listed name is answered by one of the three handlers, applied to the
    arguments as they came, and a name that is not listed raises
    [ValueError: Unknown tool: name] without a handler being consulted. *)
Theorem call_tool_contract
        (E B R : Type)
        (analyze_dockerfile_tool list_analyses_tool get_analysis_tool
           : pyval -> result R (exception E B))
        (name : string) (arguments : pyval) :
  let call :=
    call_tool analyze_dockerfile_tool list_analyses_tool get_analysis_tool
              name arguments in
  (In name (map tool_name list_tools) ->
   (name = "analyze_dockerfile"%string /\ call = analyze_dockerfile_tool arguments)
   \/ (name = "list_analyses"%string /\ call = list_analyses_tool arguments)
   \/ (name = "get_analysis"%string /\ call = get_analysis_tool arguments))
  /\ (~ In name (map tool_name list_tools) ->
      forall other_analyze other_list other_get
             : pyval -> result R (exception E B),
        call_tool other_analyze other_list other_get name arguments
        = Raise (Builtin (ValueError ("Unknown tool: " ++ name)))
        /\ call = Raise (Builtin (ValueError ("Unknown tool: " ++ name)))).
Proof.
  unfold call_tool. cbn zeta. split.
  - intros [<-|[<-|[<-|[]]]]; cbn; tauto.
  - intros Hout other_analyze other_list other_get.
    destruct (String.eqb_spec name "analyze_dockerfile") as [->|_];
      [exfalso; apply Hout; simpl; tauto|].
    destruct (String.eqb_spec name "list_analyses") as [->|_];
      [exfalso; apply Hout; simpl; tauto|].
    destruct (String.eqb_spec name "get_analysis") as [->|_];
      [exfalso; apply Hout; simpl; tauto|].
    split; reflexivity.
Qed.

(* ================================================================== *)
(** * Facts: calls through the breaker that neither succeed nor fail, and
      recovery *)
(* ================================================================== *)

(** X19. A call through the breaker that ends in a [BaseException] which
    is no [Exception] (a cancellation) is counted neither as a success nor
    as a failure: the exception passes through, the operation was invoked
    once, no failure time is read, and the breaker is left as
    [should_attempt] left it; a closed breaker is left unchanged. *)
Theorem call_async_base_exception (T E B : Type) (en : env T E B)
        (cb : CircuitBreaker) (w : world) (b : B) :
  fst (should_attempt (time_time en (clock_reads w)) cb) = true ->
  outcomes en (calls w) = Escaped b ->
  fst (fst (call_async en cb w)) = Raise (OperationBaseException b)
  /\ calls (snd (call_async en cb w)) = S (calls w)
  /\ clock_reads (snd (call_async en cb w))
     = clock_reads (snd (should_attempt_in en cb w))
  /\ snd (fst (call_async en cb w))
     = snd (should_attempt (time_time en (clock_reads w)) cb)
  /\ (is_open cb = false -> snd (fst (call_async en cb w)) = cb).
Proof.
  intros Hok Hesc.
  pose proof (should_attempt_in_calls en cb w) as Hcalls.
  pose proof (should_attempt_in_pure en cb w) as Hpure.
  unfold call_async.
  destruct (should_attempt_in en cb w) as [[ok cb1] w1]. simpl in Hcalls, Hpure.
  rewrite <- Hpure in Hok |- *. simpl in Hok. subst ok.
  unfold invoke. rewrite Hcalls, Hesc. simpl.
  repeat split.
  intros Hclosed.
  rewrite (@should_attempt_closed (time_time en (clock_reads w)) cb Hclosed)
    in Hpure.
  now injection Hpure.
Qed.

Lemma call_async_base_exception_witness :
  fst (fst (call_async cancelled_operation breaker_3_60 world0))
  = Raise (OperationBaseException "CancelledError"%string)
  /\ snd (fst (call_async cancelled_operation breaker_3_60 world0))
     = breaker_3_60.
Proof.
  destruct (@call_async_base_exception
              string string string cancelled_operation breaker_3_60 world0
              "CancelledError"%string eq_refl eq_refl)
    as (Hraise & _ & _ & _ & Hsame).
  split; [exact Hraise|]. exact (Hsame eq_refl).
Defined.

(** X20. Recovery gives the service the whole budget again.  On an open
    breaker whose recovery timeout has passed, a call that fails is
    re-raised and leaves the breaker with a failure count of 1: it is open
    again only when [failure_threshold] is at most 1; with a larger
    threshold it stays closed, and the next call is attempted whatever the
    time. *)
Theorem failed_recovery_call (T E B : Type) (en : env T E B)
        (cb : CircuitBreaker) (w : world) (t : Q) (e : E) :
  is_open cb = true ->
  last_failure_time cb = Some t ->
  (recovery_timeout cb < time_time en (clock_reads w) - t)%Q ->
  outcomes en (calls w) = Raised e ->
  let after := snd (fst (call_async en cb w)) in
  fst (fst (call_async en cb w)) = Raise (OperationFailure e)
  /\ failure_count after = 1%Z
  /\ is_open after = (failure_threshold cb <=? 1)%Z
  /\ last_failure_time after = Some (time_time en (S (clock_reads w)))
  /\ ((1 < failure_threshold cb)%Z ->
      forall w', fst (fst (should_attempt_in en after w')) = true).
Proof.
  intros Hopen Hlast Hel Hfail after. subst after.
  unfold call_async, should_attempt_in, should_attempt, should_attempt_branch.
  rewrite Hopen, Hlast. cbn [negb read_clock].
  destruct (Qlt_le_dec (recovery_timeout cb) (time_time en (clock_reads w) - t))
    as [_|Hle]; [|exfalso; exact (Qlt_not_le _ _ Hel Hle)].
  unfold invoke, record_failure_in, read_clock. cbn [calls clock_reads].
  rewrite Hfail. cbn.
  split; [reflexivity|]. split; [reflexivity|].
  split; [now destruct (failure_threshold cb <=? 1)%Z|].
  split; [reflexivity|].
  intros Hthr w'. apply Z.leb_gt in Hthr. rewrite Hthr. reflexivity.
Qed.

Lemma failed_recovery_call_witness :
  fst (fst (call_async fails_at_100 breaker_3_60_opened world0))
  = Raise (OperationFailure "fail"%string)
  /\ failure_count (snd (fst (call_async fails_at_100 breaker_3_60_opened world0)))
     = 1%Z
  /\ is_open (snd (fst (call_async fails_at_100 breaker_3_60_opened world0)))
     = false.
Proof.
  assert (Hel : (recovery_timeout breaker_3_60_opened
                 < time_time fails_at_100 (clock_reads world0) - 3)%Q).
  { unfold Qlt. simpl. lia. }
  destruct (@failed_recovery_call
              string string Empty_set fails_at_100 breaker_3_60_opened world0
              3%Q "fail"%string eq_refl eq_refl Hel eq_refl)
    as (Hraise & Hcount & Hopen & _).
  split; [exact Hraise|]. split; [exact Hcount|exact Hopen].
Defined.
